(** * Council review orchestration: a shallow embedding

    This development embeds in Rocq the orchestration layer of the
    [council review] command:

    - [cli/ui/streaming.py]          -- the streaming event router
      ([create_event_stream_handler]) and [cleanup_spinner_task];
    - [cli/core/review_executor.py]  -- the retry/back-off controller
      ([run_agent_review]);
    - [cli/commands/review.py]       -- the per-file job
      ([_review_single_file]) and the bounded dispatcher ([_review]).

    Python values are modelled as follows: [str] as [string] (byte
    strings, [str.lower] acting on the ASCII letters), [int] as [Z],
    dictionaries as [gmap], exceptions as a record of their class and
    message, and every effect (registry update, status emission, audit
    entry, sleep, task creation/cancellation) as an entry of an explicit
    action log threaded through the functions. *)

From Stdlib Require Import ZArith Lia List Ascii String Bool.
From stdpp Require Import gmap strings list.

Open Scope string_scope.
Open Scope Z_scope.

(** ** Python string primitives used by the source *)

Module Text.

(** [c.lower()] on one character: the ASCII capitals are shifted by 32. *)
Definition lower_ascii (c : ascii) : ascii :=
  let n := nat_of_ascii c in
  if ((65 <=? n)%nat && (n <=? 90)%nat)%bool then ascii_of_nat (n + 32) else c.

(** [s.lower()]. *)
Fixpoint lower (s : string) : string :=
  match s with
  | EmptyString => EmptyString
  | String c s' => String (lower_ascii c) (lower s')
  end.

(** [hay.startswith(needle)]. *)
Fixpoint startswith (needle hay : string) : bool :=
  match needle, hay with
  | EmptyString, _ => true
  | String _ _, EmptyString => false
  | String a n', String b h' => if Ascii.eqb a b then startswith n' h' else false
  end.

(** [needle in hay] on strings: substring test. *)
Fixpoint str_in (needle hay : string) : bool :=
  startswith needle hay ||
  match hay with
  | EmptyString => false
  | String _ h' => str_in needle h'
  end.

(** Truthiness of a Python string: non-empty. *)
Definition truthy (s : string) : bool :=
  match s with EmptyString => false | _ => true end.

(** Characters of a string, for reasoning about occurrences. *)
Fixpoint chars (s : string) : list ascii :=
  match s with
  | EmptyString => []
  | String c s' => c :: chars s'
  end.

End Text.

(** ** Exceptions *)

(** The classes the handlers of [_review_single_file] tell apart.
    [FileNotFoundErrorK] and [RuntimeErrorK] stand for the class and its
    subclasses; [OtherExceptionK] for every other subclass of
    [Exception].  [asyncio.CancelledError] derives from [BaseException]
    and is kept apart (it is never an [Exception] value). *)
Inductive ExcClass := FileNotFoundErrorK | RuntimeErrorK | OtherExceptionK.

Record Exception := mkExc {
  exc_class : ExcClass;
  exc_type_name : string;   (* type(e).__name__ *)
  exc_msg : string          (* str(e) *)
}.

(** The rate-limit test, written the same way in [run_agent_review]
    (lines 207-214) and in [_review_single_file] (lines 350-360). *)
Definition is_rate_limit (e : Exception) : bool :=
  let error_str := Text.lower (exc_msg e) in
  Text.str_in "429" error_str
  || Text.str_in "rate limit" error_str
  || Text.str_in "ratelimiterror" error_str
  || Text.str_in "throttling" error_str
  || Text.str_in "too many tokens" error_str.

(** The five markers of the rate-limit test. *)
Definition rate_limit_markers : list string :=
  ["429"; "rate limit"; "ratelimiterror"; "throttling"; "too many tokens"].

(** The configuration-error test of the [RuntimeError] handler
    (line 333).  The second disjunct looks for a needle with capital
    letters in a lowered message. *)
Definition is_configuration_error (e : Exception) : bool :=
  let error_msg := exc_msg e in
  Text.str_in "No API keys configured" error_msg
  || Text.str_in "API key" (Text.lower error_msg).

(** ** Review results *)

Inductive Severity := SevLow | SevMedium | SevHigh | SevCritical.

(** Modelled from the spec: [ReviewResult] (the [agents] package is not
    part of the sources at hand); only the fields read by the
    orchestration layer are kept. *)
Record ReviewResult := mkResult {
  summary : string;
  severity : Severity;
  issues : list string
}.

(** ** Actions observable from outside a job *)

(** Entries written through the per-job [DebugWriter] (the audit
    recorder). *)
Inductive LoggedArgs :=
  | ArgsParsed (json_text : string)   (* json.loads succeeded *)
  | ArgsRaw (text : string)           (* parsing failed: kept as a string *)
  | ArgsObject (repr : string)        (* already structured *)
  | ArgsEmpty.                        (* [arguments or {}] with falsy arguments *)

Inductive AuditEntry :=
  | ContextSnapshot
  | UserPrompt
  | ToolCall (tool_name : string) (args : LoggedArgs) (call_id : option string)
  | ToolOutput (tool_name : string) (content : option string)
               (call_id : string) (error : option string)
  | AgentResponse (r : ReviewResult)
  | ErrorEntry (msg : string) (error_type : string).

(** Everything [run_agent_review] does to its environment, in program
    order.  Spinner tasks are named by the attempt that created them. *)
Inductive Act :=
  | ARegister (key : string)            (* _debug_writers[key] = writer *)
  | AUnregister (key : string)          (* _debug_writers.pop(key, None) *)
  | ATaskCreate (attempt : nat)         (* asyncio.create_task(spinner.run()) *)
  | ATaskCancel (attempt : nat)         (* task.cancel() *)
  | ATaskJoin (attempt : nat)           (* await wait_for(task, timeout=...) *)
  | ASpinnerStop                        (* spinner.stop() *)
  | AInvoke (attempt : nat)             (* agent.run_stream(...) *)
  | ARouterStatus (s : string)          (* show_status called by the router *)
  | ADirectStatus (s : string)          (* show_status called by the job driver *)
  | AAudit (e : AuditEntry)
  | ASleep (delay : Z)                  (* await asyncio.sleep(delay) *)
  | AExit (attempt : nat).              (* the attempt's try statement is left *)

(** ** The streaming event router ([ui/streaming.py]) *)

Module Streaming.

(** What [json.loads] makes of a string: it raises, or yields a value
    (its rendering, and whether the value is truthy). *)
Inductive Parse :=
  | ParseFails
  | ParsesTo (repr : string) (truthy : bool).

(** [arguments] attribute of a tool-call part. *)
Inductive Arguments :=
  | NoArguments                                  (* None *)
  | TextArguments (s : string) (parse : Parse)   (* a str, and json.loads of it *)
  | ObjectArguments (repr : string) (truthy : bool).

(** The part carried by a [PartStartEvent]: it either has a [tool_name]
    attribute or not. *)
Inductive StartPart :=
  | ToolPart (tool_name : string) (call_id : option string) (arguments : Arguments)
  | PlainPart.

Inductive Event :=
  | PartStartEvent (part : StartPart)
  | PartDeltaEvent (is_text_delta : bool)
  | FunctionToolCallEvent (tool_name : string) (tool_call_id : option string)
  | FunctionToolResultEvent (tool_call_id : string) (content : option string)
                            (error : option string)
  | FinalResultEvent
  | UnrelatedEvent.

(** The closure state of [create_event_stream_handler]. *)
Record State := mkState {
  last_status : string;
  tool_calls_tracked : gmap string string
}.

(** Lines 35-36. *)
Definition initial : State := mkState "" ∅.

(** Lines 60-69: what [write_tool_call] receives as arguments. *)
Definition logged_arguments (a : Arguments) : LoggedArgs :=
  match a with
  | NoArguments => ArgsEmpty
  | TextArguments s parse =>
      if Text.truthy s
      then match parse with
           | ParseFails => ArgsRaw s
           | ParsesTo repr truthy => if truthy then ArgsParsed repr else ArgsEmpty
           end
      else ArgsEmpty
  | ObjectArguments repr truthy => if truthy then ArgsObject repr else ArgsEmpty
  end.

(** The recurring block
    [if new_status != last_status: spinner.show_status(new_status);
     last_status = new_status]. *)
Definition update_status (new_status : string) (st : State) : State * list Act :=
  if String.eqb new_status (last_status st) then (st, [])
  else (mkState new_status (tool_calls_tracked st), [ARouterStatus new_status]).

(** One iteration of [async for event in event_stream] (lines 51-114).
    [debug_writer] tells whether a writer was passed; [spinner_active]
    is the value of [spinner.active] when the event arrives. *)
Definition handle_event (debug_writer spinner_active : bool)
    (st : State) (event : Event) : State * list Act :=
  match event with
  | PartStartEvent (ToolPart tool_name call_id arguments) =>
      let new_status := "Calling tool: " ++ tool_name ++ "..." in
      let audit :=
        if debug_writer
        then [AAudit (ToolCall tool_name (logged_arguments arguments) call_id)]
        else [] in
      let '(st', out) := update_status new_status st in
      (st', (audit ++ out)%list)
  | PartStartEvent PlainPart => update_status "Generating review..." st
  | PartDeltaEvent is_text_delta =>
      if (is_text_delta && negb spinner_active)%bool
      then update_status "Writing review..." st
      else (st, [])
  | FunctionToolCallEvent tool_name tool_call_id =>
      let new_status := "Executing: " ++ tool_name ++ "..." in
      let tracked :=
        match tool_call_id with
        | Some id =>
            if Text.truthy id then <[id := tool_name]> (tool_calls_tracked st)
            else tool_calls_tracked st
        | None => tool_calls_tracked st
        end in
      update_status new_status (mkState (last_status st) tracked)
  | FunctionToolResultEvent tool_call_id content error =>
      if debug_writer then
        let tool_name := default "unknown_tool" (tool_calls_tracked st !! tool_call_id) in
        (st, [AAudit (ToolOutput tool_name content tool_call_id error)])
      else (st, [])
  | FinalResultEvent => update_status "Finalizing review..." st
  | UnrelatedEvent => (st, [])
  end.

(** The whole handler on a finite stream; each event comes with the
    value [spinner.active] has when it is handled. *)
Fixpoint event_stream_handler (debug_writer : bool) (st : State)
    (event_stream : list (Event * bool)) : State * list Act :=
  match event_stream with
  | [] => (st, [])
  | (event, active) :: rest =>
      let '(st1, out1) := handle_event debug_writer active st event in
      let '(st2, out2) := event_stream_handler debug_writer st1 rest in
      (st2, (out1 ++ out2)%list)
  end.

End Streaming.

(** The statuses the router passed to the sink, in order. *)
Fixpoint router_statuses (l : list Act) : list string :=
  match l with
  | [] => []
  | ARouterStatus s :: l' => s :: router_statuses l'
  | _ :: l' => router_statuses l'
  end.

(** No two neighbours of the list are equal. *)
Fixpoint no_adjacent_dup (l : list string) : Prop :=
  match l with
  | [] => True
  | x :: l' => match l' with [] => True | y :: _ => x <> y end /\ no_adjacent_dup l'
  end.

(** ** The retry/back-off controller ([core/review_executor.py]) *)

Module Executor.

(** How one call of [agent.run_stream] ends, seen from
    [run_agent_review]: the structured output is obtained, an
    [Exception] is raised inside the [try], or the job is cancelled
    ([asyncio.CancelledError]). *)
Inductive AttemptEnd :=
  | Output (r : ReviewResult)
  | Raises (e : Exception)
  | Cancelled.

(** What the external agent does during one attempt. *)
Record Attempt := mkAttempt {
  events : list (Streaming.Event * bool);  (* fed to the event handler *)
  partial_result : bool;       (* a truthy partial result was streamed *)
  history_outputs : list AuditEntry;
      (* the tool outputs lines 101-174 find in the run history *)
  ending : AttemptEnd
}.

(** State of a spinner task as [task.done()] sees it. *)
Inductive TaskState := TRunning | TCancelling | TDone.

(** The mutable state [run_agent_review] works on. *)
Record World := mkWorld {
  registry : gmap string (option string);
      (* councilor._debug_writers: file path -> writer (its review id) *)
  tasks : gmap nat TaskState;        (* spinner tasks, by creating attempt *)
  router : Streaming.State           (* closure state of the event handler *)
}.

(** A computation changes the world and appends to the action log. *)
Definition M (A : Type) : Type := World -> A * World * list Act.

Definition ret {A} (x : A) : M A := fun w => (x, w, []).

Definition bind {A B} (m : M A) (k : A -> M B) : M B :=
  fun w =>
    match m w with
    | (a, w1, l1) =>
        match k a w1 with
        | (b, w2, l2) => (b, w2, (l1 ++ l2)%list)
        end
    end.

Declare Scope exec_scope.
Delimit Scope exec_scope with exec.
Notation "x <- c1 ;; c2" := (bind c1 (fun x => c2))
  (at level 100, c1 at next level, c2 at level 200, right associativity) : exec_scope.
Notation "c1 ;; c2" := (bind c1 (fun _ => c2))
  (at level 100, c2 at level 200, right associativity) : exec_scope.
Open Scope exec_scope.

Definition emit (a : Act) : M unit := fun w => (tt, w, [a]).

Definition when (b : bool) (m : M unit) : M unit := if b then m else ret tt.

(** Lines 59-60. *)
Definition register (key : string) (writer : option string) : M unit :=
  fun w => (tt, mkWorld (<[key := writer]> (registry w)) (tasks w) (router w),
            [ARegister key]).

(** Lines 194-195 and 233-234: [_debug_writers.pop(key, None)]. *)
Definition unregister (key : string) : M unit :=
  fun w => (tt, mkWorld (delete key (registry w)) (tasks w) (router w),
            [AUnregister key]).

(** [asyncio.create_task(spinner.run())]. *)
Definition create_task (attempt : nat) : M nat :=
  fun w => (attempt, mkWorld (registry w) (<[attempt := TRunning]> (tasks w)) (router w),
            [ATaskCreate attempt]).

(** [task.cancel()]. *)
Definition cancel (t : nat) : M unit :=
  fun w => (tt, mkWorld (registry w) (<[t := TCancelling]> (tasks w)) (router w),
            [ATaskCancel t]).

(** [await asyncio.wait_for(task, timeout=Spinner.SPINNER_CLEANUP_TIMEOUT)]
    with [TimeoutError] and [CancelledError] suppressed. *)
Definition join (t : nat) : M unit :=
  fun w => (tt, mkWorld (registry w) (<[t := TDone]> (tasks w)) (router w),
            [ATaskJoin t]).

(** [task.done()]. *)
Definition done (t : nat) : M bool :=
  fun w => (match tasks w !! t with Some TDone => true | _ => false end, w, []).

(** [cleanup_spinner_task] ([ui/streaming.py], lines 119-125). *)
Definition cleanup_spinner_task (task : option nat) : M unit :=
  emit ASpinnerStop ;;
  match task with
  | Some t =>
      d <- done t ;;
      if d then ret tt else (cancel t ;; join t)
  | None => ret tt
  end.

(** The event handler runs on the events of the attempt; its closure
    state survives from one attempt to the next. *)
Definition route (evs : list (Streaming.Event * bool)) : M unit :=
  fun w =>
    match Streaming.event_stream_handler true (router w) evs with
    | (st, out) => (tt, mkWorld (registry w) (tasks w) st, out)
    end.

(** Line 62: [create_event_stream_handler] makes a fresh closure. *)
Definition new_event_handler : M unit :=
  fun w => (tt, mkWorld (registry w) (tasks w) Streaming.initial, []).

(** Lines 87-94: the first truthy partial result. *)
Definition on_partial_result (enabled : bool) (spinner_task : option nat)
    : M (option nat) :=
  t <- match spinner_task with
       | Some t =>
           d <- done t ;;
           if d then ret (Some t) else (cancel t ;; ret None)
       | None => ret None
       end ;;
  emit ASpinnerStop ;;
  when enabled (emit (ADirectStatus "Receiving review results...")) ;;
  ret t.

(** How the body of the [for] loop is left. *)
Inductive Control :=
  | CContinue
  | CReturn (r : ReviewResult)
  | CRaise (e : Exception)
  | CCancelled.

(** [base_delay]: 5.0 seconds; the products [5.0 * 2**attempt] are
    exact, so delays are integers here. *)
Definition base_delay : Z := 5.

(** Body of the [for] loop (lines 70-239) for attempt number [attempt].
    The [finally] clause is the [cleanup_spinner_task] that precedes
    every [AExit]. *)
Definition attempt_body (max_retries : nat) (enabled : bool) (key : string)
    (attempt : nat) (att : Attempt) : M Control :=
  spinner_task <- (if enabled
                   then (t <- create_task attempt ;; ret (Some t))
                   else ret None) ;;
  emit (AInvoke attempt) ;;
  route (events att) ;;
  spinner_task <- (if partial_result att
                   then on_partial_result enabled spinner_task
                   else ret spinner_task) ;;
  match ending att with
  | Output review_result =>
      fold_right (fun e k => emit (AAudit e) ;; k) (ret tt) (history_outputs att) ;;
      emit (AAudit (AgentResponse review_result)) ;;
      unregister key ;;
      cleanup_spinner_task spinner_task ;;
      emit (AExit attempt) ;;
      ret (CReturn review_result)
  | Cancelled =>
      cleanup_spinner_task spinner_task ;;
      emit (AExit attempt) ;;
      ret CCancelled
  | Raises e =>
      cleanup_spinner_task spinner_task ;;
      if (is_rate_limit e && (Z.of_nat attempt <? Z.of_nat max_retries - 1))%bool
      then
        let delay := base_delay * 2 ^ Z.of_nat attempt in
        emit (ASleep delay) ;;
        cleanup_spinner_task spinner_task ;;
        emit (AExit attempt) ;;
        ret CContinue
      else
        emit (AAudit (ErrorEntry (exc_msg e) (exc_type_name e))) ;;
        unregister key ;;
        cleanup_spinner_task spinner_task ;;
        emit (AExit attempt) ;;
        ret (CRaise e)
  end.

(** How [run_agent_review] ends. [FellThrough] is the
    [RuntimeError("Failed to get review result after retries")] raised
    after the loop. *)
Inductive RunResult :=
  | Returned (r : ReviewResult)
  | Reraised (e : Exception)
  | Cancellation
  | FellThrough.

(** [for attempt in range(max_retries)] over the attempts still to run. *)
Fixpoint retry_loop (max_retries : nat) (enabled : bool) (key : string)
    (script : nat -> Attempt) (todo : list nat) : M RunResult :=
  match todo with
  | [] => ret FellThrough
  | attempt :: rest =>
      c <- attempt_body max_retries enabled key attempt (script attempt) ;;
      match c with
      | CContinue => retry_loop max_retries enabled key script rest
      | CReturn r => ret (Returned r)
      | CRaise e => ret (Reraised e)
      | CCancelled => ret Cancellation
      end
  end.

(** Lines 33-69 followed by the loop, for any bound. *)
Definition run_with (max_retries : nat) (key : string) (review_id : option string)
    (debug_enabled enabled : bool) (script : nat -> Attempt) : M RunResult :=
  when debug_enabled (emit (AAudit ContextSnapshot)) ;;
  emit (AAudit UserPrompt) ;;
  register key review_id ;;
  new_event_handler ;;
  retry_loop max_retries enabled key script (seq 0 max_retries).

(** [run_agent_review]: [max_retries = 3] (line 66). *)
Definition max_retries : nat := 3.

Definition run_agent_review (key : string) (review_id : option string)
    (debug_enabled enabled : bool) (script : nat -> Attempt) : M RunResult :=
  run_with max_retries key review_id debug_enabled enabled script.

End Executor.

(** ** One review job ([_review_single_file], [commands/review.py]) *)

Module Review.

Import Executor.

(** [settings] (only the two fields the command reads here). *)
Record Settings := mkSettings {
  enable_cache : bool;
  max_concurrent_reviews : Z
}.

(** Result of [get_packed_context] / [get_packed_diff]. *)
Inductive ContextOutcome :=
  | Packed (packed_xml : string)
  | ContextFails (e : Exception).

(** The collaborators of one job: what the context extractor, the cache
    and the agent answer when this job calls them.  [cached_data] is
    [Some r] when [get_cached_review] returns truthy data, [r] being the
    [ReviewResult] rebuilt from it. *)
Record JobEnv := mkEnv {
  context : ContextOutcome;
  cached_data : option ReviewResult;
  review_id : string;
  debug_enabled : bool;
  spinner_enabled : bool;
  script : nat -> Attempt
}.

(** What a job does, in program order. *)
Inductive JobAct :=
  | JExtract (file : string)                   (* context extraction *)
  | JCacheGet (file : string)                  (* get_cached_review *)
  | JCachePut (file : string) (r : ReviewResult)   (* cache_review *)
  | JRun (a : Act)                             (* inside run_agent_review *)
  | JFinish (success : bool) (error_type : option string).  (* finish_review *)

(** How the [try] block (lines 212-322) ends. *)
Inductive BodyResult :=
  | BodyReturns (file : string) (r : ReviewResult)
  | BodyRaises (e : Exception)
  | BodyCancelled.

(** The exception a finished [run_agent_review] hands to its caller. *)
Definition fell_through_error : Exception :=
  mkExc RuntimeErrorK "RuntimeError" "Failed to get review result after retries".

(** Lines 212-322.  The shared registry is the only state that
    outlives the job. *)
Definition job_body (settings : Settings) (no_cache : bool) (file_path : string)
    (env : JobEnv) (reg : gmap string (option string))
    : BodyResult * gmap string (option string) * list JobAct :=
  match context env with
  | ContextFails e => (BodyRaises e, reg, [JExtract file_path])
  | Packed packed_xml =>
      let use_cache := (negb no_cache && enable_cache settings)%bool in
      let lookup := if use_cache then [JCacheGet file_path] else [] in
      let cached_result := if use_cache then cached_data env else None in
      match cached_result with
      | Some review_result =>
          (BodyReturns file_path review_result, reg,
           (JExtract file_path :: lookup ++ [JFinish true None])%list)
      | None =>
          match run_agent_review file_path (Some (review_id env)) (debug_enabled env)
                  (spinner_enabled env) (script env)
                  (mkWorld reg ∅ Streaming.initial) with
          | (res, w, l) =>
              let pre := (JExtract file_path :: lookup ++ map JRun l)%list in
              match res with
              | Returned review_result =>
                  let put := if use_cache then [JCachePut file_path review_result]
                             else [] in
                  (BodyReturns file_path review_result, registry w,
                   (pre ++ put ++ [JFinish true None])%list)
              | Reraised e => (BodyRaises e, registry w, pre)
              | FellThrough => (BodyRaises fell_through_error, registry w, pre)
              | Cancellation => (BodyCancelled, registry w, pre)
              end
          end
      end
  end.

(** What the coroutine of one job hands to the event loop. *)
Inductive JobOutcome :=
  | JobReturns (v : option (string * ReviewResult))
  | JobRaises (e : Exception)      (* an Exception that escapes the job *)
  | JobExits (code : Z)            (* sys.exit(code): SystemExit *)
  | JobCancelled.

(** The [except] clauses, lines 324-393, in their order. *)
Definition on_exception (e : Exception) : JobOutcome * list JobAct :=
  match exc_class e with
  | FileNotFoundErrorK => (JobReturns None, [JFinish false (Some "FileNotFoundError")])
  | RuntimeErrorK =>
      if is_configuration_error e
      then (JobExits 1, [JFinish false (Some "ConfigurationError")])
      else (JobReturns None, [JFinish false (Some "RuntimeError")])
  | OtherExceptionK => (JobReturns None, [JFinish false (Some (exc_type_name e))])
  end.

(** [_review_single_file] once the semaphore is held. *)
Definition review_single_file (settings : Settings) (no_cache : bool)
    (file_path : string) (env : JobEnv) (reg : gmap string (option string))
    : JobOutcome * gmap string (option string) * list JobAct :=
  match job_body settings no_cache file_path env reg with
  | (BodyReturns f r, reg', l) => (JobReturns (Some (f, r)), reg', l)
  | (BodyRaises e, reg', l) =>
      let '(o, l') := on_exception e in (o, reg', (l ++ l')%list)
  | (BodyCancelled, reg', l) => (JobCancelled, reg', l)
  end.

End Review.

(** ** The bounded dispatcher ([_review], [commands/review.py]) *)

Module Dispatcher.

Import Review.

(** Lines 404-409. *)
Definition concurrency_limit (max_concurrent_reviews : Z) (n_files : nat) : Z :=
  let n := Z.of_nat n_files in
  if n <=? 5 then n
  else Z.min max_concurrent_reviews (Z.max 3 (n / 2)).

(** What [asyncio.gather(..., return_exceptions=True)] stores for a
    finished task: what it returned, the [Exception] it raised, or --
    for a task that ended cancelled -- a [CancelledError]. *)
Inductive GatherItem :=
  | Value (v : option (string * ReviewResult))
  | Exc (e : Exception)
  | CancelledResult.

Inductive Phase :=
  | Pending                 (* waiting for the semaphore *)
  | Running                 (* inside [async with semaphore] *)
  | Done (item : GatherItem)
  | Ended.                  (* left through SystemExit, or cancelled at shutdown *)

(** Why the event loop stopped before [gather] completed: a job called
    [sys.exit]. *)
Inductive Halt := Exited (code : Z).

Record State := mkState {
  sem_value : Z;            (* Semaphore._value *)
  phases : list Phase;      (* one per task, in submission order *)
  halted : option Halt
}.

(** [asyncio.Semaphore(value)] raises [ValueError] on a negative value;
    all tasks start out waiting. *)
Definition start (limit : Z) (n_files : nat) : option State :=
  if limit <? 0 then None else Some (mkState limit (replicate n_files Pending) None).

(** The two scheduling events of a task: it gets a slot, or its body
    ends and the slot is given back. *)
Inductive Move := Acquire (i : nat) | Release (i : nat).

(** One scheduling event; [None] when the event cannot happen in this
    state.  [outcome i] is what the body of task [i] ends with.

    While the event loop runs, a task that ends hands its slot back and
    [gather] keeps what it ended with -- also the [CancelledError] of a
    task that ended cancelled: its siblings run on.  A [SystemExit]
    leaves the event loop; [asyncio.run] then cancels every task that is
    left: those holding a slot leave [async with semaphore] and give it
    back, those waiting never get one. *)
Definition step (outcome : nat -> JobOutcome) (d : State) (m : Move) : option State :=
  match halted d with
  | Some h =>
      match m with
      | Acquire _ => None
      | Release i =>
          match phases d !! i with
          | Some Running =>
              Some (mkState (sem_value d + 1) (<[i := Ended]> (phases d)) (Some h))
          | _ => None
          end
      end
  | None =>
      match m with
      | Acquire i =>
          match phases d !! i with
          | Some Pending =>
              if 0 <? sem_value d
              then Some (mkState (sem_value d - 1) (<[i := Running]> (phases d)) None)
              else None
          | _ => None
          end
      | Release i =>
          match phases d !! i with
          | Some Running =>
              match outcome i with
              | JobReturns v =>
                  Some (mkState (sem_value d + 1) (<[i := Done (Value v)]> (phases d)) None)
              | JobRaises e =>
                  Some (mkState (sem_value d + 1) (<[i := Done (Exc e)]> (phases d)) None)
              | JobCancelled =>
                  Some (mkState (sem_value d + 1)
                          (<[i := Done CancelledResult]> (phases d)) None)
              | JobExits code =>
                  Some (mkState (sem_value d + 1) (<[i := Ended]> (phases d))
                          (Some (Exited code)))
              end
          | _ => None
          end
      end
  end.

(** A schedule: any interleaving of scheduling events. *)
Fixpoint run (outcome : nat -> JobOutcome) (d : State) (schedule : list Move)
    : option State :=
  match schedule with
  | [] => Some d
  | m :: rest =>
      match step outcome d m with
      | Some d' => run outcome d' rest
      | None => None
      end
  end.

(** Number of tasks holding a slot. *)
Fixpoint in_flight (ps : list Phase) : nat :=
  match ps with
  | [] => 0
  | Running :: ps' => S (in_flight ps')
  | _ :: ps' => in_flight ps'
  end.

(** The list [gather] returns once every task is done. *)
Fixpoint gathered (ps : list Phase) : option (list GatherItem) :=
  match ps with
  | [] => Some []
  | Done item :: ps' =>
      match gathered ps' with
      | Some items => Some (item :: items)
      | None => None
      end
  | _ :: _ => None
  end.

(** What [all_results] holds: the pair a job returned, or an object
    that is no pair -- the [CancelledError] of a cancelled task, which
    line 427 does not skip ([CancelledError] derives from
    [BaseException], not from [Exception]). *)
Inductive ResultEntry :=
  | Reviewed (result : string * ReviewResult)
  | Unfiltered.

(** Lines 426-431: instances of [Exception] and [None] are skipped,
    everything else is appended. *)
Fixpoint all_results (results : list GatherItem) : list ResultEntry :=
  match results with
  | [] => []
  | Exc _ :: rest => all_results rest
  | Value None :: rest => all_results rest
  | Value (Some result) :: rest => Reviewed result :: all_results rest
  | CancelledResult :: rest => Unfiltered :: all_results rest
  end.

(** How a batch that has stopped moving ends: with [all_results] as it
    stands when the output starts, or with the exit code of the job
    that stopped the event loop. *)
Inductive BatchOutcome :=
  | BatchReturns (results : list ResultEntry)
  | BatchExits (code : Z).

Definition batch_outcome (d : State) : option BatchOutcome :=
  match halted d with
  | Some (Exited code) => Some (BatchExits code)
  | None =>
      match gathered (phases d) with
      | Some items => Some (BatchReturns (all_results items))
      | None => None
      end
  end.

(** The body of task [i] of a batch: file [i] with its collaborators.
    What a job returns does not depend on the registry it finds
    ([review_single_file_registry_independent] below), so each job is
    judged on an empty one. *)
Definition job_outcome (settings : Settings) (no_cache : bool)
    (files : list string) (envs : nat -> JobEnv) (i : nat) : JobOutcome :=
  match files !! i with
  | Some file_path => fst (fst (review_single_file settings no_cache file_path (envs i) ∅))
  | None => JobReturns None
  end.

(** [_review] up to the point where the results are printed: the
    semaphore is created with the computed limit and the tasks are
    scheduled in some order. *)
Definition review (settings : Settings) (no_cache : bool) (files : list string)
    (envs : nat -> JobEnv) (schedule : list Move) : option State :=
  match start (concurrency_limit (max_concurrent_reviews settings) (length files))
              (length files) with
  | Some d0 => run (job_outcome settings no_cache files envs) d0 schedule
  | None => None
  end.

(** The jobs that returned a pair, in submission order. *)
Definition successes (outcome : nat -> JobOutcome) (n : nat)
    : list (string * ReviewResult) :=
  omap (fun i => match outcome i with JobReturns v => v | _ => None end) (seq 0 n).

(** The schedule that runs the tasks one after the other. *)
Definition sequential (n : nat) : list Move :=
  flat_map (fun i => [Acquire i; Release i]) (seq 0 n).

End Dispatcher.

(** ** Command-line input of [review] and [context]
    ([commands/review.py], [commands/context.py]) *)

Module Frontend.

(** [MAX_EXTRA_INSTRUCTIONS_LENGTH]. *)
Definition MAX_EXTRA_INSTRUCTIONS_LENGTH : Z := 10000.

(** [ord(char) >= 32 or char in "\n\t"]. *)
Definition keeps (c : ascii) : bool :=
  ((32 <=? nat_of_ascii c)%nat || Ascii.eqb c "010" || Ascii.eqb c "009")%bool.

(** ["".join(char for char in extra_instructions if ...)]. *)
Fixpoint sanitize (s : string) : string :=
  match s with
  | EmptyString => EmptyString
  | String c s' => if keeps c then String c (sanitize s') else sanitize s'
  end.

(** Outcome of the validation block: [sys.exit(1)], or the instructions
    handed on, with the warning flag. *)
Inductive Checked :=
  | TooLong
  | Kept (extra_instructions : option string) (warned : bool).

(** [review], lines 93-113 (the same block opens [context]). *)
Definition check_extra_instructions (extra_instructions : option string) : Checked :=
  match extra_instructions with
  | None => Kept None false
  | Some s =>
      if Text.truthy s
      then
        if MAX_EXTRA_INSTRUCTIONS_LENGTH <? Z.of_nat (String.length s) then TooLong
        else
          let sanitized := sanitize s in
          Kept (Some sanitized) (negb (String.eqb sanitized s))
      else Kept (Some s) false
  end.

(** [str.isspace] on the characters of a string (codes below 256). *)
Definition is_space (c : ascii) : bool :=
  let n := nat_of_ascii c in
  (((9 <=? n) && (n <=? 13)) || ((28 <=? n) && (n <=? 32))
   || (n =? 133) || (n =? 160))%nat%bool.

(** [s.lstrip()]. *)
Fixpoint lstrip (s : string) : string :=
  match s with
  | EmptyString => EmptyString
  | String c s' => if is_space c then lstrip s' else s
  end.

(** [s.rstrip()]. *)
Fixpoint rstrip (s : string) : string :=
  match s with
  | EmptyString => EmptyString
  | String c s' =>
      let r := rstrip s' in
      if (is_space c && negb (Text.truthy r))%bool then EmptyString else String c r
  end.

(** [s.strip()]. *)
Definition strip (s : string) : string := rstrip (lstrip s).

(** [s.split(sep)] for a one-character separator. *)
Fixpoint split (sep : ascii) (s : string) : list string :=
  match s with
  | EmptyString => [EmptyString]
  | String c s' =>
      if Ascii.eqb c sep then EmptyString :: split sep s'
      else match split sep s' with
           | field :: fields => String c field :: fields
           | [] => [String c EmptyString]
           end
  end.

(** [sep.join(fields)]. *)
Fixpoint join (sep : string) (fields : list string) : string :=
  match fields with
  | [] => EmptyString
  | [field] => field
  | field :: rest => field ++ sep ++ join sep rest
  end.

(** [valid_phases]. *)
Definition valid_phases : list string :=
  ["security"; "performance"; "maintainability"; "best_practices"].

(** [p in valid_phases]. *)
Definition is_valid_phase (p : string) : bool :=
  existsb (String.eqb p) valid_phases.

(** The parsing of [--phases] ([review.py] lines 238-248, [context.py]
    lines 98-109): the phases, or [None], and whether the warning is
    printed. *)
Definition parse_phases (phases : option string) : option (list string) * bool :=
  match phases with
  | None => (None, false)
  | Some s =>
      if Text.truthy s
      then
        let stripped := filter (fun p => Text.truthy p = true) (map strip (split "," s)) in
        let review_phases := filter (fun p => is_valid_phase p = true) stripped in
        match review_phases with
        | [] => (None, true)
        | _ => (Some review_phases, false)
        end
      else (None, false)
  end.

(** The sentences [_build_system_prompt] adds for the phases
    ([core/context_builder.py], lines 88-108), after the heading. *)
Definition focus_sentences (review_phases : list string) : string :=
  (if existsb (String.eqb "security") review_phases
   then "Prioritize security vulnerabilities and security best practices. " else "") ++
  (if existsb (String.eqb "performance") review_phases
   then "Focus on performance bottlenecks, optimization opportunities, and efficiency. "
   else "") ++
  (if existsb (String.eqb "maintainability") review_phases
   then "Emphasize code maintainability, readability, and long-term sustainability. "
   else "") ++
  (if existsb (String.eqb "best_practices") review_phases
   then "Apply general best practices and coding standards. " else "").

(** [phase_instructions] of [_build_system_prompt]; an empty list and
    [None] are both falsy. *)
Definition phase_instructions (review_phases : option (list string)) : string :=
  match review_phases with
  | None | Some [] => ""
  | Some phases =>
      String "010" (String "010" ("REVIEW PHASES: Focus on " ++ join ", " phases ++ ". "))
      ++ focus_sentences phases
  end.

End Frontend.

(** ** The spinner ([ui/spinner.py]) *)

Module Spinner.

(** [len(SPINNER_CHARS)]: the ten braille frames, named by their index. *)
Definition SPINNER_FRAMES : nat := 10.

Definition DEFAULT_TERMINAL_WIDTH : nat := 80.

(** The attributes of a [Spinner]. *)
Record State := mkSpinner {
  current_status : string;
  spinner_idx : nat;
  active : bool;
  enabled : bool
}.

(** What is written to the terminal: a status line (the status and the
    frame drawn after it), or the blank line of [stop]. *)
Inductive Write :=
  | StatusLine (status : string) (frame : nat)
  | ClearLine (width : nat).

(** [__init__]: [enabled=None] auto-detects the terminal. *)
Definition new (enabled : option bool) (is_tty : bool) : State :=
  mkSpinner "Analyzing code structure..." 0 false
    (match enabled with None => is_tty | Some b => b end).

(** [show_status(message)]. *)
Definition show_status (message : option string) (s : State) : State * list Write :=
  if negb (enabled s) then (s, [])
  else
    let status :=
      match message with
      | Some m => if Text.truthy m then m else current_status s
      | None => current_status s
      end in
    (mkSpinner status (S (spinner_idx s)) (active s) (enabled s),
     [StatusLine status (spinner_idx s mod SPINNER_FRAMES)]).

(** [stop()]; [terminal_width] is [None] when the width cannot be
    read. *)
Definition stop (terminal_width : option nat) (s : State) : State * list Write :=
  let s' := mkSpinner (current_status s) (spinner_idx s) false (enabled s) in
  if negb (enabled s) then (s', [])
  else (s', [ClearLine (default DEFAULT_TERMINAL_WIDTH terminal_width)]).

(** The loop of [run()] going through [ticks] rounds. *)
Fixpoint tick (ticks : nat) (s : State) : State * list Write :=
  match ticks with
  | O => (s, [])
  | S n =>
      let '(s1, w1) := show_status None s in
      let '(s2, w2) := tick n s1 in
      (s2, (w1 ++ w2)%list)
  end.

(** [run()]: nothing when disabled; otherwise the spinner is active
    during the loop, which is left (after [ticks] rounds, by [stop] or by
    cancellation) with the spinner inactive. *)
Definition run (ticks : nat) (s : State) : State * list Write :=
  if negb (enabled s) then (s, [])
  else
    let '(s1, w) :=
      tick ticks (mkSpinner (current_status s) (spinner_idx s) true (enabled s)) in
    (mkSpinner (current_status s1) (spinner_idx s1) false (enabled s1), w).

(** The calls made on a spinner. *)
Inductive Call :=
  | ShowStatus (message : option string)
  | Stop (terminal_width : option nat)
  | Run (ticks : nat).

Definition call (c : Call) (s : State) : State * list Write :=
  match c with
  | ShowStatus message => show_status message s
  | Stop terminal_width => stop terminal_width s
  | Run ticks => run ticks s
  end.

(** A sequence of calls, one after the other. *)
Fixpoint calls (cs : list Call) (s : State) : State * list Write :=
  match cs with
  | [] => (s, [])
  | c :: rest =>
      let '(s1, w1) := call c s in
      let '(s2, w2) := calls rest s1 in
      (s2, (w1 ++ w2)%list)
  end.

End Spinner.


(** ** Path resolution and file collection ([utils/paths.py]) *)

Module Paths.

(** What the file system answers about a path: [exists()], [is_file()],
    [is_dir()] and, for a directory, the entries of [rglob("*")]. *)
Inductive Kind :=
  | Missing
  | RegularFile
  | Directory (rglob : list string)
  | Special.                (* exists, neither file nor directory *)

(** The [pathlib] operations the module relies on.  A [Path] is kept as
    its string; [pathlib] itself is not modelled, its answers are
    given. *)
Record Files := mkFiles {
  cwd : string;                              (* Path.cwd() *)
  parts : string -> list string;             (* Path(s).parts *)
  joinpath : string -> string -> string;     (* a / b *)
  resolve : string -> string;                (* p.resolve() *)
  kind : string -> Kind;
  is_relative_to : string -> string -> bool; (* p.is_relative_to(root) *)
  is_absolute : string -> bool;
  name : string -> string;                   (* p.name *)
  suffix : string -> string                  (* p.suffix *)
}.

Definition exists_ (fs : Files) (p : string) : bool :=
  match kind fs p with Missing => false | _ => true end.

Definition is_file (fs : Files) (p : string) : bool :=
  match kind fs p with RegularFile => true | _ => false end.

Definition ValueError (msg : string) : Exception :=
  mkExc OtherExceptionK "ValueError" msg.

(** [path_str[1:]]. *)
Definition tail (s : string) : string :=
  match s with EmptyString => EmptyString | String _ rest => rest end.

(** [resolve_path], lines 8-96.  Each [for root in allowed_roots] loop
    returns at the first root the path is relative to. *)
Definition resolve_path (fs : Files) (path : string) : Exception + string :=
  let path_str := path in
  if existsb (String.eqb "..") (parts fs path_str)
  then inl (ValueError "Path traversal detected: '..' not allowed in path")
  else if Text.startswith "@" path_str
  then
    let folder_name := tail path_str in
    if Text.str_in "/" folder_name || Text.str_in "\" folder_name
       || Text.str_in ".." folder_name
    then inl (ValueError "Invalid folder name in @ path")
    else
      let base_path := cwd fs in
      let council := joinpath fs (joinpath fs base_path "src") "council" in
      let resolved :=
        if exists_ fs council
        then
          if negb (Text.truthy folder_name) || String.eqb folder_name "council"
          then council
          else joinpath fs council folder_name
        else if Text.truthy folder_name then joinpath fs base_path folder_name
             else base_path in
      let resolved_path :=
        if exists_ fs resolved then resolve fs resolved else resolve fs path in
      let allowed_roots :=
        [resolve fs base_path; resolve fs (joinpath fs base_path "src")] in
      if existsb (is_relative_to fs resolved_path) allowed_roots then inr resolved_path
      else if existsb (is_relative_to fs resolved_path) allowed_roots then inr resolved_path
      else inl (ValueError "Resolved path would be outside allowed directories")
  else
    let resolved := resolve fs path in
    let allowed_roots := [resolve fs (cwd fs)] in
    if existsb (is_relative_to fs resolved) allowed_roots then inr resolved
    else if is_absolute fs resolved then inr resolved
    else inr resolved.

(** [CODE_EXTENSIONS], lines 113-212. *)
Definition CODE_EXTENSIONS : list string :=
  [".py"; ".js"; ".ts"; ".tsx"; ".jsx"; ".java"; ".go"; ".rs"; ".cpp"; ".c"; ".h";
   ".hpp"; ".cc"; ".cxx"; ".cs"; ".php"; ".rb"; ".swift"; ".kt"; ".scala"; ".r"; ".m";
   ".mm"; ".sh"; ".bash"; ".zsh"; ".fish"; ".ps1"; ".bat"; ".cmd"; ".sql"; ".html";
   ".css"; ".scss"; ".sass"; ".less"; ".vue"; ".svelte"; ".elm"; ".clj"; ".cljs";
   ".edn"; ".lua"; ".pl"; ".pm"; ".rkt"; ".dart"; ".ex"; ".exs"; ".jl"; ".nim"; ".cr";
   ".d"; ".pas"; ".f"; ".f90"; ".f95"; ".ml"; ".mli"; ".fs"; ".fsi"; ".fsx"; ".vb";
   ".vbs"; ".yaml"; ".yml"; ".json"; ".toml"; ".ini"; ".cfg"; ".conf"; ".xml"; ".xsd";
   ".xsl"; ".xslt"; ".makefile"; ".mk"; ".dockerfile"; ".cmake"; ".proto"; ".thrift";
   ".graphql"; ".gql"; ".tf"; ".tfvars"; ".hcl"; ".groovy"; ".gradle"; ".jinja";
   ".jinja2"; ".j2"; ".mustache"; ".handlebars"; ".hbs"; ".ejs"; ".pug"; ".jade";
   ".njk"].

(** [LOCK_FILES], lines 215-226. *)
Definition LOCK_FILES : list string :=
  ["uv.lock"; "package-lock.json"; "poetry.lock"; "yarn.lock"; "pnpm-lock.yaml";
   "Gemfile.lock"; "composer.lock"; "mix.lock"; "go.sum"; "Cargo.lock"].

Definition is_lock_file (fs : Files) (p : string) : bool :=
  existsb (String.eqb (name fs p)) LOCK_FILES.

(** The condition of the comprehension over [rglob("*")], lines 243-249. *)
Definition is_code_file (fs : Files) (file_path : string) : bool :=
  is_file fs file_path
  && existsb (String.eqb (Text.lower (suffix fs file_path))) CODE_EXTENSIONS
  && negb (is_lock_file fs file_path).

(** What one resolved path adds to [files_to_review], lines 233-257. *)
Definition files_at (fs : Files) (resolved_path : string) : list string :=
  match kind fs resolved_path with
  | Missing => []
  | RegularFile => if is_lock_file fs resolved_path then [] else [resolved_path]
  | Directory entries => filter (fun file_path => is_code_file fs file_path = true) entries
  | Special => []
  end.

(** [collect_files], lines 99-259 (the warnings echoed on the way are
    left out).  A [ValueError] of [resolve_path] ends the call. *)
Fixpoint collect_files (fs : Files) (paths : list string) : Exception + list string :=
  match paths with
  | [] => inr []
  | path :: rest =>
      match resolve_path fs path with
      | inl e => inl e
      | inr resolved_path =>
          match collect_files fs rest with
          | inl e => inl e
          | inr files => inr (files_at fs resolved_path ++ files)%list
          end
      end
  end.

End Paths.

(** ** The [review] command up to the batch ([commands/review.py],
    lines 93-185) *)

Module Command.

Import Paths.

Record Invocation := mkInvocation {
  paths : list string;
  extra_instructions : option string;
  base_ref : option string;
  uncommitted : bool
}.

(** How the command reaches, or fails to reach, [asyncio.run(_review())]. *)
Inductive Front :=
  | Exits (code : Z)                            (* sys.exit(code) *)
  | Crashes (e : Exception)                     (* an exception leaves the command *)
  | Starts (files_to_review : list string) (base_ref : option string)
           (extra_instructions : option string).

(** [_filter_uncommitted], lines 130-170: an exit code or the filtered
    files.  [git] is what [get_uncommitted_files()] gives; [paths] is
    the variable as the closure finds it, after line 117. *)
Definition filter_uncommitted (fs : Files) (project_root : string)
    (paths files_to_review : list string) (git : Exception + list string)
    : Z + list string :=
  match git with
  | inl _ => inl 1
  | inr [] => inl 0
  | inr uncommitted_file_paths =>
      let root := resolve fs project_root in
      let located path := joinpath fs root path in
      let uncommitted_paths := map (fun path => resolve fs (located path))
                                   uncommitted_file_paths in
      let filtered_files :=
        if match paths with [] => true | _ => false end
           || bool_decide (paths = [project_root])
        then map (fun path => resolve fs (located path))
                 (filter (fun path => exists_ fs (located path) = true)
                         uncommitted_file_paths)
        else filter (fun f => (existsb (String.eqb (resolve fs f)) uncommitted_paths
                               && exists_ fs f) = true) files_to_review in
      match filtered_files with
      | [] => inl 0
      | _ => inr filtered_files
      end
  end.

(** [if not base_ref: base_ref = "HEAD"], lines 177-178. *)
Definition head_by_default (base_ref : option string) : option string :=
  match base_ref with
  | Some ref => if Text.truthy ref then Some ref else Some "HEAD"
  | None => Some "HEAD"
  end.

(** [review], lines 93-185. *)
Definition review_front (fs : Files) (project_root : string)
    (git : Exception + list string) (inv : Invocation) : Front :=
  match Frontend.check_extra_instructions (extra_instructions inv) with
  | Frontend.TooLong => Exits 1
  | Frontend.Kept extra _ =>
      let paths :=
        if uncommitted inv && match paths inv with [] => true | _ => false end
        then [project_root] else paths inv in
      match paths with
      | [] => Exits 1
      | _ =>
          match collect_files fs paths with
          | inl e => Crashes e
          | inr files_to_review =>
              if uncommitted inv
              then
                match filter_uncommitted fs project_root paths files_to_review git with
                | inl code => Exits code
                | inr files_to_review =>
                    match files_to_review with
                    | [] => Exits 1
                    | _ => Starts files_to_review (head_by_default (base_ref inv)) extra
                    end
                end
              else
                match files_to_review with
                | [] => Exits 1
                | _ => Starts files_to_review (base_ref inv) extra
                end
          end
      end
  end.

End Command.
(** ** The claims in the words of the specification *)

Module Claimed.

(** "if N <= 5, K = N; otherwise K = max(3, min(configured_max, N / 2))". *)
Definition concurrency_limit (configured_max : Z) (n_files : nat) : Z :=
  let n := Z.of_nat n_files in
  if n <=? 5 then n else Z.max 3 (Z.min configured_max (n / 2)).

End Claimed.

(** ** Auxiliary definitions: the dispatcher's slot invariant *)

Module Slots.

Import Dispatcher.

(** Replacing the phase at [i] moves the count by the difference between
    the old and the new phase. *)
Definition weight (p : Phase) : nat :=
  match p with Running => 1 | _ => 0 end.

(** The invariant: free slots plus held slots make up the limit. *)
Definition slots_ok (K : Z) (d : State) : Prop :=
  0 <= sem_value d /\ sem_value d + Z.of_nat (in_flight (phases d)) = K.

(** What a phase says about the job it belongs to: a finished task
    holds what its job ended with. *)
Definition phase_ok (outcome : nat -> Review.JobOutcome) (i : nat) (p : Phase) : Prop :=
  match p with
  | Done (Value v) => outcome i = Review.JobReturns v
  | Done (Exc e) => outcome i = Review.JobRaises e
  | Done CancelledResult => outcome i = Review.JobCancelled
  | _ => True
  end.

(** Every phase agrees with the job it belongs to. *)
Definition phases_ok (outcome : nat -> Review.JobOutcome) (n : nat) (d : State) : Prop :=
  Forall2 (phase_ok outcome) (seq 0 n) (phases d).

(** The pair a job contributes to the results, if any. *)
Definition success (outcome : nat -> Review.JobOutcome) (i : nat)
    : option (string * ReviewResult) :=
  match outcome i with Review.JobReturns v => v | _ => None end.

(** What a job leaves in [all_results], if anything: its pair when it
    returned one, the unfiltered [CancelledError] when it ended
    cancelled. *)
Definition entry (outcome : nat -> Review.JobOutcome) (i : nat) : option ResultEntry :=
  match outcome i with
  | Review.JobReturns (Some result) => Some (Reviewed result)
  | Review.JobCancelled => Some Unfiltered
  | _ => None
  end.

(** The job does not end cancelled. *)
Definition not_cancelled (o : Review.JobOutcome) : bool :=
  match o with Review.JobCancelled => false | _ => true end.

(** The job ends without stopping the event loop. *)
Definition ends_quietly (o : Review.JobOutcome) : bool :=
  match o with
  | Review.JobExits _ => false
  | _ => true
  end.

(** What [gather] stores for a job that ends quietly. *)
Definition item_of (o : Review.JobOutcome) : GatherItem :=
  match o with
  | Review.JobRaises e => Exc e
  | Review.JobReturns v => Value v
  | Review.JobCancelled => CancelledResult
  | Review.JobExits _ => Value None
  end.

(** Scheduling events a task still has before it: two while it waits
    for a slot, one while it holds one. *)
Definition cost (p : Phase) : nat :=
  match p with Pending => 2 | Running => 1 | _ => 0 end.

Fixpoint remaining (ps : list Phase) : nat :=
  match ps with
  | [] => 0
  | p :: ps' => cost p + remaining ps'
  end.

(** The one failure that stops the whole batch: a [RuntimeError]
    recognised as a configuration error (lines 330-344). *)
Definition is_fatal (e : Exception) : bool :=
  match exc_class e with
  | RuntimeErrorK => is_configuration_error e
  | _ => false
  end.

End Slots.

(** ** Auxiliary definitions: the controller in closed form *)

Module Flat.

Import Executor.

(** Whether the failure of attempt [attempt] is followed by another
    attempt (line 220). *)
Definition retries (max_retries attempt : nat) (e : Exception) : bool :=
  (is_rate_limit e && (Z.of_nat attempt <? Z.of_nat max_retries - 1))%bool.

Definition attempt_control (max_retries attempt : nat) (end_ : AttemptEnd) : Control :=
  match end_ with
  | Output r => CReturn r
  | Cancelled => CCancelled
  | Raises e => if retries max_retries attempt e then CContinue else CRaise e
  end.

(** The task variable still holds the task when the clean-up runs. *)
Definition task_held (enabled : bool) (att : Attempt) : bool :=
  (enabled && negb (partial_result att))%bool.

Definition first_cleanup (enabled : bool) (attempt : nat) (att : Attempt) : list Act :=
  ASpinnerStop ::
  (if task_held enabled att then [ATaskCancel attempt; ATaskJoin attempt] else []).

Definition partial_acts (enabled : bool) (attempt : nat) (att : Attempt) : list Act :=
  if partial_result att
  then ((if enabled then [ATaskCancel attempt] else []) ++ [ASpinnerStop] ++
        (if enabled then [ADirectStatus "Receiving review results..."] else []))%list
  else [].

Definition ending_acts (max_retries : nat) (enabled : bool) (key : string)
    (attempt : nat) (att : Attempt) : list Act :=
  match ending att with
  | Output r =>
      (map AAudit (history_outputs att) ++ [AAudit (AgentResponse r); AUnregister key] ++
       first_cleanup enabled attempt att ++ [AExit attempt])%list
  | Cancelled => (first_cleanup enabled attempt att ++ [AExit attempt])%list
  | Raises e =>
      (first_cleanup enabled attempt att ++
       (if retries max_retries attempt e
        then [ASleep (base_delay * 2 ^ Z.of_nat attempt)]
        else [AAudit (ErrorEntry (exc_msg e) (exc_type_name e)); AUnregister key]) ++
       [ASpinnerStop; AExit attempt])%list
  end.

(** The log of one attempt, [out] being what the router emitted. *)
Definition attempt_log (max_retries : nat) (enabled : bool) (key : string)
    (attempt : nat) (att : Attempt) (out : list Act) : list Act :=
  ((if enabled then [ATaskCreate attempt] else []) ++ [AInvoke attempt] ++ out ++
   partial_acts enabled attempt att ++ ending_acts max_retries enabled key attempt att)%list.

Definition attempt_registry (max_retries : nat) (key : string) (attempt : nat)
    (att : Attempt) (reg : gmap string (option string)) : gmap string (option string) :=
  match attempt_control max_retries attempt (ending att) with
  | CReturn _ | CRaise _ => delete key reg
  | _ => reg
  end.

Definition result_of (c : Control) : RunResult :=
  match c with
  | CReturn r => Returned r
  | CRaise e => Reraised e
  | CCancelled => Cancellation
  | CContinue => FellThrough
  end.

(** The loop without the plumbing: the result, the registry, the router
    state and the log it leaves. *)
Fixpoint loop_flat (max_retries : nat) (enabled : bool) (key : string)
    (script : nat -> Attempt) (todo : list nat)
    (reg : gmap string (option string)) (st : Streaming.State)
    : RunResult * gmap string (option string) * Streaming.State * list Act :=
  match todo with
  | [] => (FellThrough, reg, st, [])
  | attempt :: rest =>
      let att := script attempt in
      let ro := Streaming.event_stream_handler true st (events att) in
      let l := attempt_log max_retries enabled key attempt att (snd ro) in
      let reg' := attempt_registry max_retries key attempt att reg in
      match attempt_control max_retries attempt (ending att) with
      | CContinue =>
          match loop_flat max_retries enabled key script rest reg' (fst ro) with
          | (res, reg2, st2, l2) => (res, reg2, st2, (l ++ l2)%list)
          end
      | c => (result_of c, reg', fst ro, l)
      end
  end.

(** The attempts a run goes through. *)
Fixpoint executed (max_retries : nat) (script : nat -> Attempt) (todo : list nat)
    : list nat :=
  match todo with
  | [] => []
  | attempt :: rest =>
      attempt ::
      match attempt_control max_retries attempt (ending (script attempt)) with
      | CContinue => executed max_retries script rest
      | _ => []
      end
  end.

(** Life of the spinner task of one attempt, with the sleep that
    precedes a retry and the exit of the attempt: the task is cancelled
    in every case, and awaited when no partial result arrived. *)
Definition attempt_lifecycle (max_retries : nat) (enabled : bool)
    (script : nat -> Attempt) (attempt : nat) : list Act :=
  let att := script attempt in
  ((if enabled
    then (if partial_result att
          then [ATaskCreate attempt; ATaskCancel attempt]
          else [ATaskCreate attempt; ATaskCancel attempt; ATaskJoin attempt])
    else []) ++
   match attempt_control max_retries attempt (ending att) with
   | CContinue => [ASleep (base_delay * 2 ^ Z.of_nat attempt)]
   | _ => []
   end ++ [AExit attempt])%list.

(** The actions that precede the loop (lines 42-62). *)
Definition prologue (key : string) (debug_enabled : bool) : list Act :=
  ((if debug_enabled then [AAudit ContextSnapshot] else []) ++
   [AAudit UserPrompt; ARegister key])%list.

End Flat.

(** ** Auxiliary definitions: reading the action log *)

Module Log.

(** The attempts for which the agent was invoked, in order. *)
Definition invocations (l : list Act) : list nat :=
  flat_map (fun a => match a with AInvoke i => [i] | _ => [] end) l.

(** The delays slept, in order. *)
Definition sleeps (l : list Act) : list Z :=
  flat_map (fun a => match a with ASleep d => [d] | _ => [] end) l.

(** Invocations and sleeps together, in the order they happen. *)
Definition timeline (l : list Act) : list Act :=
  flat_map (fun a => match a with AInvoke _ | ASleep _ => [a] | _ => [] end) l.

(** Task creations, cancellations and joins, sleeps and attempt exits. *)
Definition lifecycle (l : list Act) : list Act :=
  flat_map (fun a => match a with
                     | ATaskCreate _ | ATaskCancel _ | ATaskJoin _
                     | ASleep _ | AExit _ => [a]
                     | _ => []
                     end) l.

(** The keys registered, and the keys unregistered, in order. *)
Definition registrations (l : list Act) : list string :=
  flat_map (fun a => match a with ARegister k => [k] | _ => [] end) l.

Definition unregistrations (l : list Act) : list string :=
  flat_map (fun a => match a with AUnregister k => [k] | _ => [] end) l.

(** What the router may emit: statuses and tool audit entries. *)
Definition router_act (a : Act) : Prop :=
  match a with
  | ARouterStatus _ => True
  | AAudit (ToolCall _ _ _) => True
  | AAudit (ToolOutput _ _ _ _) => True
  | _ => False
  end.

(** [l] has no two equal neighbours, starts after [s0] and ends in
    [s1] ([s0] itself when [l] is empty). *)
Definition chain (s0 : string) (l : list string) (s1 : string) : Prop :=
  no_adjacent_dup (s0 :: l) /\ last (s0 :: l) = Some s1.

End Log.

(** ** Concrete collaborators used to exercise the theorems *)

Module Samples.

Import Executor.

Definition empty_world : World := mkWorld ∅ ∅ Streaming.initial.

Definition review_ok : ReviewResult := mkResult "looks fine" SevLow [].

Definition error_429 : Exception :=
  mkExc OtherExceptionK "RateLimitError" "RateLimitError: 429 too many requests".

Definition error_permission : Exception :=
  mkExc OtherExceptionK "PermissionError" "PermissionError: cannot read file".

(** An agent that answers at once. *)
Definition succeeds : nat -> Attempt :=
  fun _ => mkAttempt [] false [] (Output review_ok).

(** An agent that streams a partial result, then answers. *)
Definition streams_then_succeeds : nat -> Attempt :=
  fun _ => mkAttempt [(Streaming.PartStartEvent Streaming.PlainPart, true)] true []
             (Output review_ok).

(** An agent that is rate limited on every attempt. *)
Definition always_429 : nat -> Attempt :=
  fun _ => mkAttempt [] false [] (Raises error_429).

(** Scenario B: rate limited twice, then a success. *)
Definition twice_429 : nat -> Attempt :=
  fun n => match n with
           | 0%nat | 1%nat => mkAttempt [] false [] (Raises error_429)
           | _ => mkAttempt [] false [] (Output review_ok)
           end.

(** Scenario C: a failure that is not a rate limit. *)
Definition permission_denied : nat -> Attempt :=
  fun _ => mkAttempt [] false [] (Raises error_permission).

(** The job is cancelled while the agent is running. *)
Definition cancelled : nat -> Attempt :=
  fun _ => mkAttempt [] false [] Cancelled.

End Samples.

(** ** Concrete jobs used to exercise the theorems *)

Module SampleJobs.

Import Review.

Definition cache_on : Settings := mkSettings true 4.

(** A job whose review is already in the cache. *)
Definition cached_job : JobEnv :=
  mkEnv (Packed "<xml/>") (Some Samples.review_ok) "r1" false true Samples.succeeds.

(** A job that misses the cache and whose agent answers at once. *)
Definition fresh_job : JobEnv :=
  mkEnv (Packed "<xml/>") None "r2" false true Samples.succeeds.

(** Scenario C: the agent fails with an error that is not retried. *)
Definition failing_job : JobEnv :=
  mkEnv (Packed "<xml/>") None "r3" false true Samples.permission_denied.

Definition error_no_keys : Exception :=
  mkExc RuntimeErrorK "RuntimeError" "No API keys configured. Set OPENAI_API_KEY.".

(** A job that finds no provider credentials. *)
Definition unconfigured_job : JobEnv :=
  mkEnv (Packed "<xml/>") None "r4" false true
    (fun _ => Executor.mkAttempt [] false [] (Executor.Raises error_no_keys)).


(** A credentials error worded differently. *)
Definition error_api_key : Exception :=
  mkExc RuntimeErrorK "RuntimeError" "API key is missing for the configured provider".

(** A job whose provider reports the missing key in those words. *)
Definition api_key_job : JobEnv :=
  mkEnv (Packed "<xml/>") None "r6" false true
    (fun _ => Executor.mkAttempt [] false [] (Executor.Raises error_api_key)).

End SampleJobs.

(** ** A concrete batch *)

Module SampleBatch.

Import Review Dispatcher.

Definition files : list string := ["a.py"; "b.py"; "c.py"].

(** The first job computes a fresh review, the second fails, the third
    hits the cache. *)
Definition envs (i : nat) : JobEnv :=
  match i with
  | 0%nat => SampleJobs.fresh_job
  | 1%nat => SampleJobs.failing_job
  | _ => SampleJobs.cached_job
  end.

(** The same batch with a second job that finds no credentials. *)
Definition envs_unconfigured (i : nat) : JobEnv :=
  match i with
  | 0%nat => SampleJobs.fresh_job
  | 1%nat => SampleJobs.unconfigured_job
  | _ => SampleJobs.cached_job
  end.


(** The same batch with a second job whose provider misses its API
    key. *)
Definition envs_api_key (i : nat) : JobEnv :=
  match i with
  | 0%nat => SampleJobs.fresh_job
  | 1%nat => SampleJobs.api_key_job
  | _ => SampleJobs.cached_job
  end.

(** All three jobs get a slot; they end in reverse order. *)
Definition reversed : list Move :=
  [Acquire 0; Acquire 1; Acquire 2; Release 2; Release 1; Release 0]%nat.

(** All three jobs hold a slot. *)
Definition all_running : State := mkState 0 [Running; Running; Running] None.

End SampleBatch.

(** ** Auxiliary definitions: further readings of the router and the log *)

Module Reading.

(** The event is a tool call announced under the id [id]. *)
Definition is_call_of (id : string) (ev : Streaming.Event) : bool :=
  match ev with
  | Streaming.FunctionToolCallEvent _ (Some id') => String.eqb id' id
  | _ => false
  end.

(** No event of the stream announces a tool call under the id [id]. *)
Definition no_call_of (id : string) (evs : list (Streaming.Event * bool)) : bool :=
  forallb (fun p => negb (is_call_of id (fst p))) evs.

(** The spinner loop is running when each event of the stream arrives. *)
Definition spinner_always_active (evs : list (Streaming.Event * bool)) : bool :=
  forallb snd evs.

(** Entries about tool activity, as opposed to those the job driver
    writes itself. *)
Definition is_tool_entry (e : AuditEntry) : bool :=
  match e with
  | ToolCall _ _ _ | ToolOutput _ _ _ _ => true
  | _ => false
  end.

(** The entries the job driver writes: context snapshot, prompt, final
    response, final error. *)
Definition driver_entries (l : list Act) : list AuditEntry :=
  flat_map (fun a => match a with
                     | AAudit e => if is_tool_entry e then [] else [e]
                     | _ => []
                     end) l.

(** The entry that closes the audit trail of a run. *)
Definition closing_entry (res : Executor.RunResult) : list AuditEntry :=
  match res with
  | Executor.Returned r => [AgentResponse r]
  | Executor.Reraised e => [ErrorEntry (exc_msg e) (exc_type_name e)]
  | _ => []
  end.

(** The run history of every attempt holds tool outputs only (what
    lines 101-174 of [run_agent_review] write). *)
Definition history_is_tool_output (script : nat -> Executor.Attempt) : Prop :=
  forall attempt,
    forallb is_tool_entry (Executor.history_outputs (script attempt)) = true.

End Reading.

(** ** Auxiliary definitions: reading the trace of a job *)

Module JobReading.

Import Review.

(** The same collaborators with an empty cache. *)
Definition without_cache (env : JobEnv) : JobEnv :=
  mkEnv (context env) None (review_id env) (debug_enabled env) (spinner_enabled env)
    (script env).

(** The cache accesses of a job. *)
Definition cache_actions (l : list JobAct) : list JobAct :=
  flat_map (fun a => match a with
                     | JCacheGet _ | JCachePut _ _ => [a]
                     | _ => []
                     end) l.

(** The calls of [finish_review]: success flag and error type. *)
Definition finishes (l : list JobAct) : list (bool * option string) :=
  flat_map (fun a => match a with JFinish ok ty => [(ok, ty)] | _ => [] end) l.

(** The error type reported to the metrics by the [except] clauses. *)
Definition reported_type (e : Exception) : string :=
  match exc_class e with
  | FileNotFoundErrorK => "FileNotFoundError"
  | RuntimeErrorK =>
      if is_configuration_error e then "ConfigurationError" else "RuntimeError"
  | OtherExceptionK => exc_type_name e
  end.

End JobReading.

(** ** More concrete batches *)

Module SampleBatch6.

(** Six files: the first size at which the configured maximum counts. *)
Definition files : list string := ["a.py"; "b.py"; "c.py"; "d.py"; "e.py"; "f.py"].

Definition envs (i : nat) : Review.JobEnv := SampleJobs.fresh_job.

(** A configuration without any slot. *)
Definition no_slot : Review.Settings := Review.mkSettings true 0.

End SampleBatch6.

(** ** Auxiliary definitions: command-line input *)

Module Input.

Import Frontend.

(** Every character of the string passes the sanitizer. *)
Definition clean (s : string) : bool := forallb keeps (Text.chars s).

(** The string consists of white space only. *)
Definition blank (s : string) : bool := forallb is_space (Text.chars s).

(** The string has no comma. *)
Definition comma_free (s : string) : bool :=
  forallb (fun c => negb (Ascii.eqb c ",")) (Text.chars s).

(** [field] is the phase name [p] with white space around it. *)
Definition padded (p field : string) : Prop :=
  exists front back, blank front = true /\ blank back = true /\ field = front ++ p ++ back.

(** What the parser makes of fields that are already split. *)
Definition selected (fields : list string) : list string :=
  filter (fun p => is_valid_phase p = true) (map strip fields).

End Input.

(** ** Auxiliary definitions: reading the terminal *)

Module Terminal.

(** The frames drawn, in order. *)
Definition frames (ws : list Spinner.Write) : list nat :=
  flat_map (fun w => match w with Spinner.StatusLine _ f => [f] | _ => [] end) ws.

(** The statuses shown, in order. *)
Definition shown (ws : list Spinner.Write) : list string :=
  flat_map (fun w => match w with Spinner.StatusLine s _ => [s] | _ => [] end) ws.

(** The messages that replace the current status: the non-empty ones. *)
Definition messages (cs : list Spinner.Call) : list string :=
  flat_map (fun c => match c with
                     | Spinner.ShowStatus (Some m) => if Text.truthy m then [m] else []
                     | _ => []
                     end) cs.

(** What calls do to the frame counter and the switch: the counter
    advances by the number of frames drawn, the frames drawn are the
    consecutive ones, and the switch stays as it is. *)
Definition call_ok (s s' : Spinner.State) (ws : list Spinner.Write) : Prop :=
  Spinner.spinner_idx s' = (Spinner.spinner_idx s + length (frames ws))%nat /\
  frames ws = map (fun j => (j mod Spinner.SPINNER_FRAMES)%nat)
                (seq (Spinner.spinner_idx s) (length (frames ws))) /\
  Spinner.enabled s' = Spinner.enabled s.

End Terminal.


(** ** A small working tree, for running the path functions *)

Module SampleTree.

Import Paths.

(** The last field of [s] cut at [sep]. *)
Definition last_field (sep : ascii) (s : string) : string :=
  default EmptyString (last (Frontend.split sep s)).

Definition sample_name (p : string) : string := last_field "/" p.

Definition sample_suffix (p : string) : string :=
  match Frontend.split "." (sample_name p) with
  | _ :: _ :: _ => String "." (last_field "." (sample_name p))
  | _ => EmptyString
  end.

Definition tree : list string :=
  ["/repo/src"; "/repo/src/app.py"; "/repo/src/Main.PY"; "/repo/README.md";
   "/repo/uv.lock"; "/repo/package-lock.json"].

Definition sample_kind (p : string) : Kind :=
  if String.eqb p "/repo" then Directory tree
  else if String.eqb p "/repo/src" then Directory ["/repo/src/app.py"; "/repo/src/Main.PY"]
  else if existsb (String.eqb p) tree then RegularFile
  else Missing.

(** Relative paths are resolved against [/repo]. *)
Definition sample_resolve (p : string) : string :=
  if Text.startswith "/" p then p else "/repo/" ++ p.

Definition fs : Files :=
  mkFiles "/repo"
          (Frontend.split "/")
          (fun a b => a ++ "/" ++ b)
          sample_resolve
          sample_kind
          (fun p root => String.eqb p root || Text.startswith (root ++ "/") p)
          (Text.startswith "/")
          sample_name
          sample_suffix.

(** What git reports as uncommitted, relative to the project root. *)
Definition changed : list string := ["uv.lock"; "src/app.py"; "src/gone.py"].

Definition all_uncommitted : Command.Invocation :=
  Command.mkInvocation [] None None true.

End SampleTree.
(** ** Sanity checks of the embedding *)

Example lower_ex : Text.lower "RateLimitError: 429 Too Many" = "ratelimiterror: 429 too many".
Proof. reflexivity. Qed.

Example is_rate_limit_ex :
  is_rate_limit (mkExc OtherExceptionK "RateLimitError" "Rate Limit exceeded") = true.
Proof. reflexivity. Qed.

Example router_ex :
  router_statuses (snd (Streaming.event_stream_handler true Streaming.initial
    [(Streaming.PartStartEvent Streaming.PlainPart, true);
     (Streaming.PartStartEvent Streaming.PlainPart, true);
     (Streaming.FunctionToolCallEvent "read_file" (Some "c1"), true);
     (Streaming.FunctionToolCallEvent "read_file" (Some "c2"), true);
     (Streaming.PartDeltaEvent true, false);
     (Streaming.FinalResultEvent, false)]))
  = ["Generating review..."; "Executing: read_file..."; "Writing review...";
     "Finalizing review..."].
Proof. reflexivity. Qed.

(** ** Dispatcher: the slot invariant *)

Section DispatcherInvariant.

Import Review Dispatcher Slots.

Variable outcome : nat -> JobOutcome.

Lemma in_flight_replicate_pending (n : nat) :
  in_flight (replicate n Pending) = 0%nat.
Proof. induction n as [|n IH]; simpl; auto. Qed.

Lemma in_flight_insert (ps : list Phase) (i : nat) (p q : Phase) :
  ps !! i = Some p ->
  (in_flight (<[i := q]> ps) + weight p = in_flight ps + weight q)%nat.
Proof.
  revert i. induction ps as [|x ps IH]; intros [|i] H; simpl in *; try discriminate.
  - injection H as ->. destruct p, q; simpl; lia.
  - specialize (IH i H). destruct x; simpl; lia.
Qed.

Lemma step_slots_ok (K : Z) (d d' : State) (m : Move) :
  slots_ok K d -> step outcome d m = Some d' -> slots_ok K d'.
Proof.
  intros [Hpos Hsum] Hstep. unfold step in Hstep.
  destruct (halted d) as [h|].
  - destruct m as [i|i]; [discriminate|].
    destruct (phases d !! i) as [[| |item|]|] eqn:Hi; try discriminate.
    injection Hstep as <-. unfold slots_ok; simpl.
    pose proof (in_flight_insert _ _ _ Ended Hi) as Hc. simpl in Hc. lia.
  - destruct m as [i|i]; destruct (phases d !! i) as [[| |item|]|] eqn:Hi;
      try discriminate.
    + destruct (0 <? sem_value d) eqn:Hlt; [|discriminate].
      injection Hstep as <-. apply Z.ltb_lt in Hlt.
      pose proof (in_flight_insert _ _ _ Running Hi) as Hc.
      unfold slots_ok; simpl in *. lia.
    + destruct (outcome i) as [v|e|code|]; injection Hstep as <-;
        unfold slots_ok; simpl.
      * pose proof (in_flight_insert _ _ _ (Done (Value v)) Hi) as Hc. simpl in Hc. lia.
      * pose proof (in_flight_insert _ _ _ (Done (Exc e)) Hi) as Hc. simpl in Hc. lia.
      * pose proof (in_flight_insert _ _ _ Ended Hi) as Hc. simpl in Hc. lia.
      * pose proof (in_flight_insert _ _ _ (Done CancelledResult) Hi) as Hc.
        simpl in Hc. lia.
Qed.

Lemma run_slots_ok (K : Z) (schedule : list Move) (d d' : State) :
  slots_ok K d -> run outcome d schedule = Some d' -> slots_ok K d'.
Proof.
  revert d. induction schedule as [|m rest IH]; intros d Hd Hrun; simpl in Hrun.
  - injection Hrun as <-. exact Hd.
  - destruct (step outcome d m) as [d1|] eqn:Hs; [|discriminate].
    eapply IH; [|exact Hrun]. eapply step_slots_ok; eauto.
Qed.

Lemma start_slots_ok (K : Z) (n : nat) (d0 : State) :
  start K n = Some d0 -> slots_ok K d0.
Proof.
  unfold start. destruct (K <? 0) eqn:HK; [discriminate|].
  intros [= <-]. apply Z.ltb_ge in HK.
  unfold slots_ok; simpl. rewrite in_flight_replicate_pending. lia.
Qed.

End DispatcherInvariant.

(** ** C1: the concurrency limit *)

(** C1, as stated, fails: with a configured maximum of 2 and 10 files
    the code computes the limit 2, the claimed formula gives 3. *)
Lemma concurrency_limit_differs_from_claimed :
  Dispatcher.concurrency_limit 2 10 = 2 /\
  Claimed.concurrency_limit 2 10 = 3 /\
  Dispatcher.concurrency_limit 2 10 <> Claimed.concurrency_limit 2 10.
Proof. repeat split; vm_compute; congruence. Qed.

(** The two formulas agree as soon as the configured maximum is at
    least 3. *)
Lemma concurrency_limit_agrees (configured_max : Z) (n : nat) :
  3 <= configured_max ->
  Dispatcher.concurrency_limit configured_max n = Claimed.concurrency_limit configured_max n.
Proof.
  intros H. unfold Dispatcher.concurrency_limit, Claimed.concurrency_limit.
  destruct (Z.of_nat n <=? 5); lia.
Qed.

(** C1 (amended): for a batch of [n] jobs the limit [K] is [n] when
    [n <= 5] and [min(configured_max, max(3, n / 2))] otherwise (which is
    the claimed [max(3, min(configured_max, n / 2))] whenever the
    configured maximum is at least 3); and in every state the dispatcher
    can reach, under any interleaving of slot acquisitions and job
    endings, at most [K] jobs are past the slot-acquisition point. *)
Theorem concurrency_limit_bounds_in_flight
    (configured_max : Z) (n : nat) (outcome : nat -> Review.JobOutcome)
    (schedule : list Dispatcher.Move) (d0 d : Dispatcher.State) :
  let K := Dispatcher.concurrency_limit configured_max n in
  Dispatcher.start K n = Some d0 ->
  Dispatcher.run outcome d0 schedule = Some d ->
  K = (if Z.of_nat n <=? 5 then Z.of_nat n
       else Z.min configured_max (Z.max 3 (Z.of_nat n / 2))) /\
  (3 <= configured_max -> K = Claimed.concurrency_limit configured_max n) /\
  Z.of_nat (Dispatcher.in_flight (Dispatcher.phases d)) <= K.
Proof.
  intros K Hstart Hrun. split; [reflexivity|]. split.
  - apply concurrency_limit_agrees.
  - pose proof (start_slots_ok K n d0 Hstart) as H0.
    destruct (run_slots_ok outcome K schedule d0 d H0 Hrun) as [Hpos Hsum]. lia.
Qed.

(** The theorem at work: 8 files under a configured maximum of 4, four
    jobs holding a slot. *)
Lemma concurrency_limit_bounds_in_flight_witness :
  Z.of_nat (Dispatcher.in_flight
    [Dispatcher.Running; Dispatcher.Running; Dispatcher.Done (Dispatcher.Value None);
     Dispatcher.Running; Dispatcher.Running; Dispatcher.Pending; Dispatcher.Pending;
     Dispatcher.Pending]) <= 4.
Proof.
  refine (proj2 (proj2 (concurrency_limit_bounds_in_flight 4 8
    (fun _ => Review.JobReturns None)
    [Dispatcher.Acquire 0%nat; Dispatcher.Acquire 1%nat; Dispatcher.Acquire 2%nat;
     Dispatcher.Release 2%nat; Dispatcher.Acquire 3%nat; Dispatcher.Acquire 4%nat]
    (Dispatcher.mkState 4 (replicate 8 Dispatcher.Pending) None)
    (Dispatcher.mkState 0
      [Dispatcher.Running; Dispatcher.Running; Dispatcher.Done (Dispatcher.Value None);
       Dispatcher.Running; Dispatcher.Running; Dispatcher.Pending; Dispatcher.Pending;
       Dispatcher.Pending] None) _ _))); reflexivity.
Defined.

(** ** The controller, attempt by attempt *)

Section AttemptFlat.

Import Executor Flat.

Lemma emit_history (h : list AuditEntry) (w : World) :
  fold_right (fun e k => emit (AAudit e) ;; k) (ret tt) h w = (tt, w, map AAudit h).
Proof.
  induction h as [|e h IH]; simpl; [reflexivity|].
  unfold bind at 1. simpl. rewrite IH. reflexivity.
Qed.

Ltac run_monad :=
  repeat (unfold bind, ret, emit, when, cleanup_spinner_task, on_partial_result,
            create_task, cancel, join, done, unregister, route; simpl;
          rewrite ?lookup_insert_eq, ?emit_history; simpl).

(** [attempt_body] in closed form. *)
Lemma attempt_body_flat (max_retries : nat) (enabled : bool) (key : string)
    (attempt : nat) (att : Attempt) (w : World) :
  exists tk,
    attempt_body max_retries enabled key attempt att w =
    (attempt_control max_retries attempt (ending att),
     mkWorld (attempt_registry max_retries key attempt att (registry w)) tk
       (fst (Streaming.event_stream_handler true (router w) (events att))),
     attempt_log max_retries enabled key attempt att
       (snd (Streaming.event_stream_handler true (router w) (events att)))).
Proof.
  unfold attempt_body, attempt_log, attempt_registry, attempt_control, ending_acts,
    partial_acts, first_cleanup, task_held, retries.
  destruct att as [evs partial hist end_]; simpl.
  destruct (Streaming.event_stream_handler true (router w) evs) as [st out] eqn:Hr.
  destruct enabled, partial, end_ as [r|e|]; simpl;
    try destruct (is_rate_limit e && (Z.of_nat attempt <? Z.of_nat max_retries - 1))%bool;
    run_monad; rewrite Hr; run_monad; rewrite <- ?app_assoc; simpl;
    eexists; reflexivity.
Qed.

End AttemptFlat.

(** ** The controller, run by run *)

Section RunFlat.

Import Executor Flat.

Lemma retry_loop_flat (max_retries : nat) (enabled : bool) (key : string)
    (script : nat -> Attempt) (todo : list nat) (w : World) :
  exists tk,
    retry_loop max_retries enabled key script todo w =
    match loop_flat max_retries enabled key script todo (registry w) (router w) with
    | (res, reg, st, l) => (res, mkWorld reg tk st, l)
    end.
Proof.
  revert w. induction todo as [|a rest IH]; intros w.
  - exists (tasks w). destruct w; reflexivity.
  - simpl. unfold bind at 1.
    destruct (attempt_body_flat max_retries enabled key a (script a) w) as [tk ->].
    destruct (attempt_control max_retries a (ending (script a))) eqn:Hc; simpl;
      try (exists tk; rewrite app_nil_r; reflexivity).
    match goal with |- context [retry_loop _ _ _ _ _ ?w1] =>
      destruct (IH w1) as [tk' ->] end.
    simpl.
    destruct (loop_flat max_retries enabled key script rest _ _) as [[[res reg2] st2] l2].
    exists tk'. reflexivity.
Qed.

Lemma run_with_flat (max_retries : nat) (key : string) (review_id : option string)
    (debug_enabled enabled : bool) (script : nat -> Attempt) (w : World) :
  exists tk,
    run_with max_retries key review_id debug_enabled enabled script w =
    match loop_flat max_retries enabled key script (seq 0 max_retries)
            (<[key := review_id]> (registry w)) Streaming.initial with
    | (res, reg, st, l) => (res, mkWorld reg tk st, (prologue key debug_enabled ++ l)%list)
    end.
Proof.
  unfold run_with, prologue.
  destruct (retry_loop_flat max_retries enabled key script (seq 0 max_retries)
              (mkWorld (<[key := review_id]> (registry w)) (tasks w) Streaming.initial))
    as [tk H].
  simpl in H. exists tk.
  destruct (loop_flat _ _ _ _ _ _ _) as [[[res reg] st] l].
  destruct debug_enabled; unfold bind, when, emit, register, new_event_handler, ret;
    simpl; rewrite H; reflexivity.
Qed.

End RunFlat.

(** ** The event router: deduplicated statuses *)

Section RouterProofs.

Import Streaming Log.

Lemma router_statuses_app (l1 l2 : list Act) :
  router_statuses (l1 ++ l2) = (router_statuses l1 ++ router_statuses l2)%list.
Proof.
  induction l1 as [|a l1 IH]; simpl; [reflexivity|].
  destruct a; simpl; rewrite ?IH; reflexivity.
Qed.

Lemma chain_refl (s : string) : chain s [] s.
Proof. split; simpl; auto. Qed.

Lemma chain_step (s0 s : string) : s <> s0 -> chain s0 [s] s.
Proof. intros H. split; simpl; auto. Qed.

Lemma chain_app (s0 s1 s2 : string) (l1 l2 : list string) :
  chain s0 l1 s1 -> chain s1 l2 s2 -> chain s0 (l1 ++ l2) s2.
Proof.
  revert s0. induction l1 as [|x l1 IH]; intros s0 [Hn Hl] H2.
  - simpl in Hl. injection Hl as ->. exact H2.
  - destruct Hn as [Hx Hn].
    assert (Hc : chain x l1 s1).
    { split; [exact Hn|]. rewrite last_cons_cons in Hl. exact Hl. }
    destruct (IH x Hc H2) as [Hn' Hl'].
    split.
    + split; [exact Hx|exact Hn'].
    + change ((s0 :: (x :: l1) ++ l2)%list) with (s0 :: x :: (l1 ++ l2))%list.
      rewrite last_cons_cons. exact Hl'.
Qed.

Lemma update_status_chain (s : string) (st : State) :
  chain (last_status st) (router_statuses (snd (update_status s st)))
        (last_status (fst (update_status s st))).
Proof.
  unfold update_status. destruct (String.eqb s (last_status st)) eqn:E; simpl.
  - apply chain_refl.
  - apply chain_step. intros ->. rewrite String.eqb_refl in E. discriminate.
Qed.

Lemma handle_event_chain (dw active : bool) (st : State) (ev : Event) :
  chain (last_status st) (router_statuses (snd (handle_event dw active st ev)))
        (last_status (fst (handle_event dw active st ev))).
Proof.
  destruct ev as [[tn cid args|]|txt|tn cid|cid c e| |]; simpl.
  - pose proof (update_status_chain ("Calling tool: " ++ tn ++ "...") st) as H.
    destruct (update_status _ st) as [st' out]; simpl in *.
    destruct dw; simpl; exact H.
  - apply update_status_chain.
  - destruct (txt && negb active)%bool; [apply update_status_chain|apply chain_refl].
  - match goal with |- context [update_status ?s ?x] =>
      exact (update_status_chain s x) end.
  - destruct dw; apply chain_refl.
  - apply update_status_chain.
  - apply chain_refl.
Qed.

Lemma event_stream_handler_chain (dw : bool) (evs : list (Event * bool)) (st : State) :
  chain (last_status st) (router_statuses (snd (event_stream_handler dw st evs)))
        (last_status (fst (event_stream_handler dw st evs))).
Proof.
  revert st. induction evs as [|[ev active] evs IH]; intros st; simpl.
  - apply chain_refl.
  - pose proof (handle_event_chain dw active st ev) as H1.
    destruct (handle_event dw active st ev) as [st1 out1]; simpl in H1.
    specialize (IH st1).
    destruct (event_stream_handler dw st1 evs) as [st2 out2]; simpl in *.
    rewrite router_statuses_app. eapply chain_app; eauto.
Qed.

End RouterProofs.

Section RouterInJob.

Import Executor Flat Log.

Lemma router_statuses_audit (h : list AuditEntry) :
  router_statuses (map AAudit h) = [].
Proof. induction h; simpl; auto. Qed.

Lemma router_statuses_attempt_log (max_retries : nat) (enabled : bool) (key : string)
    (attempt : nat) (att : Attempt) (out : list Act) :
  router_statuses (attempt_log max_retries enabled key attempt att out)
  = router_statuses out.
Proof.
  unfold attempt_log, partial_acts, ending_acts, first_cleanup, task_held.
  destruct att as [evs partial hist end_]; simpl.
  destruct enabled, partial, end_ as [r|e|]; simpl;
    try destruct (retries max_retries attempt e);
    repeat (rewrite router_statuses_app; simpl);
    rewrite ?router_statuses_audit; simpl;
    rewrite ?app_nil_r; reflexivity.
Qed.

Lemma loop_flat_chain (max_retries : nat) (enabled : bool) (key : string)
    (script : nat -> Attempt) (todo : list nat)
    (reg : gmap string (option string)) (st : Streaming.State) :
  chain (Streaming.last_status st)
    (router_statuses (snd (loop_flat max_retries enabled key script todo reg st)))
    (Streaming.last_status (snd (fst (loop_flat max_retries enabled key script todo reg st)))).
Proof.
  revert reg st. induction todo as [|a rest IH]; intros reg st; simpl.
  - apply chain_refl.
  - pose proof (event_stream_handler_chain true (events (script a)) st) as H1.
    destruct (Streaming.event_stream_handler true st (events (script a))) as [st1 out1].
    simpl in *.
    destruct (attempt_control max_retries a (ending (script a))); simpl;
      rewrite ?router_statuses_attempt_log; try exact H1.
    specialize (IH (attempt_registry max_retries key a (script a) reg) st1).
    destruct (loop_flat max_retries enabled key script rest _ st1) as [[[res reg2] st2] l2].
    simpl in *. rewrite router_statuses_app, router_statuses_attempt_log.
    eapply chain_app; eauto.
Qed.

Lemma run_agent_review_statuses (key : string) (review_id : option string)
    (debug_enabled enabled : bool) (script : nat -> Attempt) (w : World) :
  no_adjacent_dup
    (router_statuses (snd (run_agent_review key review_id debug_enabled enabled script w))).
Proof.
  unfold run_agent_review.
  destruct (run_with_flat max_retries key review_id debug_enabled enabled script w)
    as [tk ->].
  pose proof (loop_flat_chain max_retries enabled key script (seq 0 max_retries)
                (<[key := review_id]> (registry w)) Streaming.initial) as [Hn _].
  destruct (loop_flat _ _ _ _ _ _ _) as [[[res reg] st] l]. simpl in *.
  rewrite router_statuses_app.
  replace (router_statuses (prologue key debug_enabled)) with (@nil string)
    by (destruct debug_enabled; reflexivity).
  simpl. apply Hn.
Qed.

End RouterInJob.

(** ** C9: statuses are deduplicated against [last_status] *)

(** C9: when the router handles an event it emits at most one status;
    it emits it only if it differs from [last_status], which then becomes
    the emitted value (and stays as it was when nothing is emitted).
    Hence, over any event stream and from any router state, no status is
    emitted twice in immediate succession, and this holds for everything
    the router emits during one job (one call of [run_agent_review],
    retries included). *)
Theorem router_status_deduplicated
    (dw active : bool) (st : Streaming.State) (ev : Streaming.Event)
    (evs : list (Streaming.Event * bool))
    (key : string) (review_id : option string) (debug_enabled enabled : bool)
    (script : nat -> Executor.Attempt) (w : Executor.World) :
  let st' := fst (Streaming.handle_event dw active st ev) in
  let emitted := router_statuses (snd (Streaming.handle_event dw active st ev)) in
  ((emitted = [] /\ Streaming.last_status st' = Streaming.last_status st) \/
   (exists s, emitted = [s] /\ s <> Streaming.last_status st /\
              Streaming.last_status st' = s)) /\
  no_adjacent_dup
    (Streaming.last_status st ::
     router_statuses (snd (Streaming.event_stream_handler dw st evs))) /\
  no_adjacent_dup
    (router_statuses
       (snd (Executor.run_agent_review key review_id debug_enabled enabled script w))).
Proof.
  intros st' emitted. split; [|split].
  - assert (Hu : forall s x,
        (router_statuses (snd (Streaming.update_status s x)) = [] /\
         Streaming.last_status (fst (Streaming.update_status s x)) = Streaming.last_status x) \/
        (exists s', router_statuses (snd (Streaming.update_status s x)) = [s'] /\
                    s' <> Streaming.last_status x /\
                    Streaming.last_status (fst (Streaming.update_status s x)) = s')).
    { intros s x. unfold Streaming.update_status.
      destruct (String.eqb s (Streaming.last_status x)) eqn:E; simpl.
      - left; auto.
      - right. exists s. repeat split; auto.
        intros ->. rewrite String.eqb_refl in E. discriminate. }
    subst st' emitted.
    destruct ev as [[tn cid args|]|txt|tn cid|cid c e| |]; simpl.
    + specialize (Hu ("Calling tool: " ++ tn ++ "...") st).
      destruct (Streaming.update_status _ st) as [st1 out]; simpl in *.
      destruct dw; simpl; exact Hu.
    + apply Hu.
    + destruct (txt && negb active)%bool; [apply Hu|left; auto].
    + match goal with |- context [Streaming.update_status ?s ?x] =>
        exact (Hu s x) end.
    + destruct dw; left; auto.
    + apply Hu.
    + left; auto.
  - apply (event_stream_handler_chain dw evs st).
  - apply run_agent_review_statuses.
Qed.

(** ** The controller: attempts and delays *)

Ltac split_attempt_log max_retries attempt :=
  unfold Flat.attempt_log, Flat.partial_acts, Flat.ending_acts, Flat.first_cleanup,
    Flat.task_held, Flat.attempt_control;
  match goal with att : Executor.Attempt |- _ =>
    destruct att as [evs partial hist end_]; simpl end;
  match goal with
  | enabled : bool, partial : bool, end_ : Executor.AttemptEnd |- _ =>
      destruct enabled, partial, end_ as [r|e|]; simpl;
      try destruct (Flat.retries max_retries attempt e)
  end.

Section RetryProofs.

Import Executor Flat Log.

Lemma handle_event_router_acts (dw active : bool) (st : Streaming.State)
    (ev : Streaming.Event) :
  Forall router_act (snd (Streaming.handle_event dw active st ev)).
Proof.
  assert (Hu : forall s x, Forall router_act (snd (Streaming.update_status s x))).
  { intros s x. unfold Streaming.update_status.
    destruct (String.eqb s (Streaming.last_status x)); simpl; repeat constructor. }
  destruct ev as [[tn cid args|]|txt|tn cid|cid c e| |]; simpl;
    try apply Hu; try (constructor; fail).
  - specialize (Hu ("Calling tool: " ++ tn ++ "...") st).
    destruct (Streaming.update_status _ st) as [st1 out]; simpl in *.
    destruct dw; simpl; [constructor; [exact I|exact Hu]|exact Hu].
  - destruct (txt && negb active)%bool; [apply Hu|constructor].
  - destruct dw; simpl; repeat constructor.
Qed.

Lemma event_stream_handler_router_acts (dw : bool) (evs : list (Streaming.Event * bool))
    (st : Streaming.State) :
  Forall router_act (snd (Streaming.event_stream_handler dw st evs)).
Proof.
  revert st. induction evs as [|[ev active] evs IH]; intros st; simpl.
  - constructor.
  - pose proof (handle_event_router_acts dw active st ev) as H1.
    destruct (Streaming.handle_event dw active st ev) as [st1 out1].
    specialize (IH st1).
    destruct (Streaming.event_stream_handler dw st1 evs) as [st2 out2].
    simpl in *. apply Forall_app; split; assumption.
Qed.

(** A projection that ignores router actions is empty on router output. *)
Lemma flat_map_router_acts {X} (f : Act -> list X) (l : list Act) :
  (forall a, router_act a -> f a = []) -> Forall router_act l -> flat_map f l = [].
Proof.
  intros Hf Hl. induction Hl as [|a l Ha Hl IH]; simpl; [reflexivity|].
  rewrite (Hf a Ha), IH. reflexivity.
Qed.

Lemma invocations_router (l : list Act) : Forall router_act l -> invocations l = [].
Proof.
  apply flat_map_router_acts. intros [] H; try reflexivity; destruct H.
Qed.

Lemma sleeps_router (l : list Act) : Forall router_act l -> sleeps l = [].
Proof.
  apply flat_map_router_acts. intros [] H; try reflexivity; destruct H.
Qed.

Lemma flat_map_audit {X} (f : Act -> list X) (h : list AuditEntry) :
  (forall e, f (AAudit e) = []) -> flat_map f (map AAudit h) = [].
Proof.
  intros Hf. induction h as [|e h IH]; simpl; [reflexivity|].
  rewrite Hf, IH. reflexivity.
Qed.

Lemma invocations_attempt_log (max_retries : nat) (enabled : bool) (key : string)
    (attempt : nat) (att : Attempt) (out : list Act) :
  Forall router_act out ->
  invocations (attempt_log max_retries enabled key attempt att out) = [attempt].
Proof.
  intros Hout. apply invocations_router in Hout. unfold invocations in *.
  split_attempt_log max_retries attempt;
    repeat (rewrite flat_map_app; simpl);
    rewrite ?Hout, ?flat_map_audit by reflexivity; reflexivity.
Qed.

Lemma sleeps_attempt_log (max_retries : nat) (enabled : bool) (key : string)
    (attempt : nat) (att : Attempt) (out : list Act) :
  Forall router_act out ->
  sleeps (attempt_log max_retries enabled key attempt att out) =
  match attempt_control max_retries attempt (ending att) with
  | CContinue => [base_delay * 2 ^ Z.of_nat attempt]
  | _ => []
  end.
Proof.
  intros Hout. apply sleeps_router in Hout. unfold sleeps in *.
  split_attempt_log max_retries attempt;
    repeat (rewrite flat_map_app; simpl);
    rewrite ?Hout, ?flat_map_audit by reflexivity; reflexivity.
Qed.

(** The last attempt allowed by the bound never asks for another one. *)
Lemma last_attempt_never_continues (max_retries attempt : nat) (end_ : AttemptEnd) :
  (max_retries <= S attempt)%nat ->
  attempt_control max_retries attempt end_ <> CContinue.
Proof.
  intros H. unfold attempt_control, retries. destruct end_ as [r|e|]; try discriminate.
  replace (Z.of_nat attempt <? Z.of_nat max_retries - 1) with false
    by (symmetry; apply Z.ltb_ge; lia).
  rewrite andb_false_r. discriminate.
Qed.

Lemma timeline_router (l : list Act) : Forall router_act l -> timeline l = [].
Proof.
  apply flat_map_router_acts. intros [] H; try reflexivity; destruct H.
Qed.

Lemma timeline_attempt_log (max_retries : nat) (enabled : bool) (key : string)
    (attempt : nat) (att : Attempt) (out : list Act) :
  Forall router_act out ->
  timeline (attempt_log max_retries enabled key attempt att out) =
  AInvoke attempt ::
  match attempt_control max_retries attempt (ending att) with
  | CContinue => [ASleep (base_delay * 2 ^ Z.of_nat attempt)]
  | _ => []
  end.
Proof.
  intros Hout. apply timeline_router in Hout. unfold timeline in *.
  split_attempt_log max_retries attempt;
    repeat (rewrite flat_map_app; simpl);
    rewrite ?Hout, ?flat_map_audit by reflexivity; reflexivity.
Qed.

Lemma invocations_app (l1 l2 : list Act) :
  invocations (l1 ++ l2) = (invocations l1 ++ invocations l2)%list.
Proof. apply flat_map_app. Qed.

Lemma sleeps_app (l1 l2 : list Act) : sleeps (l1 ++ l2) = (sleeps l1 ++ sleeps l2)%list.
Proof. apply flat_map_app. Qed.

Lemma timeline_app (l1 l2 : list Act) :
  timeline (l1 ++ l2) = (timeline l1 ++ timeline l2)%list.
Proof. apply flat_map_app. Qed.

(** The three shapes a run of [run_agent_review] can take. *)
Lemma run_agent_review_cases (key : string) (review_id : option string)
    (debug_enabled enabled : bool) (script : nat -> Attempt) (w : World) :
  let res := fst (fst (run_agent_review key review_id debug_enabled enabled script w)) in
  let log := snd (run_agent_review key review_id debug_enabled enabled script w) in
  let c i := attempt_control 3 i (ending (script i)) in
  (c 0%nat <> CContinue /\ res = result_of (c 0%nat) /\
   invocations log = [0%nat] /\ sleeps log = [] /\
   timeline log = [AInvoke 0]) \/
  (c 0%nat = CContinue /\ c 1%nat <> CContinue /\ res = result_of (c 1%nat) /\
   invocations log = [0%nat; 1%nat] /\ sleeps log = [5] /\
   timeline log = [AInvoke 0; ASleep 5; AInvoke 1]) \/
  (c 0%nat = CContinue /\ c 1%nat = CContinue /\ c 2%nat <> CContinue /\
   res = result_of (c 2%nat) /\
   invocations log = [0%nat; 1%nat; 2%nat] /\ sleeps log = [5; 10] /\
   timeline log = [AInvoke 0; ASleep 5; AInvoke 1; ASleep 10; AInvoke 2]).
Proof.
  intros res log c. subst res log. unfold run_agent_review.
  destruct (run_with_flat max_retries key review_id debug_enabled enabled script w)
    as [tk ->].
  assert (Hp : invocations (prologue key debug_enabled) = [] /\
               sleeps (prologue key debug_enabled) = [] /\
               timeline (prologue key debug_enabled) = [])
    by (destruct debug_enabled; repeat split; reflexivity).
  destruct Hp as (Hpi & Hps & Hpt).
  unfold max_retries. simpl seq. cbn [loop_flat]. fold (c 0%nat) (c 1%nat) (c 2%nat).
  pose proof (fun st => event_stream_handler_router_acts true (events (script 0%nat)) st) as R0.
  pose proof (fun st => event_stream_handler_router_acts true (events (script 1%nat)) st) as R1.
  pose proof (fun st => event_stream_handler_router_acts true (events (script 2%nat)) st) as R2.
  pose proof (last_attempt_never_continues 3 2 (ending (script 2%nat)) (le_n _)) as H2.
  fold (c 2%nat) in H2.
  pose proof (fun en k out H => sleeps_attempt_log 3 en k 0 (script 0%nat) out H) as S0.
  pose proof (fun en k out H => sleeps_attempt_log 3 en k 1 (script 1%nat) out H) as S1.
  pose proof (fun en k out H => sleeps_attempt_log 3 en k 2 (script 2%nat) out H) as S2.
  pose proof (fun en k out H => timeline_attempt_log 3 en k 0 (script 0%nat) out H) as T0.
  pose proof (fun en k out H => timeline_attempt_log 3 en k 1 (script 1%nat) out H) as T1.
  pose proof (fun en k out H => timeline_attempt_log 3 en k 2 (script 2%nat) out H) as T2.
  fold (c 0%nat) in S0, T0. fold (c 1%nat) in S1, T1. fold (c 2%nat) in S2, T2.
  destruct (c 0%nat) eqn:E0.
  2-4: left; simpl;
       rewrite !invocations_app, !sleeps_app, !timeline_app;
       rewrite ?Hpi, ?Hps, ?Hpt, ?invocations_attempt_log, ?S0, ?T0 by auto;
       repeat split; auto; discriminate.
  right. destruct (c 1%nat) eqn:E1.
  2-4: left; simpl;
       rewrite !invocations_app, !sleeps_app, !timeline_app;
       rewrite ?Hpi, ?Hps, ?Hpt, ?invocations_attempt_log, ?S0, ?S1, ?T0, ?T1 by auto;
       repeat split; auto; discriminate.
  right. destruct (c 2%nat) eqn:E2; [contradiction| | |];
    simpl;
    rewrite !invocations_app, !sleeps_app, !timeline_app;
    rewrite ?Hpi, ?Hps, ?Hpt, ?invocations_attempt_log, ?S0, ?S1, ?S2, ?T0, ?T1, ?T2 by auto;
    repeat split; auto; discriminate.
Qed.

End RetryProofs.

(** ** C2: which failures are retried *)

Section RetryClaims.

Import Executor Flat Log.

Lemma attempt_control_raises (attempt : nat) (e : Exception) :
  attempt_control 3 attempt (Raises e) =
  if (is_rate_limit e && (attempt <? 2)%nat)%bool then CContinue else CRaise e.
Proof.
  unfold attempt_control, retries.
  replace (Z.of_nat attempt <? Z.of_nat 3 - 1) with (attempt <? 2)%nat; [reflexivity|].
  destruct (Nat.ltb_spec attempt 2); symmetry; [apply Z.ltb_lt|apply Z.ltb_ge]; lia.
Qed.

Lemma is_rate_limit_markers (e : Exception) :
  is_rate_limit e =
  existsb (fun marker => Text.str_in marker (Text.lower (exc_msg e))) rate_limit_markers.
Proof. unfold is_rate_limit. simpl. rewrite orb_false_r, !orb_assoc. reflexivity. Qed.

End RetryClaims.

(** C2: let attempt [k] (0-indexed, [k < 3]) of a job be reached, every
    earlier attempt having failed with a transient error, and let it
    raise the error [e].  The error is classified as transient exactly
    when the lowered message contains one of the five markers.  The
    agent is invoked again (attempt [k + 1]) if and only if [e] is
    transient and fewer than 3 attempts have been made ([k + 1 < 3]).
    An error without marker is re-raised to the caller at once: the run
    ends with [e] after the attempts 0..k, so after exactly one attempt
    when it is the first error.  A transient error on the third attempt
    is re-raised as well, after exactly 3 attempts. *)
Theorem retry_iff_transient_and_attempts_left
    (key : string) (review_id : option string) (debug_enabled enabled : bool)
    (script : nat -> Executor.Attempt) (w : Executor.World)
    (k : nat) (e : Exception) :
  (k < 3)%nat ->
  (forall j, (j < k)%nat ->
     exists ej, Executor.ending (script j) = Executor.Raises ej /\ is_rate_limit ej = true) ->
  Executor.ending (script k) = Executor.Raises e ->
  let res := fst (fst (Executor.run_agent_review key review_id debug_enabled enabled script w)) in
  let log := snd (Executor.run_agent_review key review_id debug_enabled enabled script w) in
  (is_rate_limit e =
     existsb (fun marker => Text.str_in marker (Text.lower (exc_msg e))) rate_limit_markers) /\
  (In (S k) (Log.invocations log) <-> (is_rate_limit e = true /\ (S k < 3)%nat)) /\
  (is_rate_limit e = false ->
     res = Executor.Reraised e /\ Log.invocations log = seq 0 (S k)) /\
  (is_rate_limit e = true -> S k = 3%nat ->
     res = Executor.Reraised e /\ Log.invocations log = [0; 1; 2]%nat).
Proof.
  intros Hk Hprev Hend res log.
  split; [apply is_rate_limit_markers|].
  pose proof (run_agent_review_cases key review_id debug_enabled enabled script w) as Hc.
  cbv beta zeta in Hc. fold res log in Hc.
  assert (Hearlier : forall j, (j < k)%nat ->
            Flat.attempt_control 3 j (Executor.ending (script j)) = Executor.CContinue).
  { intros j Hj. destruct (Hprev j Hj) as (ej & -> & Hrl).
    rewrite attempt_control_raises, Hrl.
    replace (j <? 2)%nat with true by (symmetry; apply Nat.ltb_lt; lia). reflexivity. }
  assert (Hthis : Flat.attempt_control 3 k (Executor.ending (script k)) =
            if (is_rate_limit e && (k <? 2)%nat)%bool
            then Executor.CContinue else Executor.CRaise e)
    by (rewrite Hend; apply attempt_control_raises).
  destruct k as [|[|[|k]]]; [| | |lia];
    try (rewrite (Hearlier 0%nat) in Hc by lia);
    try (rewrite (Hearlier 1%nat) in Hc by lia);
    rewrite Hthis in Hc;
    destruct (is_rate_limit e) eqn:Hrl; simpl in Hc;
    destruct Hc as [(H0 & Hres & Hinv & _)|[(H0 & H1 & Hres & Hinv & _)|
                    (H0 & H1 & H2 & Hres & Hinv & _)]];
    try congruence;
    rewrite Hinv, Hres; simpl;
    repeat split; intros;
    repeat match goal with
           | H : _ \/ _ |- _ => destruct H
           | H : _ /\ _ |- _ => destruct H
           | H : False |- _ => destruct H
           end;
    try discriminate; try lia; auto.
Qed.

(** The theorem at work on an agent that is rate limited three times:
    the third error is re-raised after the attempts 0, 1 and 2. *)
Lemma retry_iff_transient_and_attempts_left_witness :
  fst (fst (Executor.run_agent_review "a.py" (Some "r1") false true
              Samples.always_429 Samples.empty_world))
    = Executor.Reraised Samples.error_429 /\
  Log.invocations (snd (Executor.run_agent_review "a.py" (Some "r1") false true
                          Samples.always_429 Samples.empty_world))
    = [0; 1; 2]%nat.
Proof.
  refine (proj2 (proj2 (proj2
    (retry_iff_transient_and_attempts_left "a.py" (Some "r1") false true
       Samples.always_429 Samples.empty_world 2 Samples.error_429 _ _ _))) _ _).
  - lia.
  - intros j _. exists Samples.error_429. split; reflexivity.
  - reflexivity.
  - reflexivity.
  - reflexivity.
Defined.

(** ** C3: the bound on attempts and the back-off delays *)

(** C3: a job makes at most 3 attempts, numbered 0, 1, 2; a delay is
    slept exactly before each retry, the delay before 0-indexed retry [i]
    being [5 * 2^i]: the agent invocations and the sleeps of a run
    alternate as [invoke 0], or [invoke 0; sleep 5; invoke 1], or
    [invoke 0; sleep 5; invoke 1; sleep 10; invoke 2], so the delays add
    up to 15 when both retries occur. *)
Theorem at_most_three_attempts_exponential_backoff
    (key : string) (review_id : option string) (debug_enabled enabled : bool)
    (script : nat -> Executor.Attempt) (w : Executor.World) :
  let log := snd (Executor.run_agent_review key review_id debug_enabled enabled script w) in
  (length (Log.invocations log) <= 3)%nat /\
  Log.invocations log = seq 0 (length (Log.invocations log)) /\
  S (length (Log.sleeps log)) = length (Log.invocations log) /\
  Log.sleeps log =
    map (fun i => 5 * 2 ^ Z.of_nat i) (seq 0 (length (Log.sleeps log))) /\
  (Log.timeline log = [AInvoke 0] \/
   Log.timeline log = [AInvoke 0; ASleep 5; AInvoke 1] \/
   Log.timeline log = [AInvoke 0; ASleep 5; AInvoke 1; ASleep 10; AInvoke 2]) /\
  fold_right Z.add 0 (Log.sleeps log) =
    match length (Log.sleeps log) with 0%nat => 0 | 1%nat => 5 | _ => 15 end.
Proof.
  intros log.
  pose proof (run_agent_review_cases key review_id debug_enabled enabled script w) as Hc.
  cbv beta zeta in Hc. fold log in Hc.
  destruct Hc as [(_ & _ & Hi & Hs & Ht)|[(_ & _ & _ & Hi & Hs & Ht)|
                  (_ & _ & _ & _ & Hi & Hs & Ht)]];
    rewrite Hi, Hs, Ht; simpl; repeat split; auto.
Qed.

(** Scenario B of the specification: two rate-limit failures, then a
    success. *)
Example scenario_B :
  let run := Executor.run_agent_review "a.py" (Some "r1") false true
               Samples.twice_429 Samples.empty_world in
  fst (fst run) = Executor.Returned Samples.review_ok /\
  Log.sleeps (snd run) = [5; 10] /\
  Log.invocations (snd run) = [0; 1; 2]%nat.
Proof. vm_compute. repeat split. Qed.

(** Scenario C: no retry for a failure without marker. *)
Example scenario_C :
  let run := Executor.run_agent_review "a.py" (Some "r1") false true
               Samples.permission_denied Samples.empty_world in
  fst (fst run) = Executor.Reraised Samples.error_permission /\
  Log.sleeps (snd run) = [] /\
  Log.invocations (snd run) = [0%nat].
Proof. vm_compute. repeat split. Qed.

(** ** C10: the loop never falls through *)

(** With a bound of 0 the statement after the loop is reached: the
    embedding does contain that path. *)
Example zero_bound_falls_through :
  fst (fst (Executor.run_with 0 "a.py" None false true Samples.succeeds
              Samples.empty_world)) = Executor.FellThrough.
Proof. reflexivity. Qed.

(** C10: with [max_retries = 3] every run of [run_agent_review] ends
    inside the loop: it returns a [ReviewResult], or re-raises the error
    of its last attempt (an error that is not transient, or the error of
    the third attempt), or lets a cancellation through; the
    [RuntimeError] after the loop is never raised. *)
Theorem retry_loop_never_falls_through
    (key : string) (review_id : option string) (debug_enabled enabled : bool)
    (script : nat -> Executor.Attempt) (w : Executor.World) :
  let res := fst (fst (Executor.run_agent_review key review_id debug_enabled enabled script w)) in
  res <> Executor.FellThrough /\
  ((exists k r, (k < 3)%nat /\ Executor.ending (script k) = Executor.Output r /\
                res = Executor.Returned r) \/
   (exists k e, (k < 3)%nat /\ Executor.ending (script k) = Executor.Raises e /\
                (is_rate_limit e = false \/ k = 2%nat) /\ res = Executor.Reraised e) \/
   (exists k, (k < 3)%nat /\ Executor.ending (script k) = Executor.Cancelled /\
              res = Executor.Cancellation)).
Proof.
  intros res.
  pose proof (run_agent_review_cases key review_id debug_enabled enabled script w) as Hc.
  cbv beta zeta in Hc. fold res in Hc.
  assert (Hshape : forall k, (k < 3)%nat ->
            Flat.attempt_control 3 k (Executor.ending (script k)) <> Executor.CContinue ->
            res = Flat.result_of (Flat.attempt_control 3 k (Executor.ending (script k))) ->
            res <> Executor.FellThrough /\
            ((exists k r, (k < 3)%nat /\ Executor.ending (script k) = Executor.Output r /\
                          res = Executor.Returned r) \/
             (exists k e, (k < 3)%nat /\ Executor.ending (script k) = Executor.Raises e /\
                          (is_rate_limit e = false \/ k = 2%nat) /\
                          res = Executor.Reraised e) \/
             (exists k, (k < 3)%nat /\ Executor.ending (script k) = Executor.Cancelled /\
                        res = Executor.Cancellation))).
  { intros k Hk Hne Hres.
    destruct (Executor.ending (script k)) as [r|e|] eqn:He.
    - simpl in Hres. split; [congruence|]. left. exists k, r. auto.
    - rewrite attempt_control_raises in Hne, Hres.
      destruct (is_rate_limit e) eqn:Hrl; simpl in Hne, Hres.
      + destruct (Nat.ltb_spec k 2); [congruence|].
        simpl in Hres. split; [congruence|]. right; left. exists k, e.
        repeat split; auto. right. lia.
      + simpl in Hres. split; [congruence|]. right; left. exists k, e.
        repeat split; auto.
    - simpl in Hres. split; [congruence|]. right; right. exists k. auto. }
  destruct Hc as [(H0 & Hres & _)|[(_ & H1 & Hres & _)|(_ & _ & H2 & Hres & _)]].
  - apply (Hshape 0%nat); auto.
  - apply (Hshape 1%nat); auto.
  - apply (Hshape 2%nat); auto.
Qed.

(** ** Reading a whole run through a projection of its log *)

Section Projections.

Import Executor Flat Log.

Context {X : Type} (f : Act -> list X) (g : nat -> list X).
Context (max_retries : nat) (enabled : bool) (key : string) (script : nat -> Attempt).

Hypothesis f_attempt : forall attempt out,
  Forall router_act out ->
  flat_map f (attempt_log max_retries enabled key attempt (script attempt) out) = g attempt.

Lemma loop_flat_projection (todo : list nat) (reg : gmap string (option string))
    (st : Streaming.State) :
  flat_map f (snd (loop_flat max_retries enabled key script todo reg st))
  = flat_map g (executed max_retries script todo).
Proof.
  revert reg st. induction todo as [|a rest IH]; intros reg st; simpl; [reflexivity|].
  pose proof (f_attempt a _ (event_stream_handler_router_acts true (events (script a)) st))
    as Ha.
  destruct (attempt_control max_retries a (ending (script a))); simpl;
    rewrite ?app_nil_r; try exact Ha.
  specialize (IH (attempt_registry max_retries key a (script a) reg)
                 (fst (Streaming.event_stream_handler true st (events (script a))))).
  destruct (loop_flat max_retries enabled key script rest _ _) as [[[res reg2] st2] l2].
  simpl in *. rewrite flat_map_app, Ha, IH. reflexivity.
Qed.

Lemma run_with_projection (review_id : option string) (debug_enabled : bool) (w : World) :
  flat_map f (snd (run_with max_retries key review_id debug_enabled enabled script w))
  = (flat_map f (prologue key debug_enabled) ++
     flat_map g (executed max_retries script (seq 0 max_retries)))%list.
Proof.
  destruct (run_with_flat max_retries key review_id debug_enabled enabled script w)
    as [tk ->].
  pose proof (loop_flat_projection (seq 0 max_retries)
                (<[key := review_id]> (registry w)) Streaming.initial) as H.
  destruct (loop_flat _ _ _ _ _ _ _) as [[[res reg] st] l]. simpl in *.
  rewrite flat_map_app, H. reflexivity.
Qed.

End Projections.

Section LifecycleProofs.

Import Executor Flat Log.

Lemma lifecycle_router (l : list Act) : Forall router_act l -> lifecycle l = [].
Proof.
  apply flat_map_router_acts. intros [] H; try reflexivity; destruct H.
Qed.

Lemma lifecycle_attempt_log (max_retries : nat) (enabled : bool) (key : string)
    (script : nat -> Attempt) (attempt : nat) (out : list Act) :
  Forall router_act out ->
  lifecycle (attempt_log max_retries enabled key attempt (script attempt) out)
  = attempt_lifecycle max_retries enabled script attempt.
Proof.
  intros Hout. apply lifecycle_router in Hout. unfold lifecycle, attempt_lifecycle in *.
  generalize (script attempt). intros att.
  split_attempt_log max_retries attempt;
    repeat (rewrite flat_map_app; simpl);
    rewrite ?Hout, ?flat_map_audit by reflexivity; reflexivity.
Qed.

Lemma flat_map_singleton {A} (l : list A) : flat_map (fun a => [a]) l = l.
Proof. induction l as [|x l IH]; simpl; congruence. Qed.

Lemma run_invocations (key : string) (review_id : option string)
    (debug_enabled enabled : bool) (script : nat -> Attempt) (w : World) :
  invocations (snd (run_agent_review key review_id debug_enabled enabled script w))
  = executed 3 script [0; 1; 2]%nat.
Proof.
  unfold run_agent_review, invocations.
  rewrite (run_with_projection _ (fun a => [a]) max_retries enabled key script).
  - replace (flat_map _ (prologue key debug_enabled)) with (@nil nat)
      by (destruct debug_enabled; reflexivity).
    rewrite flat_map_singleton. reflexivity.
  - intros a out Hout. apply invocations_attempt_log. exact Hout.
Qed.

Lemma run_lifecycle (key : string) (review_id : option string)
    (debug_enabled enabled : bool) (script : nat -> Attempt) (w : World) :
  lifecycle (snd (run_agent_review key review_id debug_enabled enabled script w))
  = flat_map (attempt_lifecycle 3 enabled script) (executed 3 script [0; 1; 2]%nat).
Proof.
  unfold run_agent_review, lifecycle.
  rewrite (run_with_projection _ (attempt_lifecycle 3 enabled script)
             max_retries enabled key script).
  - replace (flat_map _ (prologue key debug_enabled)) with (@nil Act)
      by (destruct debug_enabled; reflexivity).
    reflexivity.
  - intros a out Hout. apply (lifecycle_attempt_log 3 enabled key script a out Hout).
Qed.

End LifecycleProofs.

(** ** C8: the spinner task of an attempt *)

(** C8, as stated, fails: when a partial result arrives the task is
    cancelled on the spot and the variable holding it is cleared, so the
    clean-up at the exit of the attempt has nothing left to await.  Here
    the only attempt streams a partial result and succeeds: its task is
    created and cancelled, the attempt is left, and no join ever
    happens. *)
Lemma spinner_task_not_awaited_after_partial_result :
  let log := snd (Executor.run_agent_review "a.py" (Some "r1") false true
                    Samples.streams_then_succeeds Samples.empty_world) in
  Log.lifecycle log = [ATaskCreate 0; ATaskCancel 0; AExit 0] /\
  In (ATaskCreate 0) log /\ In (AExit 0) log /\ ~ In (ATaskJoin 0) log.
Proof.
  vm_compute. repeat split; auto 20.
  intros H. repeat (destruct H as [H|H]; [discriminate|]). exact H.
Qed.

(** C8 (amended): in every run, the task events, the retry sleeps and
    the attempt exits occur attempt by attempt, and for each attempt made
    they are: nothing but the exit when the spinner is disabled (no task
    is started); otherwise one task creation, its cancellation, its
    bounded await unless a partial result had arrived (in which case the
    task is cancelled without being awaited), then the sleep when the
    attempt is retried, then the exit.  So every task an attempt starts
    is cancelled before the attempt returns, retries or propagates an
    error, each attempt starts at most one task, and the next task is
    started only after the previous attempt was left. *)
Theorem spinner_task_cancelled_on_every_exit
    (key : string) (review_id : option string) (debug_enabled enabled : bool)
    (script : nat -> Executor.Attempt) (w : Executor.World) :
  let log := snd (Executor.run_agent_review key review_id debug_enabled enabled script w) in
  Log.lifecycle log =
    flat_map (Flat.attempt_lifecycle 3 enabled script) (Log.invocations log) /\
  Forall (fun attempt =>
    let sleep :=
      match Flat.attempt_control 3 attempt (Executor.ending (script attempt)) with
      | Executor.CContinue => [ASleep (5 * 2 ^ Z.of_nat attempt)]
      | _ => []
      end in
    Flat.attempt_lifecycle 3 enabled script attempt =
      if enabled
      then (if Executor.partial_result (script attempt)
            then [ATaskCreate attempt; ATaskCancel attempt] ++ sleep ++ [AExit attempt]
            else [ATaskCreate attempt; ATaskCancel attempt; ATaskJoin attempt] ++
                 sleep ++ [AExit attempt])%list
      else (sleep ++ [AExit attempt])%list)
    (Log.invocations log).
Proof.
  intros log. subst log. rewrite run_lifecycle, run_invocations. split; [reflexivity|].
  apply Forall_forall. intros a _. unfold Flat.attempt_lifecycle.
  destruct enabled, (Executor.partial_result (script a)); reflexivity.
Qed.

(** ** C5: the registry entry of a job *)

Section RegistryProofs.

Import Executor Flat Log.

Lemma registrations_router (l : list Act) : Forall router_act l -> registrations l = [].
Proof.
  apply flat_map_router_acts. intros [] H; try reflexivity; destruct H.
Qed.

Lemma unregistrations_router (l : list Act) : Forall router_act l -> unregistrations l = [].
Proof.
  apply flat_map_router_acts. intros [] H; try reflexivity; destruct H.
Qed.

Lemma registrations_attempt_log (max_retries : nat) (enabled : bool) (key : string)
    (attempt : nat) (att : Attempt) (out : list Act) :
  Forall router_act out ->
  registrations (attempt_log max_retries enabled key attempt att out) = [].
Proof.
  intros Hout. apply registrations_router in Hout. unfold registrations in *.
  split_attempt_log max_retries attempt;
    repeat (rewrite flat_map_app; simpl);
    rewrite ?Hout, ?flat_map_audit by reflexivity; reflexivity.
Qed.

Lemma unregistrations_attempt_log (max_retries : nat) (enabled : bool) (key : string)
    (attempt : nat) (att : Attempt) (out : list Act) :
  Forall router_act out ->
  unregistrations (attempt_log max_retries enabled key attempt att out) =
  match attempt_control max_retries attempt (ending att) with
  | CReturn _ | CRaise _ => [key]
  | _ => []
  end.
Proof.
  intros Hout. apply unregistrations_router in Hout. unfold unregistrations in *.
  split_attempt_log max_retries attempt;
    repeat (rewrite flat_map_app; simpl);
    rewrite ?Hout, ?flat_map_audit by reflexivity; reflexivity.
Qed.

(** The result of a run is the result of one of its attempts. *)
Lemma run_result_inside_loop (key : string) (review_id : option string)
    (debug_enabled enabled : bool) (script : nat -> Attempt) (w : World) :
  fst (fst (run_agent_review key review_id debug_enabled enabled script w)) <> FellThrough.
Proof.
  pose proof (run_agent_review_cases key review_id debug_enabled enabled script w) as Hc.
  cbv beta zeta in Hc.
  destruct Hc as [(H0 & -> & _)|[(_ & H0 & -> & _)|(_ & _ & H0 & -> & _)]];
    destruct (attempt_control 3 _ _); simpl; congruence.
Qed.

(** What the loop does to the registry, by the way it ends. *)
Lemma loop_flat_registry (max_retries : nat) (enabled : bool) (key : string)
    (script : nat -> Attempt) (todo : list nat)
    (reg : gmap string (option string)) (st : Streaming.State) :
  let run := loop_flat max_retries enabled key script todo reg st in
  registrations (snd run) = [] /\
  match fst (fst (fst run)) with
  | Returned _ | Reraised _ =>
      snd (fst (fst run)) = delete key reg /\ unregistrations (snd run) = [key]
  | Cancellation | FellThrough =>
      snd (fst (fst run)) = reg /\ unregistrations (snd run) = []
  end.
Proof.
  revert reg st. induction todo as [|a rest IH]; intros reg st; simpl; [auto|].
  pose proof (event_stream_handler_router_acts true (events (script a)) st) as Hr.
  pose proof (registrations_attempt_log max_retries enabled key a (script a) _ Hr) as Hreg.
  pose proof (unregistrations_attempt_log max_retries enabled key a (script a) _ Hr) as Hun.
  unfold attempt_registry.
  destruct (attempt_control max_retries a (ending (script a))) eqn:Hc; simpl; auto.
  specialize (IH reg (fst (Streaming.event_stream_handler true st (events (script a))))).
  destruct (loop_flat max_retries enabled key script rest reg _) as [[[res reg2] st2] l2].
  simpl in *. unfold registrations, unregistrations in *.
  rewrite !flat_map_app, Hreg, Hun. simpl. exact IH.
Qed.

(** On every exit that is not a cancellation, the key was registered
    once, unregistered once, and is absent afterwards. *)
Lemma registry_cleared_unless_cancelled (key : string) (review_id : option string)
    (debug_enabled enabled : bool) (script : nat -> Attempt) (w : World) :
  let run := run_agent_review key review_id debug_enabled enabled script w in
  registrations (snd run) = [key] /\
  match fst (fst run) with
  | Cancellation =>
      registry (snd (fst run)) !! key = Some review_id /\ unregistrations (snd run) = []
  | _ => registry (snd (fst run)) !! key = None /\ unregistrations (snd run) = [key]
  end.
Proof.
  intros run. subst run. unfold run_agent_review.
  destruct (run_with_flat max_retries key review_id debug_enabled enabled script w)
    as [tk ->].
  pose proof (loop_flat_registry max_retries enabled key script (seq 0 max_retries)
                (<[key := review_id]> (registry w)) Streaming.initial) as H.
  pose proof (run_result_inside_loop key review_id debug_enabled enabled script w) as Hft.
  unfold run_agent_review in Hft.
  destruct (run_with_flat max_retries key review_id debug_enabled enabled script w)
    as [tk' Heq]. rewrite Heq in Hft. clear Heq.
  cbv zeta in H.
  destruct (loop_flat _ _ _ _ _ _ _) as [[[res reg] st] l]. simpl in *.
  destruct H as [Hreg H].
  unfold registrations, unregistrations in *. rewrite !flat_map_app, Hreg.
  replace (flat_map _ (prologue key debug_enabled)) with [key]
    by (destruct debug_enabled; reflexivity).
  replace (flat_map (fun a => match a with AUnregister k => [k] | _ => [] end)
             (prologue key debug_enabled)) with (@nil string)
    by (destruct debug_enabled; reflexivity).
  split; [reflexivity|].
  destruct res; destruct H as [-> ->]; simpl;
    rewrite ?lookup_delete_eq, ?lookup_insert_eq; auto.
  contradiction.
Qed.

End RegistryProofs.

(** C5 fails on the cancellation path: when the job is cancelled while
    the agent runs, [run_agent_review] lets the [CancelledError] through
    without popping the writer, so the key registered at job start is
    still in the registry when the job has concluded -- registered once,
    never unregistered. *)
Theorem registry_entry_survives_cancellation :
  let run := Executor.run_agent_review "a.py" (Some "r1") false true
               Samples.cancelled Samples.empty_world in
  fst (fst run) = Executor.Cancellation /\
  Executor.registry (snd (fst run)) !! "a.py" = Some (Some "r1") /\
  Log.registrations (snd run) = ["a.py"] /\
  Log.unregistrations (snd run) = [].
Proof. vm_compute. repeat split. Qed.

(** ** C6: cache hits *)

Section CacheProofs.

Import Executor Review.

Lemma put_not_in_run (f : string) (r : ReviewResult) (l : list Act) :
  ~ In (JCachePut f r) (map JRun l).
Proof. intros H. apply in_map_iff in H. destruct H as (a & Ha & _). discriminate. Qed.

Lemma on_exception_no_put (e : Exception) (f : string) (r : ReviewResult) :
  ~ In (JCachePut f r) (snd (on_exception e)).
Proof.
  unfold on_exception.
  destruct (exc_class e), (is_configuration_error e); simpl; intros [H|[]]; discriminate.
Qed.

End CacheProofs.

(** C6: when caching is enabled and the lookup of the job hits, the job
    returns the stored [ReviewResult] and does nothing but extract the
    context, query the cache and close its metrics: [run_agent_review]
    is not entered (no attempt, no router event, no audit entry, no
    registry update) and nothing is put in the cache.  And in any job, a
    cache put happens only when the lookup missed and [run_agent_review]
    returned a result; it stores that result and comes after all the
    actions of the agent run. *)
Theorem cache_hit_short_circuits
    (settings : Review.Settings) (no_cache : bool) (file_path : string)
    (env : Review.JobEnv) (reg : gmap string (option string)) :
  let run := Review.review_single_file settings no_cache file_path env reg in
  (no_cache = false -> Review.enable_cache settings = true ->
   forall packed_xml r,
     Review.context env = Review.Packed packed_xml ->
     Review.cached_data env = Some r ->
     fst (fst run) = Review.JobReturns (Some (file_path, r)) /\
     snd (fst run) = reg /\
     snd run = [Review.JExtract file_path; Review.JCacheGet file_path;
                Review.JFinish true None]) /\
  (forall f r, In (Review.JCachePut f r) (snd run) ->
     f = file_path /\ no_cache = false /\ Review.enable_cache settings = true /\
     Review.cached_data env = None /\
     exists w l,
       Executor.run_agent_review file_path (Some (Review.review_id env))
         (Review.debug_enabled env) (Review.spinner_enabled env) (Review.script env)
         (Executor.mkWorld reg ∅ Streaming.initial) = (Executor.Returned r, w, l) /\
       snd run = (Review.JExtract file_path :: Review.JCacheGet file_path ::
                  map Review.JRun l ++
                  [Review.JCachePut file_path r; Review.JFinish true None])%list).
Proof.
  intros run. subst run. unfold Review.review_single_file, Review.job_body. split.
  - intros -> -> packed_xml r -> ->. simpl. auto.
  - intros f r.
    destruct (Review.context env) as [packed_xml|e]; simpl.
    2: { pose proof (on_exception_no_put e f r) as Hno.
         destruct (Review.on_exception e) as [o l']. simpl in *.
         intros [H|H]; [discriminate|contradiction]. }
    destruct (negb no_cache && Review.enable_cache settings)%bool eqn:Huse;
      [apply andb_prop in Huse as [Hnc Hen]; apply negb_true_iff in Hnc;
       destruct (Review.cached_data env) as [r0|] eqn:Hcd; simpl;
       [intros [H|[H|[H|[]]]]; discriminate|]|];
      destruct (Executor.run_agent_review _ _ _ _ _ _) as [[res w] l] eqn:Hrun;
      destruct res as [r0|e| |]; simpl;
      try (pose proof (on_exception_no_put e f r) as Hno;
           destruct (Review.on_exception e) as [o l']; simpl in *);
      intros H;
      repeat match type of H with
             | _ \/ _ => destruct H as [H|H]
             | In _ (_ ++ _) => apply in_app_or in H as [H|H]
             | False => destruct H
             | In _ (map _ _) => destruct (put_not_in_run _ _ _ H)
             | In _ _ => simpl in H
             end;
      try contradiction; try discriminate.
    injection H as <- <-. repeat split; auto. exists w, l. auto.
Qed.

(** ** The dispatcher: what the batch returns *)

Section BatchProofs.

Import Review Dispatcher Slots.

Variable outcome : nat -> JobOutcome.

Lemma phases_ok_insert (n : nat) (ps : list Phase) (i : nat) (p : Phase) :
  Forall2 (phase_ok outcome) (seq 0 n) ps ->
  phase_ok outcome i p ->
  Forall2 (phase_ok outcome) (seq 0 n) (<[i := p]> ps).
Proof.
  intros H Hp. apply Forall2_same_length_lookup in H as [Hlen H].
  apply Forall2_same_length_lookup. split.
  - rewrite length_insert. exact Hlen.
  - intros j x y Hx Hy. destruct (decide (i = j)) as [->|Hne].
    + apply lookup_seq in Hx as [-> Hj]. simpl.
      rewrite list_lookup_insert_eq in Hy by (rewrite <- Hlen, length_seq; lia).
      injection Hy as <-. exact Hp.
    + rewrite list_lookup_insert_ne in Hy by exact Hne. eapply H; eauto.
Qed.

Lemma step_phases_ok (n : nat) (d d' : State) (m : Move) :
  phases_ok outcome n d -> step outcome d m = Some d' -> phases_ok outcome n d'.
Proof.
  unfold phases_ok, step. intros H Hs.
  destruct (halted d) as [h|].
  - destruct m as [i|i]; [discriminate|].
    destruct (phases d !! i) as [[| |item|]|]; try discriminate.
    injection Hs as <-. simpl. apply phases_ok_insert; simpl; auto.
  - destruct m as [i|i]; destruct (phases d !! i) as [[| |item|]|]; try discriminate.
    + destruct (0 <? sem_value d); [|discriminate]. injection Hs as <-. simpl.
      apply phases_ok_insert; simpl; auto.
    + destruct (outcome i) as [v|e|code|] eqn:Ho; injection Hs as <-; simpl;
        apply phases_ok_insert; simpl; auto.
Qed.

Lemma run_phases_ok (n : nat) (schedule : list Move) (d d' : State) :
  phases_ok outcome n d -> run outcome d schedule = Some d' -> phases_ok outcome n d'.
Proof.
  revert d. induction schedule as [|m rest IH]; intros d Hd Hrun; simpl in Hrun.
  - injection Hrun as <-. exact Hd.
  - destruct (step outcome d m) as [d1|] eqn:Hs; [|discriminate].
    eapply IH; [|exact Hrun]. eapply step_phases_ok; eauto.
Qed.

Lemma start_phases_ok (K : Z) (n : nat) (d0 : State) :
  start K n = Some d0 -> phases_ok outcome n d0.
Proof.
  unfold start, phases_ok. destruct (K <? 0); [discriminate|]. intros [= <-]. simpl.
  apply Forall2_same_length_lookup. split.
  - rewrite length_seq, length_replicate. reflexivity.
  - intros i x y _ Hy. apply lookup_replicate in Hy as [-> _]. exact I.
Qed.

(** Once every task is done, filtering what [gather] returns yields, in
    submission order, what each job leaves: the pairs of the jobs that
    returned one and the [CancelledError] of each cancelled job. *)
Lemma all_results_entries (idxs : list nat) (ps : list Phase) (items : list GatherItem) :
  Forall2 (phase_ok outcome) idxs ps ->
  gathered ps = Some items ->
  all_results items = omap (entry outcome) idxs.
Proof.
  intros H. revert items. induction H as [|i p idxs ps Hp H IH]; intros items Hg.
  - injection Hg as <-. reflexivity.
  - simpl in Hg. destruct p as [| |item|]; try discriminate.
    destruct (gathered ps) as [items'|]; [|discriminate]. injection Hg as <-.
    specialize (IH items' eq_refl). simpl in Hp. unfold entry at 1.
    destruct item as [[pair|]|e|]; simpl; rewrite Hp, IH; reflexivity.
Qed.

Lemma run_returns_entries (K : Z) (n : nat) (schedule : list Move) (d0 d : State)
    (results : list ResultEntry) :
  start K n = Some d0 ->
  run outcome d0 schedule = Some d ->
  batch_outcome d = Some (BatchReturns results) ->
  results = omap (entry outcome) (seq 0 n).
Proof.
  intros Hs Hr Hb.
  pose proof (run_phases_ok n schedule d0 d (start_phases_ok K n d0 Hs) Hr) as Hok.
  unfold batch_outcome in Hb. destruct (halted d) as [[code]|]; try discriminate.
  destruct (gathered (phases d)) as [items|] eqn:Hg; [|discriminate].
  injection Hb as <-. eapply all_results_entries; eauto.
Qed.

(** When no job ends cancelled, what the jobs leave is the list of the
    pairs of the successful jobs. *)
Lemma entries_successes (idxs : list nat) :
  (forall i, In i idxs -> not_cancelled (outcome i) = true) ->
  omap (entry outcome) idxs = map Reviewed (omap (success outcome) idxs).
Proof.
  induction idxs as [|i idxs IH]; intros H; [reflexivity|].
  assert (IH' : omap (entry outcome) idxs = map Reviewed (omap (success outcome) idxs))
    by (apply IH; intros j Hj; apply H; right; exact Hj).
  specialize (H i (or_introl eq_refl)).
  change (omap (entry outcome) (i :: idxs))
    with (match entry outcome i with
          | Some y => y :: omap (entry outcome) idxs
          | None => omap (entry outcome) idxs
          end).
  change (omap (success outcome) (i :: idxs))
    with (match success outcome i with
          | Some y => y :: omap (success outcome) idxs
          | None => omap (success outcome) idxs
          end).
  rewrite IH'. unfold entry, success.
  destruct (outcome i) as [[pair|]|e|code|]; try discriminate; reflexivity.
Qed.

(** Running the tasks one after the other completes the batch as soon
    as there is one slot and no job stops the event loop. *)
Lemma sequential_run (K : Z) (m : nat) (pre : list Phase) :
  0 < K ->
  (forall i, (length pre <= i < length pre + m)%nat -> ends_quietly (outcome i) = true) ->
  run outcome (mkState K (pre ++ replicate m Pending) None)
      (flat_map (fun i => [Acquire i; Release i]) (seq (length pre) m))
  = Some (mkState K (pre ++ map (fun i => Done (item_of (outcome i))) (seq (length pre) m))
            None).
Proof.
  intros HK. revert pre. induction m as [|m IH]; intros pre Hq; simpl.
  - reflexivity.
  - unfold step at 1. simpl.
    rewrite lookup_app_r by lia. rewrite Nat.sub_diag. simpl.
    replace (0 <? K) with true by (symmetry; apply Z.ltb_lt; lia).
    unfold step at 1. simpl.
    rewrite (insert_app_r_alt pre) by lia. rewrite Nat.sub_diag. simpl.
    rewrite lookup_app_r by lia. rewrite Nat.sub_diag. simpl.
    specialize (Hq (length pre)) as Hq0.
    assert (Hnow : ends_quietly (outcome (length pre)) = true) by (apply Hq0; lia).
    specialize (IH (pre ++ [Done (item_of (outcome (length pre)))])%list).
    rewrite length_app in IH. simpl in IH. rewrite Nat.add_1_r in IH.
    rewrite <- !app_assoc in IH. simpl in IH.
    destruct (outcome (length pre)) as [v|e|code|] eqn:Ho; try discriminate; simpl in *;
      replace (K - 1 + 1) with K by lia;
      rewrite (insert_app_r_alt pre) by lia; rewrite Nat.sub_diag; simpl;
      apply IH; intros i Hi; apply Hq; lia.
Qed.

Lemma gathered_done (items : list GatherItem) :
  gathered (map Done items) = Some items.
Proof. induction items as [|x l IH]; simpl; [reflexivity|]. rewrite IH. reflexivity. Qed.

Lemma sequential_completes (K : Z) (n : nat) (d0 : State) :
  0 < K ->
  (forall i, (i < n)%nat -> ends_quietly (outcome i) = true) ->
  start K n = Some d0 ->
  exists d results,
    run outcome d0 (sequential n) = Some d /\
    batch_outcome d = Some (BatchReturns results).
Proof.
  intros HK Hq Hs. unfold start in Hs.
  replace (K <? 0) with false in Hs by (symmetry; apply Z.ltb_ge; lia).
  injection Hs as <-.
  pose proof (sequential_run K n [] HK) as H. simpl in H.
  eexists. eexists. split.
  - apply H. intros i Hi. apply Hq. lia.
  - unfold batch_outcome. simpl.
    rewrite <- (map_map (fun i => item_of (outcome i)) Done), gathered_done. reflexivity.
Qed.

(** *** No schedule gets stuck *)

Lemma remaining_insert (ps : list Phase) (i : nat) (p q : Phase) :
  ps !! i = Some p ->
  (remaining (<[i := q]> ps) + cost p = remaining ps + cost q)%nat.
Proof.
  revert i. induction ps as [|x ps IH]; intros [|i] H; simpl in *; try discriminate.
  - injection H as ->. lia.
  - specialize (IH i H). lia.
Qed.

Lemma find_running (ps : list Phase) :
  in_flight ps = 0%nat \/ exists i, ps !! i = Some Running.
Proof.
  induction ps as [|p ps [IH|[i IH]]]; simpl; auto.
  - destruct p; auto. right. exists 0%nat. reflexivity.
  - right. exists (S i). exact IH.
Qed.

Lemma find_pending (ps : list Phase) :
  (exists i, ps !! i = Some Pending) \/ Forall (fun p => p <> Pending) ps.
Proof.
  induction ps as [|p ps [[i IH]|IH]]; simpl; auto.
  - left. exists (S i). exact IH.
  - destruct p; try (right; constructor; [discriminate|exact IH]).
    left. exists 0%nat. reflexivity.
Qed.

Lemma nothing_remaining (ps : list Phase) :
  in_flight ps = 0%nat -> Forall (fun p => p <> Pending) ps -> remaining ps = 0%nat.
Proof.
  intros Hf Hp. induction Hp as [|p ps Hp Hps IH]; simpl in *; [reflexivity|].
  destruct p; simpl in *; try discriminate; try contradiction; auto.
Qed.

Lemma gathered_when_settled (ps : list Phase) :
  remaining ps = 0%nat -> Forall (fun p => p <> Ended) ps ->
  exists items, gathered ps = Some items.
Proof.
  intros Hr He. induction He as [|p ps Hp Hps IH]; simpl in *; [eauto|].
  destruct p as [| |item|]; simpl in *; try discriminate; try contradiction.
  destruct (IH Hr) as [items ->]. eauto.
Qed.

Lemma not_ended_insert (ps : list Phase) (i : nat) (q : Phase) :
  q <> Ended -> Forall (fun p => p <> Ended) ps ->
  Forall (fun p => p <> Ended) (<[i := q]> ps).
Proof. intros Hq H. apply Forall_insert; assumption. Qed.

(** From any state in which the event loop still runs, the batch can be
    brought to completion. *)
Lemma can_complete (K : Z) :
  0 < K ->
  (forall i, ends_quietly (outcome i) = true) ->
  forall (m : nat) (d : State),
    remaining (phases d) = m ->
    slots_ok K d -> halted d = None -> Forall (fun p => p <> Ended) (phases d) ->
    exists schedule d' items,
      run outcome d schedule = Some d' /\ halted d' = None /\
      gathered (phases d') = Some items.
Proof.
  intros HK Hq. induction m as [|m IH]; intros d Hm Hs Hh He.
  - destruct (gathered_when_settled _ Hm He) as [items Hg].
    exists [], d, items. auto.
  - destruct (find_running (phases d)) as [Hnone|[i Hi]].
    + destruct (find_pending (phases d)) as [[i Hi]|Hno].
      * destruct Hs as [Hpos Hsum]. rewrite Hnone in Hsum.
        assert (Hstep : step outcome d (Acquire i) =
                  Some (mkState (sem_value d - 1) (<[i := Running]> (phases d)) None)).
        { unfold step. rewrite Hh, Hi.
          replace (0 <? sem_value d) with true by (symmetry; apply Z.ltb_lt; lia).
          reflexivity. }
        pose proof (remaining_insert _ _ _ Running Hi) as Hrem. simpl in Hrem.
        destruct (IH (mkState (sem_value d - 1) (<[i := Running]> (phases d)) None))
          as (schedule & d' & items & Hrun & Hh' & Hg); simpl.
        -- lia.
        -- eapply step_slots_ok; [|exact Hstep]. split; [exact Hpos|lia].
        -- reflexivity.
        -- apply not_ended_insert; [discriminate|exact He].
        -- exists (Acquire i :: schedule), d', items. simpl. rewrite Hstep. auto.
      * rewrite (nothing_remaining _ Hnone Hno) in Hm. discriminate.
    + specialize (Hq i) as Hqi.
      assert (Hstep : step outcome d (Release i) =
                Some (mkState (sem_value d + 1)
                        (<[i := Done (item_of (outcome i))]> (phases d)) None)).
      { unfold step. rewrite Hh, Hi.
        destruct (outcome i); try discriminate; reflexivity. }
      pose proof (remaining_insert _ _ _ (Done (item_of (outcome i))) Hi) as Hrem.
      simpl in Hrem.
      destruct (IH (mkState (sem_value d + 1)
                      (<[i := Done (item_of (outcome i))]> (phases d)) None))
        as (schedule & d' & items & Hrun & Hh' & Hg); simpl.
      * lia.
      * eapply step_slots_ok; [exact Hs|exact Hstep].
      * reflexivity.
      * apply not_ended_insert; [discriminate|exact He].
      * exists (Release i :: schedule), d', items. simpl. rewrite Hstep. auto.
Qed.

(** While no job stops the event loop, no task is ever marked as
    ended. *)
Lemma run_not_ended (schedule : list Move) (d d' : State) :
  (forall i, ends_quietly (outcome i) = true) ->
  halted d = None -> Forall (fun p => p <> Ended) (phases d) ->
  run outcome d schedule = Some d' ->
  halted d' = None /\ Forall (fun p => p <> Ended) (phases d').
Proof.
  intros Hq. revert d. induction schedule as [|m rest IH]; intros d Hh He Hrun;
    simpl in Hrun.
  - injection Hrun as <-. auto.
  - destruct (step outcome d m) as [d1|] eqn:Hs; [|discriminate].
    apply (IH d1); [| |exact Hrun]; unfold step in Hs; rewrite Hh in Hs;
      destruct m as [i|i]; destruct (phases d !! i) as [[| |item|]|]; try discriminate;
      try (destruct (0 <? sem_value d); [|discriminate]);
      try (specialize (Hq i); destruct (outcome i); try discriminate);
      injection Hs as <-; simpl; try reflexivity;
      apply not_ended_insert; try discriminate; exact He.
Qed.

Lemma run_app (s1 s2 : list Move) (d : State) :
  run outcome d (s1 ++ s2) =
  match run outcome d s1 with
  | Some d1 => run outcome d1 s2
  | None => None
  end.
Proof.
  revert d. induction s1 as [|m s1 IH]; intros d; simpl; [reflexivity|].
  destruct (step outcome d m); [apply IH|reflexivity].
Qed.

(** Every schedule the batch has followed so far extends to one that
    completes it. *)
Lemma every_schedule_completes (K : Z) (n : nat) (schedule : list Move) (d0 d : State) :
  0 < K ->
  (forall i, ends_quietly (outcome i) = true) ->
  start K n = Some d0 ->
  run outcome d0 schedule = Some d ->
  exists more d' results,
    run outcome d0 (schedule ++ more) = Some d' /\
    batch_outcome d' = Some (BatchReturns results).
Proof.
  intros HK Hq Hs Hr.
  pose proof (start_slots_ok K n d0 Hs) as Hs0.
  pose proof (run_slots_ok outcome K schedule d0 d Hs0 Hr) as Hsd.
  assert (H0 : halted d0 = None /\ Forall (fun p => p <> Ended) (phases d0)).
  { unfold start in Hs. destruct (K <? 0); [discriminate|]. injection Hs as <-. simpl.
    split; [reflexivity|]. apply Forall_forall. intros p Hp.
    apply elem_of_replicate in Hp as [-> _]. discriminate. }
  destruct H0 as [Hh0 He0].
  destruct (run_not_ended schedule d0 d Hq Hh0 He0 Hr) as [Hh He].
  destruct (can_complete K HK Hq _ d eq_refl Hsd Hh He)
    as (more & d' & items & Hrun & Hh' & Hg).
  exists more, d', (all_results items). split.
  - rewrite run_app, Hr. exact Hrun.
  - unfold batch_outcome. rewrite Hh', Hg. reflexivity.
Qed.

End BatchProofs.

(** ** The configuration-error test *)

Section ConfigurationTest.

Lemma startswith_chars (needle hay : string) :
  Text.startswith needle hay = true ->
  forall c, In c (Text.chars needle) -> In c (Text.chars hay).
Proof.
  revert hay. induction needle as [|a n IH]; intros hay H c Hc; simpl in *.
  - destruct Hc.
  - destruct hay as [|b h]; [discriminate|].
    destruct (Ascii.eqb a b) eqn:E; [|discriminate].
    apply Ascii.eqb_eq in E. subst b. destruct Hc as [->|Hc]; simpl; eauto.
Qed.

Lemma str_in_chars (needle hay : string) :
  Text.str_in needle hay = true ->
  forall c, In c (Text.chars needle) -> In c (Text.chars hay).
Proof.
  induction hay as [|b h IH]; simpl; intros H c Hc.
  - rewrite orb_false_r in H. eapply (startswith_chars needle ""); eauto.
  - apply orb_prop in H as [H|H].
    + eapply (startswith_chars needle (String b h)); eauto.
    + right. eauto.
Qed.

Lemma lower_ascii_not_capital_A (c : ascii) : Text.lower_ascii c <> "A"%char.
Proof.
  destruct c as [[] [] [] [] [] [] [] []]; vm_compute; discriminate.
Qed.

Lemma lower_has_no_capital_A (s : string) : ~ In "A"%char (Text.chars (Text.lower s)).
Proof.
  induction s as [|c s IH]; simpl; [tauto|].
  intros [H|H]; [exact (lower_ascii_not_capital_A c H)|exact (IH H)].
Qed.

(** The second disjunct of the test never holds: a lowered message
    contains no capital letter. *)
Lemma str_in_lower_capital (error_msg : string) :
  Text.str_in "API key" (Text.lower error_msg) = false.
Proof.
  destruct (Text.str_in "API key" (Text.lower error_msg)) eqn:H; [|reflexivity].
  exfalso. apply (lower_has_no_capital_A error_msg).
  apply (str_in_chars _ _ H). simpl. auto.
Qed.

Lemma is_configuration_error_eq (e : Exception) :
  is_configuration_error e = Text.str_in "No API keys configured" (exc_msg e).
Proof.
  unfold is_configuration_error.
  destruct (Text.str_in "API key" (Text.lower (exc_msg e))) eqn:H.
  - exfalso. apply (lower_has_no_capital_A (exc_msg e)).
    apply (str_in_chars _ _ H). simpl. auto.
  - apply orb_false_r.
Qed.

End ConfigurationTest.

(** ** Jobs inside a batch *)

Section RegistryIndependence.

Import Executor Flat Review.

(** Neither the result nor the log of the loop depends on the registry
    it starts from. *)
Lemma loop_flat_registry_independent (max_retries : nat) (enabled : bool) (key : string)
    (script : nat -> Attempt) (todo : list nat)
    (reg reg' : gmap string (option string)) (st : Streaming.State) :
  fst (fst (fst (loop_flat max_retries enabled key script todo reg st))) =
  fst (fst (fst (loop_flat max_retries enabled key script todo reg' st))) /\
  snd (loop_flat max_retries enabled key script todo reg st) =
  snd (loop_flat max_retries enabled key script todo reg' st).
Proof.
  revert reg reg' st. induction todo as [|a rest IH]; intros reg reg' st; simpl; [auto|].
  destruct (attempt_control max_retries a (ending (script a))); simpl; auto.
  specialize (IH (attempt_registry max_retries key a (script a) reg)
                 (attempt_registry max_retries key a (script a) reg')
                 (fst (Streaming.event_stream_handler true st (events (script a))))).
  destruct (loop_flat max_retries enabled key script rest
              (attempt_registry max_retries key a (script a) reg) _) as [[[r1 g1] s1] l1].
  destruct (loop_flat max_retries enabled key script rest
              (attempt_registry max_retries key a (script a) reg') _) as [[[r2 g2] s2] l2].
  simpl in *. destruct IH as [-> ->]. auto.
Qed.

Lemma run_agent_review_world_independent (key : string) (review_id : option string)
    (debug_enabled enabled : bool) (script : nat -> Attempt) (w w' : World) :
  fst (fst (run_agent_review key review_id debug_enabled enabled script w)) =
  fst (fst (run_agent_review key review_id debug_enabled enabled script w')) /\
  snd (run_agent_review key review_id debug_enabled enabled script w) =
  snd (run_agent_review key review_id debug_enabled enabled script w').
Proof.
  unfold run_agent_review.
  destruct (run_with_flat max_retries key review_id debug_enabled enabled script w)
    as [tk ->].
  destruct (run_with_flat max_retries key review_id debug_enabled enabled script w')
    as [tk' ->].
  pose proof (loop_flat_registry_independent max_retries enabled key script
                (seq 0 max_retries) (<[key := review_id]> (registry w))
                (<[key := review_id]> (registry w')) Streaming.initial) as H.
  destruct (loop_flat _ _ _ _ _ (<[key := review_id]> (registry w)) _) as [[[r1 g1] s1] l1].
  destruct (loop_flat _ _ _ _ _ (<[key := review_id]> (registry w')) _) as [[[r2 g2] s2] l2].
  simpl in *. destruct H as [-> ->]. auto.
Qed.

(** What a job hands to the event loop, and what it does, do not depend
    on the registry it finds: the jobs of a batch can be judged one by
    one. *)
Lemma review_single_file_registry_independent (settings : Settings) (no_cache : bool)
    (file_path : string) (env : JobEnv) (reg reg' : gmap string (option string)) :
  fst (fst (review_single_file settings no_cache file_path env reg)) =
  fst (fst (review_single_file settings no_cache file_path env reg')) /\
  snd (review_single_file settings no_cache file_path env reg) =
  snd (review_single_file settings no_cache file_path env reg').
Proof.
  unfold review_single_file, job_body.
  destruct (context env) as [packed_xml|e]; simpl.
  2: { destruct (on_exception e); simpl; auto. }
  destruct (if (negb no_cache && enable_cache settings)%bool then cached_data env else None);
    simpl; auto.
  pose proof (run_agent_review_world_independent file_path (Some (review_id env))
                (debug_enabled env) (spinner_enabled env) (script env)
                (mkWorld reg ∅ Streaming.initial) (mkWorld reg' ∅ Streaming.initial)) as H.
  destruct (run_agent_review _ _ _ _ _ (mkWorld reg ∅ Streaming.initial)) as [[r1 w1] l1].
  destruct (run_agent_review _ _ _ _ _ (mkWorld reg' ∅ Streaming.initial)) as [[r2 w2] l2].
  simpl in H. destruct H as [-> ->].
  destruct r2; simpl; auto. destruct (on_exception e); simpl; auto.
Qed.

End RegistryIndependence.

Section JobProofs.

Import Review Dispatcher Slots.

Lemma job_body_returns_file (settings : Settings) (no_cache : bool) (file_path : string)
    (env : JobEnv) (reg : gmap string (option string)) (f : string) (r : ReviewResult) :
  fst (fst (job_body settings no_cache file_path env reg)) = BodyReturns f r ->
  f = file_path.
Proof.
  unfold job_body. destruct (context env); [|discriminate].
  destruct (if (negb no_cache && enable_cache settings)%bool then cached_data env else None).
  - simpl. congruence.
  - destruct (Executor.run_agent_review _ _ _ _ _ _) as [[res w] l].
    destruct res; simpl; congruence.
Qed.

Lemma review_single_file_outcome (settings : Settings) (no_cache : bool)
    (file_path : string) (env : JobEnv) (reg : gmap string (option string)) :
  fst (fst (review_single_file settings no_cache file_path env reg)) =
  match fst (fst (job_body settings no_cache file_path env reg)) with
  | BodyReturns f r => JobReturns (Some (f, r))
  | BodyRaises e => fst (on_exception e)
  | BodyCancelled => JobCancelled
  end.
Proof.
  unfold review_single_file.
  destruct (job_body settings no_cache file_path env reg) as [[b reg'] l].
  destruct b as [f r|e|]; simpl; try reflexivity.
  destruct (on_exception e). reflexivity.
Qed.

Lemma on_exception_outcome (e : Exception) :
  fst (on_exception e) = if is_fatal e then JobExits 1 else JobReturns None.
Proof.
  unfold on_exception, is_fatal.
  destruct (exc_class e); try reflexivity. destruct (is_configuration_error e); reflexivity.
Qed.

Lemma job_outcome_file (settings : Settings) (no_cache : bool) (files : list string)
    (envs : nat -> JobEnv) (i : nat) (f : string) (r : ReviewResult) :
  job_outcome settings no_cache files envs i = JobReturns (Some (f, r)) ->
  files !! i = Some f.
Proof.
  unfold job_outcome. destruct (files !! i) as [file_path|] eqn:Hf; [|discriminate].
  rewrite review_single_file_outcome.
  destruct (fst (fst (job_body settings no_cache file_path (envs i) ∅))) as [f' r'|e|] eqn:Hb.
  - apply job_body_returns_file in Hb. congruence.
  - rewrite on_exception_outcome. destruct (is_fatal e); discriminate.
  - discriminate.
Qed.

(** Selecting entries by index keeps the order of the list. *)
Lemma selected_sublist {A B} (key : B -> A) (l : list A) (h : nat -> option B) (s : nat) :
  (forall i p, h (s + i)%nat = Some p -> l !! i = Some (key p)) ->
  sublist (map key (omap h (seq s (length l)))) l.
Proof.
  revert s. induction l as [|x l IH]; intros s H; simpl.
  - constructor.
  - assert (Hrest : sublist (map key (omap h (seq (S s) (length l)))) l).
    { apply IH. intros i p Hp. apply (H (S i) p). rewrite <- Hp. f_equal. lia. }
    destruct (h s) as [p|] eqn:Hs.
    + simpl. specialize (H 0%nat p). rewrite Nat.add_0_r in H.
      specialize (H Hs). simpl in H. injection H as ->.
      apply sublist_skip. exact Hrest.
    + apply sublist_cons. exact Hrest.
Qed.

Lemma successes_spec (outcome : nat -> JobOutcome) (n : nat) (p : string * ReviewResult) :
  In p (successes outcome n) <->
  exists i, (i < n)%nat /\ outcome i = JobReturns (Some p).
Proof.
  unfold successes. rewrite <- list_elem_of_In, list_elem_of_omap. split.
  - intros (i & Hi & Ho). apply elem_of_seq in Hi.
    exists i. split; [lia|]. destruct (outcome i); congruence.
  - intros (i & Hi & Ho). exists i. split; [apply elem_of_seq; lia|].
    rewrite Ho. reflexivity.
Qed.

Lemma concurrency_limit_positive (configured_max : Z) (n : nat) :
  (0 < n)%nat -> 1 <= configured_max -> 0 < concurrency_limit configured_max n.
Proof.
  intros Hn Hm. unfold concurrency_limit.
  destruct (Z.of_nat n <=? 5) eqn:E; lia.
Qed.

End JobProofs.

(** ** C4: the results of a batch *)

(** Whatever the order in which the jobs of a batch get their slot and
    complete, the list the batch holds when [gather] has completed is,
    in submission order, what each job leaves: the pair of a job that
    returned one, and the [CancelledError] of a job that ended
    cancelled.  When no job ends cancelled, it is the list of the pairs
    returned by the successful jobs: a pair [(file, result)] is in it
    exactly when some job of index [i] reviewing [file = files[i]]
    returned it, and the files of the list form a subsequence of the
    input file list.  And the batch does return: when it is not empty,
    at least one slot is configured and no job ends with the fatal
    configuration error, every schedule followed so far extends to one
    under which the batch returns its list. *)
Lemma batch_returns_entries_in_order
    (settings : Review.Settings) (no_cache : bool) (files : list string)
    (envs : nat -> Review.JobEnv) :
  let outcome := Dispatcher.job_outcome settings no_cache files envs in
  (forall schedule d results,
     Dispatcher.review settings no_cache files envs schedule = Some d ->
     Dispatcher.batch_outcome d = Some (Dispatcher.BatchReturns results) ->
     results = omap (Slots.entry outcome) (seq 0 (length files)) /\
     ((forall i, (i < length files)%nat -> Slots.not_cancelled (outcome i) = true) ->
      results = map Dispatcher.Reviewed (Dispatcher.successes outcome (length files)))) /\
  (forall file r,
     In (file, r) (Dispatcher.successes outcome (length files)) <->
     exists i, files !! i = Some file /\
               outcome i = Review.JobReturns (Some (file, r))) /\
  sublist (map fst (Dispatcher.successes outcome (length files))) files /\
  ((0 < length files)%nat ->
   1 <= Review.max_concurrent_reviews settings ->
   (forall i, (i < length files)%nat -> Slots.ends_quietly (outcome i) = true) ->
   forall schedule d,
     Dispatcher.review settings no_cache files envs schedule = Some d ->
     exists more d' results,
       Dispatcher.review settings no_cache files envs (schedule ++ more) = Some d' /\
       Dispatcher.batch_outcome d' = Some (Dispatcher.BatchReturns results)).
Proof.
  intros outcome. split; [|split; [|split]].
  - intros schedule d results Hr Hb. unfold Dispatcher.review in Hr.
    destruct (Dispatcher.start _ (length files)) as [d0|] eqn:Hs; [|discriminate].
    pose proof (run_returns_entries outcome _ _ schedule d0 d results Hs Hr Hb) as Hres.
    split; [exact Hres|]. intros Hnc. rewrite Hres. unfold Dispatcher.successes.
    apply (entries_successes outcome). intros i Hi.
    apply Hnc. apply list_elem_of_In, elem_of_seq in Hi. lia.
  - intros file r. rewrite successes_spec. split.
    + intros (i & Hi & Ho). exists i. split; [|exact Ho].
      apply (job_outcome_file settings no_cache files envs i file r Ho).
    + intros (i & Hf & Ho). exists i. split; [|exact Ho].
      apply lookup_lt_Some in Hf. exact Hf.
  - unfold Dispatcher.successes.
    apply (selected_sublist fst files
             (fun i => match outcome i with Review.JobReturns v => v | _ => None end) 0).
    intros i [f r] Hp. simpl in *.
    destruct (outcome i) as [v| | |] eqn:Ho; try discriminate. subst v.
    apply (job_outcome_file settings no_cache files envs i f r Ho).
  - intros Hn Hm Hq schedule d Hr.
    pose proof (concurrency_limit_positive _ _ Hn Hm) as HK.
    assert (Hall : forall i, Slots.ends_quietly (outcome i) = true).
    { intros i. destruct (Nat.lt_ge_cases i (length files)) as [Hi|Hi]; [auto|].
      unfold outcome, Dispatcher.job_outcome.
      rewrite (lookup_ge_None_2 files i Hi). reflexivity. }
    unfold Dispatcher.review in *.
    destruct (Dispatcher.start _ (length files)) as [d0|] eqn:Hs; [|discriminate].
    apply (every_schedule_completes outcome _ _ schedule d0 d HK Hall Hs Hr).
Qed.


(** ** C7: failed jobs and the fatal configuration error *)

(** Let job [i] of a batch hold a slot and fail with the error [e]
    (raised by the context extraction or by the agent run).  When the
    test of the [RuntimeError] handler (line 333) recognises [e] as a
    configuration error, the job calls [sys.exit(1)]: when it ends the
    batch is over with exit code 1, its slot is given back and no job
    gets a slot any more.  Otherwise the job returns [None]: when it
    ends, its slot is given back, only its own entry changes, the batch
    is not stopped, and the job contributes nothing to the result
    list. *)
Lemma failed_job_at_its_end
    (settings : Review.Settings) (no_cache : bool) (files : list string)
    (envs : nat -> Review.JobEnv) (d : Dispatcher.State) (i : nat)
    (file_path : string) (e : Exception) :
  let outcome := Dispatcher.job_outcome settings no_cache files envs in
  files !! i = Some file_path ->
  fst (fst (Review.job_body settings no_cache file_path (envs i) ∅)) = Review.BodyRaises e ->
  Dispatcher.halted d = None ->
  Dispatcher.phases d !! i = Some Dispatcher.Running ->
  if Slots.is_fatal e
  then
    outcome i = Review.JobExits 1 /\
    exists d',
      Dispatcher.step outcome d (Dispatcher.Release i) = Some d' /\
      Dispatcher.batch_outcome d' = Some (Dispatcher.BatchExits 1) /\
      Dispatcher.sem_value d' = Dispatcher.sem_value d + 1 /\
      forall j, Dispatcher.step outcome d' (Dispatcher.Acquire j) = None
  else
    outcome i = Review.JobReturns None /\
    Slots.success outcome i = None /\
    Slots.entry outcome i = None /\
    exists d',
      Dispatcher.step outcome d (Dispatcher.Release i) = Some d' /\
      Dispatcher.halted d' = None /\
      Dispatcher.sem_value d' = Dispatcher.sem_value d + 1 /\
      Dispatcher.phases d' =
        <[i := Dispatcher.Done (Dispatcher.Value None)]> (Dispatcher.phases d) /\
      forall j, j <> i -> Dispatcher.phases d' !! j = Dispatcher.phases d !! j.
Proof.
  intros outcome Hf Hb Hh Hp.
  assert (Ho : outcome i = if Slots.is_fatal e then Review.JobExits 1
                           else Review.JobReturns None).
  { unfold outcome, Dispatcher.job_outcome. rewrite Hf, review_single_file_outcome, Hb.
    apply on_exception_outcome. }
  destruct (Slots.is_fatal e).
  - split; [exact Ho|].
    eexists. unfold Dispatcher.step. rewrite Hh, Hp, Ho.
    split; [reflexivity|]. split; [reflexivity|]. split; [reflexivity|].
    intros j. reflexivity.
  - split; [exact Ho|]. split; [unfold Slots.success; rewrite Ho; reflexivity|].
    split; [unfold Slots.entry; rewrite Ho; reflexivity|].
    eexists. unfold Dispatcher.step. rewrite Hh, Hp, Ho.
    split; [reflexivity|]. simpl. repeat split.
    intros j Hj. apply list_lookup_insert_ne. auto.
Qed.

(** The batch whose second job finds no provider credentials, the
    three jobs holding a slot: the batch ends with exit code 1. *)
Example missing_credentials_abort :
  Dispatcher.job_outcome SampleJobs.cache_on false SampleBatch.files
    SampleBatch.envs_unconfigured 1 = Review.JobExits 1 /\
  exists d',
    Dispatcher.step
      (Dispatcher.job_outcome SampleJobs.cache_on false SampleBatch.files
         SampleBatch.envs_unconfigured)
      SampleBatch.all_running (Dispatcher.Release 1) = Some d' /\
    Dispatcher.batch_outcome d' = Some (Dispatcher.BatchExits 1).
Proof.
  split; [vm_compute; reflexivity|]. eexists. split; vm_compute; reflexivity.
Qed.

(** The same batch with an ordinary failure in the second job: the job
    is dropped and the batch goes on. *)
Example ordinary_failure_is_dropped :
  Dispatcher.job_outcome SampleJobs.cache_on false SampleBatch.files SampleBatch.envs 1
    = Review.JobReturns None /\
  (exists d, Dispatcher.review SampleJobs.cache_on false SampleBatch.files SampleBatch.envs
               SampleBatch.reversed = Some d /\
     Dispatcher.batch_outcome d =
       Some (Dispatcher.BatchReturns
               [Dispatcher.Reviewed ("a.py", Samples.review_ok);
                Dispatcher.Reviewed ("c.py", Samples.review_ok)])).
Proof.
  split; [vm_compute; reflexivity|].
  eexists. split; vm_compute; reflexivity.
Qed.

(** C7: a credentials error that mentions the API key does not abort
    the batch.  The second disjunct of the configuration-error test
    (line 333) looks for "API key", capitals included, in the lowered
    message, so it never holds.  In the batch of three files whose
    second job fails with the [RuntimeError] "API key is missing for
    the configured provider", the message contains "API key", yet the
    test fails: the job is treated as an ordinary failure and returns
    [None], no schedule ever stops the batch, and the batch returns the
    results of the two other jobs. *)
Theorem api_key_error_does_not_abort :
  let outcome :=
    Dispatcher.job_outcome SampleJobs.cache_on false SampleBatch.files
      SampleBatch.envs_api_key in
  (forall error_msg, Text.str_in "API key" (Text.lower error_msg) = false) /\
  exc_class SampleJobs.error_api_key = RuntimeErrorK /\
  Text.str_in "API key" (exc_msg SampleJobs.error_api_key) = true /\
  is_configuration_error SampleJobs.error_api_key = false /\
  fst (fst (Review.job_body SampleJobs.cache_on false "b.py" SampleJobs.api_key_job ∅))
    = Review.BodyRaises SampleJobs.error_api_key /\
  Review.review_single_file SampleJobs.cache_on false "b.py" SampleJobs.api_key_job ∅
    = (Review.JobReturns None, ∅,
       snd (Review.job_body SampleJobs.cache_on false "b.py" SampleJobs.api_key_job ∅)
       ++ [Review.JFinish false (Some "RuntimeError")])%list /\
  outcome 1%nat = Review.JobReturns None /\
  (forall schedule d,
     Dispatcher.review SampleJobs.cache_on false SampleBatch.files
       SampleBatch.envs_api_key schedule = Some d ->
     Dispatcher.halted d = None) /\
  (exists d,
     Dispatcher.review SampleJobs.cache_on false SampleBatch.files
       SampleBatch.envs_api_key SampleBatch.reversed = Some d /\
     Dispatcher.batch_outcome d =
       Some (Dispatcher.BatchReturns
               [Dispatcher.Reviewed ("a.py", Samples.review_ok);
                Dispatcher.Reviewed ("c.py", Samples.review_ok)])).
Proof.
  intros outcome.
  split; [intros error_msg; apply str_in_lower_capital|].
  split; [reflexivity|]. split; [vm_compute; reflexivity|].
  split; [vm_compute; reflexivity|]. split; [vm_compute; reflexivity|].
  split; [vm_compute; reflexivity|]. split; [vm_compute; reflexivity|].
  split.
  - intros schedule d Hr. unfold Dispatcher.review in Hr.
    destruct (Dispatcher.start _ _) as [d0|] eqn:Hs; [|discriminate].
    assert (Hq : forall i, Slots.ends_quietly (outcome i) = true).
    { intros [|[|[|i]]]; vm_compute; reflexivity. }
    assert (H0 : Dispatcher.halted d0 = None /\
                 Forall (fun p => p <> Dispatcher.Ended) (Dispatcher.phases d0)).
    { vm_compute in Hs. injection Hs as <-. split; [reflexivity|].
      repeat constructor; discriminate. }
    destruct H0 as [Hh0 He0].
    exact (proj1 (run_not_ended outcome schedule d0 d Hq Hh0 He0 Hr)).
  - eexists. split; vm_compute; reflexivity.
Qed.

(** ** C6 at work *)

(** The cached job of the samples: three actions, none of the agent. *)
Lemma cache_hit_short_circuits_witness :
  fst (fst (Review.review_single_file SampleJobs.cache_on false "c.py"
              SampleJobs.cached_job ∅))
    = Review.JobReturns (Some ("c.py", Samples.review_ok)) /\
  snd (fst (Review.review_single_file SampleJobs.cache_on false "c.py"
              SampleJobs.cached_job ∅)) = ∅ /\
  snd (Review.review_single_file SampleJobs.cache_on false "c.py" SampleJobs.cached_job ∅)
    = [Review.JExtract "c.py"; Review.JCacheGet "c.py"; Review.JFinish true None].
Proof.
  exact (proj1 (cache_hit_short_circuits SampleJobs.cache_on false "c.py"
                  SampleJobs.cached_job ∅)
           eq_refl eq_refl "<xml/>" Samples.review_ok eq_refl eq_refl).
Defined.

(** * Further properties of the embedded code *)

(** ** The event router: tool calls and their results *)

Section RouterMore.

Import Streaming Reading.

Lemma event_stream_handler_app (dw : bool) (l1 l2 : list (Event * bool)) (st : State) :
  event_stream_handler dw st (l1 ++ l2) =
  (fst (event_stream_handler dw (fst (event_stream_handler dw st l1)) l2),
   (snd (event_stream_handler dw st l1) ++
    snd (event_stream_handler dw (fst (event_stream_handler dw st l1)) l2))%list).
Proof.
  revert st. induction l1 as [|[ev a] l1 IH]; intros st; simpl.
  - destruct (event_stream_handler dw st l2). reflexivity.
  - destruct (handle_event dw a st ev) as [st1 o1]. rewrite (IH st1).
    destruct (event_stream_handler dw st1 l1) as [st2 o2]. simpl.
    destruct (event_stream_handler dw st2 l2) as [st3 o3]. simpl.
    rewrite app_assoc. reflexivity.
Qed.

Lemma update_status_tracked (s : string) (st : State) :
  tool_calls_tracked (fst (update_status s st)) = tool_calls_tracked st.
Proof. unfold update_status. destruct (String.eqb s (last_status st)); reflexivity. Qed.

(** Only a call event under the id [id] changes what is tracked for
    [id]. *)
Lemma handle_event_tracked (dw active : bool) (st : State) (ev : Event) (id : string) :
  is_call_of id ev = false ->
  tool_calls_tracked (fst (handle_event dw active st ev)) !! id
  = tool_calls_tracked st !! id.
Proof.
  intros Hne. destruct ev as [[tn cid args|]|txt|tn cid|cid c e| |]; simpl.
  - pose proof (update_status_tracked ("Calling tool: " ++ tn ++ "...") st) as H.
    destruct (update_status _ st) as [st1 o]. simpl in *. rewrite H. reflexivity.
  - rewrite update_status_tracked. reflexivity.
  - destruct (txt && negb active)%bool; [rewrite update_status_tracked|]; reflexivity.
  - rewrite update_status_tracked. simpl.
    destruct cid as [id'|]; [|reflexivity]. simpl in Hne.
    destruct (Text.truthy id'); [|reflexivity].
    apply lookup_insert_ne. intros ->. rewrite String.eqb_refl in Hne. discriminate.
  - destruct dw; reflexivity.
  - rewrite update_status_tracked. reflexivity.
  - reflexivity.
Qed.

Lemma event_stream_handler_tracked (dw : bool) (evs : list (Event * bool)) (st : State)
    (id : string) :
  no_call_of id evs = true ->
  tool_calls_tracked (fst (event_stream_handler dw st evs)) !! id
  = tool_calls_tracked st !! id.
Proof.
  revert st. induction evs as [|[ev a] evs IH]; intros st H; simpl in *; [reflexivity|].
  apply andb_prop in H as [H1 H2]. apply negb_true_iff in H1.
  pose proof (handle_event_tracked dw a st ev id H1) as Hh.
  destruct (handle_event dw a st ev) as [st1 o1]. simpl in Hh.
  specialize (IH st1 H2).
  destruct (event_stream_handler dw st1 evs) as [st2 o2]. simpl in *. congruence.
Qed.

Lemma handle_call_tracks (dw active : bool) (st : State) (tool_name id : string) :
  Text.truthy id = true ->
  tool_calls_tracked
    (fst (handle_event dw active st (FunctionToolCallEvent tool_name (Some id)))) !! id
  = Some tool_name.
Proof.
  intros Ht. simpl. rewrite update_status_tracked. simpl. rewrite Ht.
  apply lookup_insert_eq.
Qed.

Lemma event_stream_handler_app_state (dw : bool) (l1 l2 : list (Event * bool))
    (st : State) :
  fst (event_stream_handler dw st (l1 ++ l2)) =
  fst (event_stream_handler dw (fst (event_stream_handler dw st l1)) l2).
Proof. rewrite event_stream_handler_app. reflexivity. Qed.

Lemma event_stream_handler_cons_state (dw a : bool) (ev : Event)
    (rest : list (Event * bool)) (st : State) :
  fst (event_stream_handler dw st ((ev, a) :: rest)) =
  fst (event_stream_handler dw (fst (handle_event dw a st ev)) rest).
Proof.
  simpl. destruct (handle_event dw a st ev) as [st1 o1]. simpl.
  destruct (event_stream_handler dw st1 rest). reflexivity.
Qed.

(** The entry written for a result event that ends a stream. *)
Lemma result_event_last (evs : list (Event * bool)) (st : State) (id : string)
    (content error : option string) (a : bool) :
  last (snd (event_stream_handler true st
               (evs ++ [(FunctionToolResultEvent id content error, a)])))
  = Some (AAudit (ToolOutput
            (default "unknown_tool"
               (tool_calls_tracked (fst (event_stream_handler true st evs)) !! id))
            content id error)).
Proof.
  rewrite event_stream_handler_app. simpl. apply last_snoc.
Qed.

End RouterMore.

(** X1: a tool result is logged under the name of the tool call that
    announced its id.  If a call event for tool [tool_name] with a
    non-empty id is followed, after any events that do not announce
    that id again, by the result event for the id, the audit entry
    written for the result (the last thing the handler emits) names
    [tool_name]; if the id was never announced (nothing tracked for it
    and no call event for it), the entry names "unknown_tool". *)
Theorem tool_result_named_after_its_call
    (st : Streaming.State) (tool_name id : string)
    (content error : option string) (a0 a1 : bool)
    (before between : list (Streaming.Event * bool)) :
  Text.truthy id = true ->
  Reading.no_call_of id before = true ->
  Reading.no_call_of id between = true ->
  last (snd (Streaming.event_stream_handler true st
         (before ++ (Streaming.FunctionToolCallEvent tool_name (Some id), a0) ::
          between ++ [(Streaming.FunctionToolResultEvent id content error, a1)])))
    = Some (AAudit (ToolOutput tool_name content id error)) /\
  (Streaming.tool_calls_tracked st !! id = None ->
   last (snd (Streaming.event_stream_handler true st
          (before ++ [(Streaming.FunctionToolResultEvent id content error, a1)])))
     = Some (AAudit (ToolOutput "unknown_tool" content id error))).
Proof.
  intros Ht Hb Hw. split.
  - replace (before ++ (Streaming.FunctionToolCallEvent tool_name (Some id), a0) ::
             between ++ [(Streaming.FunctionToolResultEvent id content error, a1)])%list
      with ((before ++ (Streaming.FunctionToolCallEvent tool_name (Some id), a0) ::
             between) ++ [(Streaming.FunctionToolResultEvent id content error, a1)])%list
      by (rewrite <- app_assoc; reflexivity).
    rewrite result_event_last.
    assert (Htr : Streaming.tool_calls_tracked
              (fst (Streaming.event_stream_handler true st
                      (before ++ (Streaming.FunctionToolCallEvent tool_name (Some id), a0) ::
                       between))) !! id = Some tool_name).
    { rewrite event_stream_handler_app_state, event_stream_handler_cons_state.
      rewrite (event_stream_handler_tracked true between _ id Hw).
      apply handle_call_tracks. exact Ht. }
    rewrite Htr. reflexivity.
  - intros Hnone. rewrite result_event_last.
    rewrite (event_stream_handler_tracked true before st id Hb), Hnone. reflexivity.
Qed.

(** The theorem at work: the result of call "c1" is filed under
    "read_file" although another call came in between. *)
Lemma tool_result_named_after_its_call_witness :
  last (snd (Streaming.event_stream_handler true Streaming.initial
         ([] ++ (Streaming.FunctionToolCallEvent "read_file" (Some "c1"), true) ::
          [(Streaming.FunctionToolCallEvent "grep" (Some "c2"), true)] ++
          [(Streaming.FunctionToolResultEvent "c1" (Some "text") None, true)])))
    = Some (AAudit (ToolOutput "read_file" (Some "text") "c1" None)).
Proof.
  exact (proj1 (tool_result_named_after_its_call Streaming.initial "read_file" "c1"
                  (Some "text") None true true []
                  [(Streaming.FunctionToolCallEvent "grep" (Some "c2"), true)]
                  eq_refl eq_refl eq_refl)).
Defined.

(** ** The event router with and without a debug writer *)

Section RouterWriter.

Import Streaming.

Lemma update_status_output (s : string) (st : State) :
  snd (update_status s st) = map ARouterStatus (router_statuses (snd (update_status s st))).
Proof. unfold update_status. destruct (String.eqb s (last_status st)); reflexivity. Qed.

Lemma handle_event_writer (active : bool) (st : State) (ev : Event) :
  fst (handle_event false active st ev) = fst (handle_event true active st ev) /\
  snd (handle_event false active st ev)
  = map ARouterStatus (router_statuses (snd (handle_event true active st ev))).
Proof.
  destruct ev as [[tn cid args|]|txt|tn cid|cid c e| |]; simpl;
    try (split; [reflexivity|apply update_status_output]);
    try (split; reflexivity).
  - pose proof (update_status_output ("Calling tool: " ++ tn ++ "...") st) as H.
    destruct (update_status _ st) as [st1 o]. simpl in *. auto.
  - destruct (txt && negb active)%bool;
      [split; [reflexivity|apply update_status_output]|split; reflexivity].
Qed.

End RouterWriter.

(** X2: the debug writer does not influence the statuses.  Without a
    writer the handler emits statuses only (no audit entry), and they
    are the statuses it emits with a writer, in the same order; the
    closure state it ends in is the same too. *)
Theorem router_statuses_do_not_depend_on_writer
    (st : Streaming.State) (evs : list (Streaming.Event * bool)) :
  fst (Streaming.event_stream_handler false st evs)
    = fst (Streaming.event_stream_handler true st evs) /\
  snd (Streaming.event_stream_handler false st evs)
    = map ARouterStatus
        (router_statuses (snd (Streaming.event_stream_handler true st evs))).
Proof.
  revert st. induction evs as [|[ev a] evs IH]; intros st; simpl; [auto|].
  destruct (handle_event_writer a st ev) as [Hs Ho].
  destruct (Streaming.handle_event false a st ev) as [s1 o1].
  destruct (Streaming.handle_event true a st ev) as [s2 o2]. simpl in *. subst s2.
  destruct (IH s1) as [Hs' Ho'].
  destruct (Streaming.event_stream_handler false s1 evs) as [s3 o3].
  destruct (Streaming.event_stream_handler true s1 evs) as [s4 o4]. simpl in *.
  split; [exact Hs'|].
  rewrite router_statuses_app, map_app, Ho, Ho'. reflexivity.
Qed.

(** X3: while the spinner loop is running, text deltas do not touch the
    status line: if [spinner.active] holds at every event of a stream,
    the handler never emits "Writing review...". *)
Theorem no_writing_status_while_spinner_active
    (dw : bool) (st : Streaming.State) (evs : list (Streaming.Event * bool)) :
  Reading.spinner_always_active evs = true ->
  ~ In "Writing review..."
       (router_statuses (snd (Streaming.event_stream_handler dw st evs))).
Proof.
  assert (Hu : forall s x, s <> "Writing review..." ->
            ~ In "Writing review..." (router_statuses (snd (Streaming.update_status s x)))).
  { intros s x Hs. unfold Streaming.update_status.
    destruct (String.eqb s (Streaming.last_status x)); simpl; [tauto|].
    intros [H|[]]. congruence. }
  revert st. induction evs as [|[ev a] evs IH]; intros st Hact; simpl in *; [tauto|].
  apply andb_prop in Hact as [Ha Hrest]. simpl in Ha. subst a.
  assert (H1 : ~ In "Writing review..."
                 (router_statuses (snd (Streaming.handle_event dw true st ev)))).
  { destruct ev as [[tn cid args|]|txt|tn cid|cid c e| |]; simpl;
      try (apply Hu; discriminate); try tauto.
    - specialize (Hu ("Calling tool: " ++ tn ++ "...") st).
      destruct (Streaming.update_status _ st) as [s1 o].
      destruct dw; simpl in *; apply Hu; discriminate.
    - rewrite andb_false_r. simpl. tauto.
    - destruct dw; simpl; tauto. }
  destruct (Streaming.handle_event dw true st ev) as [s1 o1].
  specialize (IH s1 Hrest).
  destruct (Streaming.event_stream_handler dw s1 evs) as [s2 o2]. simpl in *.
  rewrite router_statuses_app. intros Hin. apply in_app_or in Hin. tauto.
Qed.

(** The theorem at work on a stream of two text deltas. *)
Lemma no_writing_status_while_spinner_active_witness :
  router_statuses (snd (Streaming.event_stream_handler true Streaming.initial
     [(Streaming.PartDeltaEvent true, true); (Streaming.PartDeltaEvent true, true)])) = []
  /\
  ~ In "Writing review..."
       (router_statuses (snd (Streaming.event_stream_handler true Streaming.initial
          [(Streaming.PartDeltaEvent true, true); (Streaming.PartDeltaEvent true, true)]))).
Proof.
  split; [reflexivity|].
  exact (no_writing_status_while_spinner_active true Streaming.initial
           [(Streaming.PartDeltaEvent true, true); (Streaming.PartDeltaEvent true, true)]
           eq_refl).
Defined.

(** ** The controller: clean-up, registry and audit trail *)

(** X4: [cleanup_spinner_task] can be called again without harm (the
    error path of an attempt runs it in the handler and once more in the
    [finally] clause).  The first call stops the spinner and, unless the
    task is already done, cancels and awaits it, leaving it done; a
    second call only stops the spinner and changes nothing: a task is
    cancelled and awaited at most once. *)
Theorem cleanup_spinner_task_twice (t : nat) (w : Executor.World) :
  let first := Executor.cleanup_spinner_task (Some t) w in
  let second := Executor.cleanup_spinner_task (Some t) (snd (fst first)) in
  snd first =
    (match Executor.tasks w !! t with
     | Some Executor.TDone => [ASpinnerStop]
     | _ => [ASpinnerStop; ATaskCancel t; ATaskJoin t]
     end) /\
  Executor.tasks (snd (fst first)) !! t = Some Executor.TDone /\
  snd second = [ASpinnerStop] /\
  snd (fst second) = snd (fst first).
Proof.
  unfold Executor.cleanup_spinner_task, Executor.bind, Executor.emit, Executor.done,
    Executor.cancel, Executor.join, Executor.ret.
  simpl. destruct (Executor.tasks w !! t) as [[| |]|] eqn:Ht; simpl;
    rewrite ?lookup_insert_eq, ?Ht; simpl; repeat split; reflexivity.
Qed.

Section RegistryMore.

Import Executor Flat Log Reading.

Lemma driver_entries_router (l : list Act) : Forall router_act l -> driver_entries l = [].
Proof.
  apply flat_map_router_acts. intros [] H; try reflexivity.
  destruct e; try destruct H; reflexivity.
Qed.

Lemma driver_entries_history (h : list AuditEntry) :
  forallb is_tool_entry h = true ->
  flat_map (fun a => match a with
                     | AAudit e => if is_tool_entry e then [] else [e]
                     | _ => []
                     end) (map AAudit h) = [].
Proof.
  induction h as [|e h IH]; simpl; [reflexivity|].
  intros H. apply andb_prop in H as [He Hh]. rewrite He. simpl. auto.
Qed.

Lemma driver_entries_attempt_log (max_retries : nat) (enabled : bool) (key : string)
    (attempt : nat) (att : Attempt) (out : list Act) :
  Forall router_act out ->
  forallb is_tool_entry (history_outputs att) = true ->
  driver_entries (attempt_log max_retries enabled key attempt att out) =
  closing_entry (result_of (attempt_control max_retries attempt (ending att))).
Proof.
  intros Hout Hh. apply driver_entries_router in Hout.
  pose proof (driver_entries_history _ Hh) as Hhist. unfold driver_entries in *.
  split_attempt_log max_retries attempt;
    repeat (rewrite flat_map_app; simpl);
    rewrite ?Hout; simpl in Hhist; rewrite ?Hhist; reflexivity.
Qed.

Lemma loop_flat_driver_entries (max_retries : nat) (enabled : bool) (key : string)
    (script : nat -> Attempt) (todo : list nat)
    (reg : gmap string (option string)) (st : Streaming.State) :
  history_is_tool_output script ->
  driver_entries (snd (loop_flat max_retries enabled key script todo reg st)) =
  closing_entry (fst (fst (fst (loop_flat max_retries enabled key script todo reg st)))).
Proof.
  intros Hh. revert reg st. induction todo as [|a rest IH]; intros reg st; simpl;
    [reflexivity|].
  pose proof (driver_entries_attempt_log max_retries enabled key a (script a) _
                (event_stream_handler_router_acts true (events (script a)) st) (Hh a)) as Ha.
  destruct (attempt_control max_retries a (ending (script a))) eqn:Hc; simpl in *;
    try exact Ha.
  specialize (IH (attempt_registry max_retries key a (script a) reg)
                 (fst (Streaming.event_stream_handler true st (events (script a))))).
  destruct (loop_flat max_retries enabled key script rest _ _) as [[[res reg2] st2] l2].
  simpl in *. unfold driver_entries in *. rewrite flat_map_app, Ha, IH. reflexivity.
Qed.

End RegistryMore.

(** X5: what a run leaves in the shared registry.  After
    [run_agent_review] the registry is the one it found with the job's
    key removed (whatever was stored under that key before, also an
    entry of another job reviewing the same path), except after a
    cancellation, where it is the one it found with the job's writer
    stored under the key.  The entries under all other keys are never
    touched. *)
Theorem registry_after_run
    (key : string) (review_id : option string) (debug_enabled enabled : bool)
    (script : nat -> Executor.Attempt) (w : Executor.World) :
  let run := Executor.run_agent_review key review_id debug_enabled enabled script w in
  Executor.registry (snd (fst run)) =
    (match fst (fst run) with
     | Executor.Cancellation => <[key := review_id]> (Executor.registry w)
     | _ => delete key (Executor.registry w)
     end) /\
  (forall other, other <> key ->
     Executor.registry (snd (fst run)) !! other = Executor.registry w !! other).
Proof.
  intros run.
  assert (H : Executor.registry (snd (fst run)) =
    (match fst (fst run) with
     | Executor.Cancellation => <[key := review_id]> (Executor.registry w)
     | _ => delete key (Executor.registry w)
     end)).
  { subst run.
    pose proof (run_result_inside_loop key review_id debug_enabled enabled script w) as Hft.
    unfold Executor.run_agent_review in *.
    destruct (run_with_flat Executor.max_retries key review_id debug_enabled enabled
                script w) as [tk Heq]. rewrite Heq in *. clear Heq.
    pose proof (loop_flat_registry Executor.max_retries enabled key script
                  (seq 0 Executor.max_retries)
                  (<[key := review_id]> (Executor.registry w)) Streaming.initial) as Hr.
    cbv zeta in Hr.
    destruct (Flat.loop_flat _ _ _ _ _ _ _) as [[[res reg] st] l]. simpl in *.
    destruct Hr as [_ Hr].
    destruct res; destruct Hr as [-> _]; try rewrite delete_insert_eq; try reflexivity.
    contradiction. }
  split; [exact H|].
  intros other Hne. rewrite H.
  destruct (fst (fst run));
    rewrite ?lookup_delete_ne, ?lookup_insert_ne by congruence; reflexivity.
Qed.

(** X6: the audit trail of a run is closed exactly once, by the final
    outcome.  Apart from tool activity, the entries written during
    [run_agent_review] are: the context snapshot (when the writer is
    enabled), the user prompt, and then the agent response when the run
    returns, or one error entry for the error that is re-raised, or
    nothing when the run is cancelled.  Errors of attempts that are
    retried leave no entry. *)
Theorem audit_trail_closed_by_final_outcome
    (key : string) (review_id : option string) (debug_enabled enabled : bool)
    (script : nat -> Executor.Attempt) (w : Executor.World) :
  Reading.history_is_tool_output script ->
  let run := Executor.run_agent_review key review_id debug_enabled enabled script w in
  Reading.driver_entries (snd run) =
    ((if debug_enabled then [ContextSnapshot] else []) ++ [UserPrompt] ++
     Reading.closing_entry (fst (fst run)))%list.
Proof.
  intros Hh run. subst run. unfold Executor.run_agent_review.
  destruct (run_with_flat Executor.max_retries key review_id debug_enabled enabled
              script w) as [tk ->].
  pose proof (loop_flat_driver_entries Executor.max_retries enabled key script
                (seq 0 Executor.max_retries)
                (<[key := review_id]> (Executor.registry w)) Streaming.initial Hh) as Hl.
  destruct (Flat.loop_flat _ _ _ _ _ _ _) as [[[res reg] st] l]. simpl in *.
  unfold Reading.driver_entries in *. rewrite flat_map_app, Hl.
  destruct debug_enabled; reflexivity.
Qed.

(** The theorem at work on scenario B: two rate-limit errors are
    retried and leave no entry; the trail is the prompt and the
    response. *)
Lemma audit_trail_closed_by_final_outcome_witness :
  Reading.driver_entries
    (snd (Executor.run_agent_review "a.py" (Some "r1") false true
            Samples.twice_429 Samples.empty_world))
  = ([] ++ [UserPrompt] ++
     Reading.closing_entry
       (fst (fst (Executor.run_agent_review "a.py" (Some "r1") false true
                    Samples.twice_429 Samples.empty_world))))%list.
Proof.
  refine (audit_trail_closed_by_final_outcome "a.py" (Some "r1") false true
            Samples.twice_429 Samples.empty_world _).
  intros [|[|n]]; reflexivity.
Defined.

(** ** One job: cache switch and metrics *)

Section JobMore.

Import Executor Review JobReading.

Lemma cache_actions_run (l : list Act) : cache_actions (map JRun l) = [].
Proof. induction l; simpl; auto. Qed.

Lemma finishes_run (l : list Act) : finishes (map JRun l) = [].
Proof. induction l; simpl; auto. Qed.

Lemma on_exception_finishes (e : Exception) :
  finishes (snd (on_exception e)) = [(false, Some (reported_type e))].
Proof.
  unfold on_exception, reported_type.
  destruct (exc_class e); try reflexivity. destruct (is_configuration_error e); reflexivity.
Qed.

Lemma on_exception_cache_actions (e : Exception) :
  cache_actions (snd (on_exception e)) = [].
Proof.
  unfold on_exception.
  destruct (exc_class e); try reflexivity. destruct (is_configuration_error e); reflexivity.
Qed.

Lemma on_exception_cases (e : Exception) :
  fst (on_exception e) = JobReturns None \/ fst (on_exception e) = JobExits 1.
Proof.
  unfold on_exception.
  destruct (exc_class e); auto. destruct (is_configuration_error e); auto.
Qed.

End JobMore.

(** X7: with caching switched off ([--no-cache], or the global flag
    unset) the cache plays no part in a job: the job neither reads nor
    writes it, and it does exactly what it would do with an empty cache
    -- same outcome, same registry, same actions -- whatever the cache
    holds for the file. *)
Theorem disabled_cache_is_never_consulted
    (settings : Review.Settings) (no_cache : bool) (file_path : string)
    (env : Review.JobEnv) (reg : gmap string (option string)) :
  (negb no_cache && Review.enable_cache settings)%bool = false ->
  Review.review_single_file settings no_cache file_path env reg
    = Review.review_single_file settings no_cache file_path
        (JobReading.without_cache env) reg /\
  JobReading.cache_actions
    (snd (Review.review_single_file settings no_cache file_path env reg)) = [].
Proof.
  intros Hoff. unfold Review.review_single_file, Review.job_body, JobReading.without_cache.
  simpl. rewrite Hoff.
  destruct (Review.context env) as [packed_xml|e]; simpl.
  2: { pose proof (on_exception_cache_actions e) as Hc.
       destruct (Review.on_exception e) as [o l]. simpl in *. auto. }
  destruct (Executor.run_agent_review _ _ _ _ _ _) as [[res w] l].
  destruct res as [r|e| |]; simpl;
    try (pose proof (on_exception_cache_actions e) as Hc;
         destruct (Review.on_exception e) as [o l']; simpl in *);
    try (pose proof (on_exception_cache_actions Review.fell_through_error) as Hc;
         destruct (Review.on_exception Review.fell_through_error) as [o l']; simpl in *);
    (split; [reflexivity|]);
    unfold JobReading.cache_actions in *;
    repeat (rewrite flat_map_app; simpl);
    try fold (JobReading.cache_actions (map Review.JRun l));
    rewrite ?cache_actions_run, ?Hc; reflexivity.
Qed.

(** The theorem at work: the cached job of the samples run with
    [--no-cache] leaves the cache alone. *)
Lemma disabled_cache_is_never_consulted_witness :
  JobReading.cache_actions
    (snd (Review.review_single_file SampleJobs.cache_on true "c.py"
            SampleJobs.cached_job ∅)) = [].
Proof.
  exact (proj2 (disabled_cache_is_never_consulted SampleJobs.cache_on true "c.py"
                  SampleJobs.cached_job ∅ eq_refl)).
Defined.

Section JobShape.

Import Executor Review JobReading.

(** The three ways through [_review_single_file]. *)
Lemma review_single_file_shape (settings : Settings) (no_cache : bool)
    (file_path : string) (env : JobEnv) (reg : gmap string (option string)) :
  let run := review_single_file settings no_cache file_path env reg in
  exists pre, finishes pre = [] /\
    ((exists r, fst (fst run) = JobReturns (Some (file_path, r)) /\
                snd run = (pre ++ [JFinish true None])%list) \/
     (exists e, fst (fst run) = fst (on_exception e) /\
                snd run = (pre ++ snd (on_exception e))%list) \/
     (fst (fst run) = JobCancelled /\ snd run = pre)).
Proof.
  unfold review_single_file, job_body.
  destruct (context env) as [packed_xml|e]; simpl.
  2: { exists [JExtract file_path]. split; [reflexivity|]. right; left. exists e.
       destruct (on_exception e). auto. }
  set (lookup := if (negb no_cache && enable_cache settings)%bool
                 then [JCacheGet file_path] else []).
  assert (Hl : finishes lookup = [])
    by (subst lookup; destruct (negb no_cache && enable_cache settings)%bool; reflexivity).
  destruct (if (negb no_cache && enable_cache settings)%bool then cached_data env else None)
    as [r|]; simpl.
  { exists (JExtract file_path :: lookup). split; [exact Hl|]. left. exists r.
    split; [reflexivity|]. reflexivity. }
  destruct (run_agent_review _ _ _ _ _ _) as [[res w] l].
  assert (Hpre : finishes (JExtract file_path :: lookup ++ map JRun l) = []).
  { unfold finishes in *. simpl. rewrite flat_map_app, Hl. apply finishes_run. }
  destruct res as [r|e| |]; simpl.
  - exists (JExtract file_path :: lookup ++ map JRun l ++
            (if (negb no_cache && enable_cache settings)%bool
             then [JCachePut file_path r] else []))%list.
    split.
    + unfold finishes in *. simpl. rewrite !flat_map_app, Hl.
      fold (finishes (map JRun l)). rewrite finishes_run.
      destruct (negb no_cache && enable_cache settings)%bool; reflexivity.
    + left. exists r. split; [reflexivity|].
      simpl. rewrite <- !app_assoc. reflexivity.
  - exists (JExtract file_path :: lookup ++ map JRun l)%list. split; [exact Hpre|].
    right; left. exists e. destruct (on_exception e). simpl. auto.
  - exists (JExtract file_path :: lookup ++ map JRun l)%list. split; [exact Hpre|].
    right; right. auto.
  - exists (JExtract file_path :: lookup ++ map JRun l)%list. split; [exact Hpre|].
    right; left. exists fell_through_error. split; reflexivity.
Qed.

(** A job that exits does so with code 1. *)
Lemma review_single_file_exit_code (settings : Settings) (no_cache : bool)
    (file_path : string) (env : JobEnv) (reg : gmap string (option string)) (code : Z) :
  fst (fst (review_single_file settings no_cache file_path env reg)) = JobExits code ->
  code = 1.
Proof.
  destruct (review_single_file_shape settings no_cache file_path env reg)
    as (pre & _ & [(r & Ho & _)|[(e & Ho & _)|(Ho & _)]]); rewrite Ho; try discriminate.
  destruct (on_exception_cases e) as [->| ->]; congruence.
Qed.

End JobShape.

(** X8: how a job ends and what it tells the metrics.  A job never lets
    an [Exception] escape: it returns the pair of its own file (after
    closing its metrics once, as a success), or returns [None] or exits
    with code 1 (after closing its metrics once, as a failure with an
    error type, which is "ConfigurationError" for the exit), or is
    cancelled -- and then [finish_review] is not called at all. *)
Theorem job_boundary
    (settings : Review.Settings) (no_cache : bool) (file_path : string)
    (env : Review.JobEnv) (reg : gmap string (option string)) :
  let run := Review.review_single_file settings no_cache file_path env reg in
  match fst (fst run) with
  | Review.JobReturns (Some (f, _)) =>
      f = file_path /\ JobReading.finishes (snd run) = [(true, None)]
  | Review.JobReturns None =>
      exists ty, JobReading.finishes (snd run) = [(false, Some ty)]
  | Review.JobExits code =>
      code = 1 /\ JobReading.finishes (snd run) = [(false, Some "ConfigurationError")]
  | Review.JobCancelled => JobReading.finishes (snd run) = []
  | Review.JobRaises _ => False
  end.
Proof.
  intros run. subst run.
  destruct (review_single_file_shape settings no_cache file_path env reg)
    as (pre & Hpre & [(r & Ho & Hl)|[(e & Ho & Hl)|(Ho & Hl)]]); rewrite Ho, Hl.
  - unfold JobReading.finishes in *. rewrite flat_map_app, Hpre. auto.
  - pose proof (on_exception_finishes e) as Hf.
    unfold JobReading.finishes in *. rewrite flat_map_app, Hpre, Hf. simpl.
    unfold Review.on_exception, JobReading.reported_type.
    destruct (exc_class e); simpl; eauto.
    destruct (is_configuration_error e); simpl; eauto.
  - exact Hpre.
Qed.

(** ** The dispatcher: limits, start, progress *)

(** X9: the floor of three never takes effect, and there are never
    more slots than jobs.  Beyond five files half the number of files is
    already at least 3, so the limit is simply
    [min(max_concurrent_reviews, n // 2)]; up to five files it is [n];
    in both cases it is at most [n], and beyond five files at most the
    configured maximum. *)
Theorem concurrency_limit_shape (configured_max : Z) (n : nat) :
  Dispatcher.concurrency_limit configured_max n =
    (if Z.of_nat n <=? 5 then Z.of_nat n else Z.min configured_max (Z.of_nat n / 2)) /\
  Dispatcher.concurrency_limit configured_max n <= Z.of_nat n /\
  (if Z.of_nat n <=? 5 then True
   else Dispatcher.concurrency_limit configured_max n <= configured_max).
Proof.
  unfold Dispatcher.concurrency_limit.
  destruct (Z.leb_spec (Z.of_nat n) 5) as [H|H].
  - repeat split; lia.
  - assert (3 <= Z.of_nat n / 2) by (apply Z.div_le_lower_bound; lia).
    assert (Z.of_nat n / 2 <= Z.of_nat n) by (apply Z.div_le_upper_bound; lia).
    repeat split; lia.
Qed.

(** X10: the batch cannot even start exactly when more than five files
    meet a negative configured maximum: only then is the semaphore
    created with a negative value, which raises [ValueError]. *)
Theorem batch_cannot_start_iff
    (settings : Review.Settings) (no_cache : bool) (files : list string)
    (envs : nat -> Review.JobEnv) :
  Dispatcher.review settings no_cache files envs [] = None <->
  (5 < length files)%nat /\ Review.max_concurrent_reviews settings < 0.
Proof.
  unfold Dispatcher.review, Dispatcher.start, Dispatcher.concurrency_limit. simpl.
  destruct (Z.leb_spec (Z.of_nat (length files)) 5) as [H|H].
  - replace (Z.of_nat (length files) <? 0) with false by (symmetry; apply Z.ltb_ge; lia).
    split; [discriminate|]. lia.
  - assert (3 <= Z.of_nat (length files) / 2) by (apply Z.div_le_lower_bound; lia).
    destruct (Z.ltb_spec (Z.min (Review.max_concurrent_reviews settings)
                            (Z.max 3 (Z.of_nat (length files) / 2))) 0) as [Hn|Hn].
    + split; [intros _; lia|reflexivity].
    + split; [discriminate|]. lia.
Qed.

Section DispatcherMore.

Import Review Dispatcher Slots.

Variable outcome : nat -> JobOutcome.



(** The shape of a scheduling event: a waiting task gets a free slot
    while the event loop runs; or a task holding a slot gives it back
    and is no longer waiting or running, the event loop stopping only
    when the task's job exits. *)
Lemma step_cases (d d' : State) (m : Move) :
  step outcome d m = Some d' ->
  (exists i, m = Acquire i /\ halted d = None /\ phases d !! i = Some Pending /\
             0 < sem_value d /\
             d' = mkState (sem_value d - 1) (<[i := Running]> (phases d)) None) \/
  (exists i p, m = Release i /\ phases d !! i = Some Running /\
               p <> Running /\ p <> Pending /\
               phases d' = <[i := p]> (phases d) /\
               sem_value d' = sem_value d + 1 /\
               (halted d' = halted d \/
                exists code, outcome i = JobExits code /\
                             halted d' = Some (Exited code))).
Proof.
  unfold step. intros Hs. destruct (halted d) as [h|] eqn:Hh.
  - destruct m as [i|i]; [discriminate|].
    destruct (phases d !! i) as [[| |item|]|] eqn:Hi; try discriminate.
    injection Hs as <-. right. exists i, Ended. simpl.
    repeat split; try discriminate; auto.
  - destruct m as [i|i]; destruct (phases d !! i) as [[| |item|]|] eqn:Hi;
      try discriminate.
    + destruct (0 <? sem_value d) eqn:Hlt; [|discriminate]. injection Hs as <-.
      left. exists i. apply Z.ltb_lt in Hlt. auto.
    + right. exists i.
      destruct (outcome i) as [v|e|code|] eqn:Ho; injection Hs as <-; simpl;
        eexists; repeat split; try discriminate; eauto.
Qed.


(** With no free slot and nothing in flight, no move is possible. *)
Lemma stuck_without_slots (n : nat) (m : Move) :
  step outcome (mkState 0 (replicate n Pending) None) m = None.
Proof.
  unfold step. simpl. destruct m as [i|i];
    destruct (replicate n Pending !! i) as [p|] eqn:Hp; try reflexivity;
    apply lookup_replicate in Hp as [-> _]; reflexivity.
Qed.

(** The code of an exit is the code some job exited with. *)
Lemma run_exit_code (schedule : list Move) (d d' : State) (code : Z) :
  (forall c, halted d = Some (Exited c) -> exists i, outcome i = JobExits c) ->
  run outcome d schedule = Some d' ->
  halted d' = Some (Exited code) ->
  exists i, outcome i = JobExits code.
Proof.
  revert d. induction schedule as [|m rest IH]; intros d Hd H Hh; simpl in H.
  - injection H as <-. auto.
  - destruct (step outcome d m) as [d1|] eqn:Hs; [|discriminate].
    apply (IH d1); auto. intros c Hc.
    apply step_cases in Hs
      as [(i & _ & _ & _ & _ & ->)
         |(i & p & _ & _ & _ & _ & _ & _ & [Hsame|(code' & Ho & Hnew)])].
    + discriminate.
    + apply Hd. congruence.
    + exists i. congruence.
Qed.

(** Each scheduling event happens at most once, and a job ends only
    after it got its slot. *)
Lemma run_once (schedule : list Move) (d d' : State) :
  run outcome d schedule = Some d' ->
  NoDup schedule /\
  (forall i, In (Acquire i) schedule -> phases d !! i = Some Pending) /\
  (forall i, In (Release i) schedule ->
     (phases d !! i = Some Running /\ ~ In (Acquire i) schedule) \/
     (phases d !! i = Some Pending /\
      exists s1 s2, schedule = (s1 ++ Release i :: s2)%list /\ In (Acquire i) s1)).
Proof.
  revert d. induction schedule as [|m rest IH]; intros d H; simpl in H.
  - split; [constructor|]. split; intros i [].
  - destruct (step outcome d m) as [d1|] eqn:Hs; [|discriminate].
    destruct (IH d1 H) as (Hnd & Hacq & Hrel). clear IH.
    apply step_cases in Hs
      as [(j & -> & _ & Hj & _ & ->)|(j & p & -> & Hj & HpR & HpP & Hp1 & _ & _)].
    + (* Acquire j *)
      simpl in *.
      assert (Hlt : (j < length (phases d))%nat) by (eapply lookup_lt_Some; eauto).
      assert (Hnew : <[j := Running]> (phases d) !! j = Some Running)
        by (apply list_lookup_insert_eq; exact Hlt).
      assert (Hnot : ~ In (Acquire j) rest).
      { intros Hin. specialize (Hacq j Hin). congruence. }
      split; [|split].
      * rewrite NoDup_cons. split; [rewrite list_elem_of_In; exact Hnot|exact Hnd].
      * intros i [Hi|Hi]; [injection Hi as <-; exact Hj|].
        specialize (Hacq i Hi). destruct (decide (j = i)) as [->|Hne]; [congruence|].
        rewrite list_lookup_insert_ne in Hacq by exact Hne. exact Hacq.
      * intros i [Hi|Hi]; [discriminate|].
        destruct (Hrel i Hi) as [[Hr Hna]|[Hp (s1 & s2 & Hsplit & Hin)]].
        -- destruct (decide (j = i)) as [->|Hne].
           ++ right. split; [exact Hj|].
              apply in_split in Hi as (s1 & s2 & ->).
              exists (Acquire i :: s1), s2. split; [reflexivity|]. left. reflexivity.
           ++ rewrite list_lookup_insert_ne in Hr by exact Hne.
              left. split; [exact Hr|]. intros [Hin|Hin]; [congruence|contradiction].
        -- destruct (decide (j = i)) as [->|Hne]; [congruence|].
           rewrite list_lookup_insert_ne in Hp by exact Hne.
           right. split; [exact Hp|].
           exists (Acquire j :: s1), s2. rewrite Hsplit. split; [reflexivity|].
           right. exact Hin.
    + (* Release j *)
      assert (Hlt : (j < length (phases d))%nat) by (eapply lookup_lt_Some; eauto).
      rewrite Hp1 in *.
      assert (Hnew : <[j := p]> (phases d) !! j = Some p)
        by (apply list_lookup_insert_eq; exact Hlt).
      assert (HnotA : ~ In (Acquire j) rest).
      { intros Hin. specialize (Hacq j Hin). congruence. }
      assert (HnotR : ~ In (Release j) rest).
      { intros Hin. destruct (Hrel j Hin) as [[Hr _]|[Hq _]]; congruence. }
      split; [|split].
      * rewrite NoDup_cons. split; [rewrite list_elem_of_In; exact HnotR|exact Hnd].
      * intros i [Hi|Hi]; [discriminate|].
        specialize (Hacq i Hi). destruct (decide (j = i)) as [->|Hne]; [congruence|].
        rewrite list_lookup_insert_ne in Hacq by exact Hne. exact Hacq.
      * intros i [Hi|Hi].
        -- injection Hi as <-. left. split; [exact Hj|].
           intros [Hin|Hin]; [discriminate|contradiction].
        -- destruct (decide (j = i)) as [->|Hne]; [contradiction|].
           destruct (Hrel i Hi) as [[Hr Hna]|[Hq (s1 & s2 & Hsplit & Hin)]];
             rewrite list_lookup_insert_ne in * by exact Hne.
           ++ left. split; [exact Hr|]. intros [Hin|Hin]; [discriminate|contradiction].
           ++ right. split; [exact Hq|].
              exists (Release j :: s1), s2. rewrite Hsplit. split; [reflexivity|].
              right. exact Hin.
Qed.

End DispatcherMore.

(** X11: with more than five files and a configured maximum of 0 the
    batch hangs: the semaphore starts empty, so no job ever gets a slot,
    no scheduling event can happen, and [gather] never completes. *)
Theorem zero_configured_maximum_blocks_large_batches
    (settings : Review.Settings) (no_cache : bool) (files : list string)
    (envs : nat -> Review.JobEnv) (schedule : list Dispatcher.Move)
    (d : Dispatcher.State) :
  (5 < length files)%nat ->
  Review.max_concurrent_reviews settings = 0 ->
  Dispatcher.review settings no_cache files envs schedule = Some d ->
  schedule = [] /\
  Dispatcher.in_flight (Dispatcher.phases d) = 0%nat /\
  Dispatcher.batch_outcome d = None.
Proof.
  intros Hn Hm Hr. unfold Dispatcher.review in Hr.
  assert (HK : Dispatcher.concurrency_limit (Review.max_concurrent_reviews settings)
                 (length files) = 0).
  { rewrite Hm. unfold Dispatcher.concurrency_limit.
    destruct (Z.leb_spec (Z.of_nat (length files)) 5); [lia|].
    assert (3 <= Z.of_nat (length files) / 2) by (apply Z.div_le_lower_bound; lia). lia. }
  rewrite HK in Hr. unfold Dispatcher.start in Hr. simpl in Hr.
  destruct schedule as [|m rest].
  - simpl in Hr. injection Hr as <-. split; [reflexivity|]. simpl.
    split; [apply in_flight_replicate_pending|].
    unfold Dispatcher.batch_outcome. simpl.
    destruct (length files) as [|k]; [lia|]. reflexivity.
  - simpl in Hr. rewrite stuck_without_slots in Hr. discriminate.
Qed.

(** The theorem at work on six files. *)
Lemma zero_configured_maximum_blocks_large_batches_witness :
  @nil Dispatcher.Move = [] /\
  Dispatcher.in_flight (replicate 6 Dispatcher.Pending) = 0%nat /\
  Dispatcher.batch_outcome
    (Dispatcher.mkState 0 (replicate 6 Dispatcher.Pending) None) = None.
Proof.
  exact (zero_configured_maximum_blocks_large_batches SampleBatch6.no_slot false
           SampleBatch6.files SampleBatch6.envs []
           (Dispatcher.mkState 0 (replicate 6 Dispatcher.Pending) None)
           ltac:(simpl; lia) eq_refl eq_refl).
Defined.



(** X13: a batch that is stopped by a job is stopped with exit code 1:
    the only [sys.exit] a job performs is the one of the
    configuration-error branch. *)
Theorem batch_exit_code_is_one
    (settings : Review.Settings) (no_cache : bool) (files : list string)
    (envs : nat -> Review.JobEnv) (schedule : list Dispatcher.Move)
    (d : Dispatcher.State) (code : Z) :
  Dispatcher.review settings no_cache files envs schedule = Some d ->
  Dispatcher.batch_outcome d = Some (Dispatcher.BatchExits code) ->
  code = 1 /\
  exists i file_path,
    files !! i = Some file_path /\
    Dispatcher.job_outcome settings no_cache files envs i = Review.JobExits 1.
Proof.
  intros Hr Hb. unfold Dispatcher.review in Hr.
  destruct (Dispatcher.start _ (length files)) as [d0|] eqn:Hs; [|discriminate].
  assert (Hh : Dispatcher.halted d = Some (Dispatcher.Exited code)).
  { unfold Dispatcher.batch_outcome in Hb.
    destruct (Dispatcher.halted d) as [[c]|]; try discriminate; [congruence|].
    destruct (Dispatcher.gathered _); discriminate. }
  destruct (run_exit_code (Dispatcher.job_outcome settings no_cache files envs)
              schedule d0 d code) as [i Hi]; auto.
  { unfold Dispatcher.start in Hs. destruct (_ <? 0); [discriminate|].
    injection Hs as <-. discriminate. }
  unfold Dispatcher.job_outcome in Hi.
  destruct (files !! i) as [file_path|] eqn:Hf; [|discriminate].
  pose proof (review_single_file_exit_code _ _ _ _ _ _ Hi) as ->.
  split; [reflexivity|]. exists i, file_path. split; [exact Hf|].
  unfold Dispatcher.job_outcome. rewrite Hf. exact Hi.
Qed.

(** The theorem at work: the second job of the batch finds no
    credentials while the others are in flight. *)
Lemma batch_exit_code_is_one_witness :
  1 = 1 /\
  exists i file_path,
    SampleBatch.files !! i = Some file_path /\
    Dispatcher.job_outcome SampleJobs.cache_on false SampleBatch.files
      SampleBatch.envs_unconfigured i = Review.JobExits 1.
Proof.
  exact (batch_exit_code_is_one SampleJobs.cache_on false SampleBatch.files
           SampleBatch.envs_unconfigured
           [Dispatcher.Acquire 0%nat; Dispatcher.Acquire 1%nat; Dispatcher.Release 1%nat]
           (Dispatcher.mkState 2
              [Dispatcher.Running; Dispatcher.Ended; Dispatcher.Pending]
              (Some (Dispatcher.Exited 1)))
           1 ltac:(vm_compute; reflexivity) eq_refl).
Defined.

(** X14: no job runs twice, and none runs without a slot.  In every
    schedule the batch can follow, no scheduling event occurs twice (a
    job gets a slot at most once and ends at most once), and the end of
    a job is preceded by its getting a slot. *)
Theorem each_job_runs_at_most_once
    (settings : Review.Settings) (no_cache : bool) (files : list string)
    (envs : nat -> Review.JobEnv) (schedule : list Dispatcher.Move)
    (d : Dispatcher.State) :
  Dispatcher.review settings no_cache files envs schedule = Some d ->
  NoDup schedule /\
  (forall i, In (Dispatcher.Release i) schedule ->
     exists s1 s2,
       schedule = (s1 ++ Dispatcher.Release i :: s2)%list /\
       In (Dispatcher.Acquire i) s1).
Proof.
  intros Hr. unfold Dispatcher.review in Hr.
  destruct (Dispatcher.start _ (length files)) as [d0|] eqn:Hs; [|discriminate].
  destruct (run_once _ schedule d0 d Hr) as (Hnd & _ & Hrel).
  split; [exact Hnd|].
  intros i Hi. destruct (Hrel i Hi) as [[Hrun _]|[_ H]]; [|exact H].
  unfold Dispatcher.start in Hs. destruct (_ <? 0); [discriminate|].
  injection Hs as <-. simpl in Hrun.
  apply lookup_replicate in Hrun as [Hrun _]. discriminate.
Qed.

(** The theorem at work on the reversed schedule of the sample batch. *)
Lemma each_job_runs_at_most_once_witness :
  NoDup SampleBatch.reversed /\
  (forall i, In (Dispatcher.Release i) SampleBatch.reversed ->
     exists s1 s2,
       SampleBatch.reversed = (s1 ++ Dispatcher.Release i :: s2)%list /\
       In (Dispatcher.Acquire i) s1).
Proof.
  exact (each_job_runs_at_most_once SampleJobs.cache_on false SampleBatch.files
           SampleBatch.envs SampleBatch.reversed
           (Dispatcher.mkState 3
              [Dispatcher.Done (Dispatcher.Value (Some ("a.py", Samples.review_ok)));
               Dispatcher.Done (Dispatcher.Value None);
               Dispatcher.Done (Dispatcher.Value (Some ("c.py", Samples.review_ok)))] None)
           ltac:(vm_compute; reflexivity)).
Defined.

(** X15: batches of up to five files do not depend on the configured
    maximum.  For one to five files the limit is the number of files,
    so even with [max_concurrent_reviews] at 0 or below all jobs may be
    in flight at once and, as long as no job stops the event loop, every
    schedule followed so far extends to one under which the batch
    returns. *)
Theorem small_batches_ignore_configured_maximum
    (settings : Review.Settings) (no_cache : bool) (files : list string)
    (envs : nat -> Review.JobEnv) (schedule : list Dispatcher.Move)
    (d : Dispatcher.State) :
  (0 < length files <= 5)%nat ->
  (forall i, (i < length files)%nat ->
     Slots.ends_quietly (Dispatcher.job_outcome settings no_cache files envs i) = true) ->
  Dispatcher.review settings no_cache files envs schedule = Some d ->
  Dispatcher.concurrency_limit (Review.max_concurrent_reviews settings) (length files)
    = Z.of_nat (length files) /\
  exists more d' results,
    Dispatcher.review settings no_cache files envs (schedule ++ more) = Some d' /\
    Dispatcher.batch_outcome d' = Some (Dispatcher.BatchReturns results).
Proof.
  intros Hn Hq Hr.
  assert (HK : Dispatcher.concurrency_limit (Review.max_concurrent_reviews settings)
                 (length files) = Z.of_nat (length files)).
  { unfold Dispatcher.concurrency_limit.
    destruct (Z.leb_spec (Z.of_nat (length files)) 5); [reflexivity|lia]. }
  split; [exact HK|].
  assert (Hall : forall i,
            Slots.ends_quietly (Dispatcher.job_outcome settings no_cache files envs i) = true).
  { intros i. destruct (Nat.lt_ge_cases i (length files)) as [Hi|Hi]; [auto|].
    unfold Dispatcher.job_outcome. rewrite (lookup_ge_None_2 files i Hi). reflexivity. }
  unfold Dispatcher.review in *.
  destruct (Dispatcher.start _ (length files)) as [d0|] eqn:Hs; [|discriminate].
  apply (every_schedule_completes (Dispatcher.job_outcome settings no_cache files envs)
           (Dispatcher.concurrency_limit (Review.max_concurrent_reviews settings)
              (length files))
           (length files) schedule d0 d); auto. lia.
Qed.

(** The theorem at work: the sample batch under a configuration with
    no slot at all. *)
Lemma small_batches_ignore_configured_maximum_witness :
  Dispatcher.concurrency_limit (Review.max_concurrent_reviews SampleBatch6.no_slot)
    (length SampleBatch.files) = Z.of_nat (length SampleBatch.files) /\
  exists more d' results,
    Dispatcher.review SampleBatch6.no_slot false SampleBatch.files SampleBatch.envs
      ([Dispatcher.Acquire 0%nat; Dispatcher.Acquire 1%nat; Dispatcher.Acquire 2%nat]
       ++ more) = Some d' /\
    Dispatcher.batch_outcome d' = Some (Dispatcher.BatchReturns results).
Proof.
  refine (small_batches_ignore_configured_maximum SampleBatch6.no_slot false
            SampleBatch.files SampleBatch.envs
            [Dispatcher.Acquire 0%nat; Dispatcher.Acquire 1%nat; Dispatcher.Acquire 2%nat]
            (Dispatcher.mkState 0
               [Dispatcher.Running; Dispatcher.Running; Dispatcher.Running] None)
            ltac:(simpl; lia) _ ltac:(vm_compute; reflexivity)).
  intros [|[|[|i]]] Hi; [vm_compute; reflexivity ..|simpl in Hi; lia].
Defined.

(** ** The rate-limit test on wrapped messages *)

Section Wrapping.

Lemma lower_app (a b : string) : Text.lower (a ++ b) = Text.lower a ++ Text.lower b.
Proof. induction a as [|c a IH]; simpl; [reflexivity|]. rewrite IH. reflexivity. Qed.

Lemma startswith_app (needle hay rest : string) :
  Text.startswith needle hay = true -> Text.startswith needle (hay ++ rest) = true.
Proof.
  revert hay. induction needle as [|c n IH]; intros hay H; simpl in *; [reflexivity|].
  destruct hay as [|b h]; [discriminate|]. simpl.
  destruct (Ascii.eqb c b); [apply IH; exact H|discriminate].
Qed.

Lemma str_in_cons (needle : string) (b : ascii) (h : string) :
  Text.str_in needle (String b h) =
  (Text.startswith needle (String b h) || Text.str_in needle h)%bool.
Proof. reflexivity. Qed.

Lemma str_in_app_right (needle hay rest : string) :
  Text.str_in needle hay = true -> Text.str_in needle (hay ++ rest) = true.
Proof.
  induction hay as [|b h IH]; intros H.
  - simpl in H. rewrite orb_false_r in H.
    destruct needle; [|discriminate]. destruct rest; reflexivity.
  - rewrite str_in_cons in H. apply orb_prop in H as [H|H].
    + change (String b h ++ rest) with (String b (h ++ rest)). rewrite str_in_cons.
      change (String b (h ++ rest)) with (String b h ++ rest).
      rewrite (startswith_app needle (String b h) rest H). reflexivity.
    + change (String b h ++ rest) with (String b (h ++ rest)). rewrite str_in_cons.
      rewrite (IH H). apply orb_true_r.
Qed.

Lemma str_in_app_left (needle front hay : string) :
  Text.str_in needle hay = true -> Text.str_in needle (front ++ hay) = true.
Proof.
  intros H. induction front as [|c f IH]; [exact H|].
  change (String c f ++ hay) with (String c (f ++ hay)). rewrite str_in_cons.
  rewrite IH. apply orb_true_r.
Qed.

Lemma str_in_wrapped (needle front hay rest : string) :
  Text.str_in needle hay = true -> Text.str_in needle (front ++ hay ++ rest) = true.
Proof. intros H. apply str_in_app_left, str_in_app_right, H. Qed.

End Wrapping.

(** X16: the rate-limit test survives wrapping and ignores the class.
    If an error is classified as a rate limit, so is every exception,
    of any class and type name, whose message contains the original
    message -- with any text before and after it. *)
Theorem rate_limit_survives_wrapping
    (e : Exception) (cls : ExcClass) (type_name front rest : string) :
  is_rate_limit e = true ->
  is_rate_limit (mkExc cls type_name (front ++ exc_msg e ++ rest)) = true.
Proof.
  unfold is_rate_limit. simpl. intros H. rewrite !lower_app.
  repeat (apply orb_prop in H as [H|H]);
    rewrite (str_in_wrapped _ (Text.lower front) _ (Text.lower rest) H);
    rewrite ?orb_true_r; reflexivity.
Qed.

(** The theorem at work on the 429 error of the samples wrapped in a
    [RuntimeError]. *)
Lemma rate_limit_survives_wrapping_witness :
  is_rate_limit
    (mkExc RuntimeErrorK "RuntimeError"
       ("Review failed: " ++ exc_msg Samples.error_429 ++ " (giving up)")) = true.
Proof.
  exact (rate_limit_survives_wrapping Samples.error_429 RuntimeErrorK "RuntimeError"
           "Review failed: " " (giving up)" eq_refl).
Defined.

(** ** Command-line input: extra instructions *)

Section SanitizeProofs.

Import Frontend Input.

Lemma sanitize_clean (s : string) : clean (sanitize s) = true.
Proof.
  unfold clean. induction s as [|c s IH]; simpl; [reflexivity|].
  destruct (keeps c) eqn:Hc; simpl; [rewrite Hc|]; exact IH.
Qed.

Lemma sanitize_id (s : string) : clean s = true -> sanitize s = s.
Proof.
  unfold clean. induction s as [|c s IH]; simpl; [reflexivity|].
  intros H. apply andb_prop in H as [Hc Hs]. rewrite Hc, (IH Hs). reflexivity.
Qed.

Lemma sanitize_sublist (s : string) : sublist (Text.chars (sanitize s)) (Text.chars s).
Proof.
  induction s as [|c s IH]; simpl; [constructor|].
  destruct (keeps c); simpl; [apply sublist_skip|apply sublist_cons]; exact IH.
Qed.

Lemma chars_length (s : string) : length (Text.chars s) = String.length s.
Proof. induction s; simpl; congruence. Qed.

Lemma sanitize_changes (s : string) :
  String.eqb (sanitize s) s = clean s.
Proof.
  destruct (clean s) eqn:Hc.
  - rewrite (sanitize_id s Hc). apply String.eqb_refl.
  - apply String.eqb_neq. intros Heq.
    pose proof (sanitize_clean s) as H. rewrite Heq in H. congruence.
Qed.

Lemma sanitize_length (s : string) :
  (String.length (sanitize s) <= String.length s)%nat.
Proof. rewrite <- !chars_length. apply sublist_length, sanitize_sublist. Qed.

End SanitizeProofs.

(** X17: the sanitizer of the extra instructions.  Its result contains
    only characters with code 32 or more, newlines and tabs; it is a
    subsequence of the input (nothing is added or reordered, so it is
    not longer); sanitizing twice changes nothing more; and the input
    comes back unchanged exactly when it was clean already. *)
Theorem sanitize_removes_only_control_characters (s : string) :
  Input.clean (Frontend.sanitize s) = true /\
  sublist (Text.chars (Frontend.sanitize s)) (Text.chars s) /\
  (String.length (Frontend.sanitize s) <= String.length s)%nat /\
  Frontend.sanitize (Frontend.sanitize s) = Frontend.sanitize s /\
  (Frontend.sanitize s = s <-> Input.clean s = true).
Proof.
  split; [apply sanitize_clean|]. split; [apply sanitize_sublist|]. split.
  - rewrite <- !chars_length. apply sublist_length, sanitize_sublist.
  - split; [apply sanitize_id, sanitize_clean|]. split.
    + intros H. rewrite <- H. apply sanitize_clean.
    + apply sanitize_id.
Qed.

(** X18: the validation of the extra instructions.  The command exits
    exactly when the instructions have more than 10000 characters;
    absent and empty instructions pass through untouched and without
    warning; otherwise the instructions, themselves of at most 10000
    characters, are handed on sanitized: clean, at most 10000
    characters long, and the warning is issued exactly when the
    original was not clean. *)
Theorem check_extra_instructions_spec (extra_instructions : option string) :
  (Frontend.check_extra_instructions extra_instructions = Frontend.TooLong <->
   exists s, extra_instructions = Some s /\
             Frontend.MAX_EXTRA_INSTRUCTIONS_LENGTH < Z.of_nat (String.length s)) /\
  match Frontend.check_extra_instructions extra_instructions with
  | Frontend.TooLong =>
      exists s, extra_instructions = Some s /\
                Frontend.MAX_EXTRA_INSTRUCTIONS_LENGTH < Z.of_nat (String.length s)
  | Frontend.Kept None warned => extra_instructions = None /\ warned = false
  | Frontend.Kept (Some kept) warned =>
      exists s, extra_instructions = Some s /\
                Z.of_nat (String.length s) <= Frontend.MAX_EXTRA_INSTRUCTIONS_LENGTH /\
                kept = Frontend.sanitize s /\
                Input.clean kept = true /\
                Z.of_nat (String.length kept) <= Frontend.MAX_EXTRA_INSTRUCTIONS_LENGTH /\
                warned = negb (Input.clean s)
  end.
Proof.
  assert (Hcases :
    match Frontend.check_extra_instructions extra_instructions with
    | Frontend.TooLong =>
        exists s, extra_instructions = Some s /\
                  Frontend.MAX_EXTRA_INSTRUCTIONS_LENGTH < Z.of_nat (String.length s)
    | Frontend.Kept None warned => extra_instructions = None /\ warned = false
    | Frontend.Kept (Some kept) warned =>
        exists s, extra_instructions = Some s /\
                  Z.of_nat (String.length s) <= Frontend.MAX_EXTRA_INSTRUCTIONS_LENGTH /\
                  kept = Frontend.sanitize s /\
                  Input.clean kept = true /\
                  Z.of_nat (String.length kept) <= Frontend.MAX_EXTRA_INSTRUCTIONS_LENGTH /\
                  warned = negb (Input.clean s)
    end).
  { unfold Frontend.check_extra_instructions.
    destruct extra_instructions as [s|]; [|auto].
    destruct (Text.truthy s) eqn:Ht.
    - destruct (Z.ltb_spec Frontend.MAX_EXTRA_INSTRUCTIONS_LENGTH
                  (Z.of_nat (String.length s))) as [Hl|Hl].
      + exists s. auto.
      + exists s. split; [reflexivity|]. split; [exact Hl|]. split; [reflexivity|].
        split; [apply sanitize_clean|]. split.
        * pose proof (sanitize_length s). lia.
        * rewrite sanitize_changes. reflexivity.
    - destruct s; [|discriminate]. exists "". repeat split; vm_compute; congruence. }
  split; [|exact Hcases]. split.
  - intros Hlong. rewrite Hlong in Hcases. exact Hcases.
  - intros (s & -> & Hlen).
    destruct (Frontend.check_extra_instructions (Some s)) as [|[kept|] warned];
      [reflexivity| |].
    + destruct Hcases as (s' & Hs & Hle & _). injection Hs as <-. lia.
    + destruct Hcases as [Hs _]. discriminate.
Qed.

(** ** Command-line input: review phases *)

Section PhaseProofs.

Import Frontend Input.

Lemma split_comma_free (f : string) : comma_free f = true -> split "," f = [f].
Proof.
  unfold comma_free. induction f as [|c f IH]; simpl; [reflexivity|].
  intros H. apply andb_prop in H as [Hc Hf]. apply negb_true_iff in Hc.
  rewrite Hc, (IH Hf). reflexivity.
Qed.

Lemma split_field (f rest : string) :
  comma_free f = true -> split "," (f ++ String "," rest) = f :: split "," rest.
Proof.
  unfold comma_free. induction f as [|c f IH]; simpl; [reflexivity|].
  intros H. apply andb_prop in H as [Hc Hf]. apply negb_true_iff in Hc.
  rewrite Hc, (IH Hf). reflexivity.
Qed.

(** Cutting at the commas gives back the fields that were joined. *)
Lemma split_join (fields : list string) :
  fields <> [] -> Forall (fun f => comma_free f = true) fields ->
  split "," (join "," fields) = fields.
Proof.
  intros Hne H. induction H as [|f fields Hf H IH]; [congruence|].
  destruct fields as [|g rest].
  - simpl. apply split_comma_free, Hf.
  - change (join "," (f :: g :: rest)) with (f ++ String "," (join "," (g :: rest))).
    rewrite (split_field _ _ Hf), IH by discriminate. reflexivity.
Qed.

Lemma valid_phase_cases (p : string) :
  is_valid_phase p = true ->
  p = "security" \/ p = "performance" \/ p = "maintainability" \/ p = "best_practices".
Proof.
  unfold is_valid_phase. simpl. rewrite orb_false_r. intros H.
  repeat (apply orb_prop in H as [H|H]); apply String.eqb_eq in H; auto.
Qed.

Lemma filter_valid_truthy (l : list string) :
  filter (fun p => is_valid_phase p = true) (filter (fun p => Text.truthy p = true) l)
  = filter (fun p => is_valid_phase p = true) l.
Proof.
  induction l as [|x l IH]; [reflexivity|].
  rewrite !filter_cons. destruct (decide (Text.truthy x = true)) as [Ht|Ht].
  - rewrite filter_cons, IH. reflexivity.
  - rewrite IH. destruct (decide (is_valid_phase x = true)) as [Hv|Hv]; [|reflexivity].
    destruct x; [discriminate|]. simpl in Ht. congruence.
Qed.

(** The parser on fields joined by commas. *)
Lemma parse_phases_joined (fields : list string) :
  fields <> [] -> Forall (fun f => comma_free f = true) fields ->
  parse_phases (Some (join "," fields)) =
  if Text.truthy (join "," fields)
  then match selected fields with
       | [] => (None, true)
       | p :: ps => (Some (p :: ps), false)
       end
  else (None, false).
Proof.
  intros Hne Hc. unfold parse_phases, selected.
  destruct (Text.truthy (join "," fields)); [|reflexivity].
  rewrite (split_join fields Hne Hc), filter_valid_truthy.
  destruct (filter _ (map strip fields)); reflexivity.
Qed.

Lemma lstrip_blank (front s : string) : blank front = true -> lstrip (front ++ s) = lstrip s.
Proof.
  unfold blank. induction front as [|c f IH]; simpl; [reflexivity|].
  intros H. apply andb_prop in H as [Hc Hf]. rewrite Hc. apply IH, Hf.
Qed.

Lemma rstrip_blank (back : string) : blank back = true -> rstrip back = "".
Proof.
  unfold blank. induction back as [|c b IH]; simpl; [reflexivity|].
  intros H. apply andb_prop in H as [Hc Hb]. rewrite (IH Hb), Hc. reflexivity.
Qed.

Lemma rstrip_app_blank (s back : string) :
  blank back = true -> rstrip (s ++ back) = rstrip s.
Proof.
  intros Hb. induction s as [|c s IH]; simpl.
  - apply rstrip_blank, Hb.
  - rewrite IH. reflexivity.
Qed.

(** White space around a phase name is stripped off. *)
Lemma strip_padded (p field : string) :
  is_valid_phase p = true -> padded p field -> strip field = p.
Proof.
  intros Hv (front & back & Hf & Hb & ->). unfold strip.
  rewrite (lstrip_blank front _ Hf).
  destruct (valid_phase_cases p Hv) as [->|[->|[->| ->]]];
    cbn [lstrip String.append is_space nat_of_ascii]; simpl lstrip;
    match goal with |- rstrip (String ?c ?rest) = ?p =>
      change (String c rest) with (p ++ back) end;
    rewrite (rstrip_app_blank _ back Hb); reflexivity.
Qed.

Lemma blank_comma_free (s : string) : blank s = true -> comma_free s = true.
Proof.
  unfold blank, comma_free. induction s as [|c s IH]; simpl; [reflexivity|].
  intros H. apply andb_prop in H as [Hc Hs]. rewrite (IH Hs), andb_true_r.
  destruct (Ascii.eqb_spec c ","); [subst c; discriminate|reflexivity].
Qed.

Lemma comma_free_app (a b : string) :
  comma_free a = true -> comma_free b = true -> comma_free (a ++ b) = true.
Proof.
  unfold comma_free. induction a as [|c a IH]; simpl; [auto|].
  intros H Hb. apply andb_prop in H as [Hc Ha]. rewrite Hc. simpl. apply IH; assumption.
Qed.

Lemma padded_comma_free (p field : string) :
  is_valid_phase p = true -> padded p field -> comma_free field = true.
Proof.
  intros Hv (front & back & Hf & Hb & ->).
  apply comma_free_app; [apply blank_comma_free, Hf|].
  apply comma_free_app; [|apply blank_comma_free, Hb].
  destruct (valid_phase_cases p Hv) as [->|[->|[->| ->]]]; reflexivity.
Qed.

Lemma truthy_app (a b : string) :
  Text.truthy b = true -> Text.truthy (a ++ b) = true.
Proof. destruct a; simpl; auto. Qed.

Lemma padded_truthy (p field : string) :
  is_valid_phase p = true -> padded p field -> Text.truthy field = true.
Proof.
  intros Hv (front & back & Hf & Hb & ->). apply truthy_app.
  destruct (valid_phase_cases p Hv) as [->|[->|[->| ->]]]; reflexivity.
Qed.

Lemma join_truthy (sep f : string) (rest : list string) :
  Text.truthy f = true -> Text.truthy (join sep (f :: rest)) = true.
Proof.
  intros H. destruct rest; simpl; [exact H|]. destruct f; [discriminate|reflexivity].
Qed.

End PhaseProofs.

(** X19: how the value of [--phases] is read.  When the value consists
    of fields joined by commas (the fields themselves without comma),
    the phases are the fields with surrounding white space stripped,
    restricted to the four valid names -- in the order given, repeats
    kept, empty and unknown fields dropped.  If no field is valid the
    result is [None] and the warning is printed; an empty value gives
    [None] without warning. *)
Theorem parse_phases_selects_valid_fields (fields : list string) :
  fields <> [] ->
  Forall (fun f => Input.comma_free f = true) fields ->
  Frontend.parse_phases (Some (Frontend.join "," fields)) =
  if Text.truthy (Frontend.join "," fields)
  then match Input.selected fields with
       | [] => (None, true)
       | p :: ps => (Some (p :: ps), false)
       end
  else (None, false).
Proof. apply parse_phases_joined. Qed.

(** The theorem at work on a value with padding, an empty field, an
    unknown name and a repeat. *)
Lemma parse_phases_selects_valid_fields_witness :
  Frontend.parse_phases (Some " security , bogus,,performance,security")
  = (Some ["security"; "performance"; "security"], false).
Proof.
  exact (parse_phases_selects_valid_fields
           [" security "; " bogus"; ""; "performance"; "security"]
           ltac:(discriminate) ltac:(repeat constructor)).
Defined.

(** X20: valid phases survive the command line.  A non-empty list of
    valid phase names, written with commas between them and any white
    space around each name, is parsed back to exactly that list, without
    warning. *)
Theorem parse_phases_round_trip (phases fields : list string) :
  phases <> [] ->
  Forall (fun p => Frontend.is_valid_phase p = true) phases ->
  Forall2 Input.padded phases fields ->
  Frontend.parse_phases (Some (Frontend.join "," fields)) = (Some phases, false).
Proof.
  intros Hne Hv Hp.
  assert (Hc : Forall (fun f => Input.comma_free f = true) fields).
  { clear Hne. induction Hp as [|p f ps fs Hpf Hp IH]; constructor.
    - inversion Hv; subst. eapply padded_comma_free; eauto.
    - apply IH. inversion Hv; assumption. }
  assert (Hsel : Input.selected fields = phases).
  { clear Hne Hc. unfold Input.selected.
    induction Hp as [|p f ps fs Hpf Hp IH]; [reflexivity|].
    inversion Hv as [|? ? Hvp Hvps]; subst. simpl map.
    rewrite (strip_padded p f Hvp Hpf), filter_cons.
    destruct (decide (Frontend.is_valid_phase p = true)); [|contradiction].
    rewrite (IH Hvps). reflexivity. }
  assert (Hfne : fields <> []).
  { destruct Hp; [congruence|discriminate]. }
  rewrite (parse_phases_joined fields Hfne Hc), Hsel.
  destruct Hp as [|p f ps fs Hpf Hp]; [congruence|].
  inversion Hv as [|? ? Hvp Hvps]; subst.
  rewrite (join_truthy "," f fs (padded_truthy p f Hvp Hpf)). reflexivity.
Qed.

(** The theorem at work on two padded names. *)
Lemma parse_phases_round_trip_witness :
  Frontend.parse_phases (Some "security,  best_practices ")
  = (Some ["security"; "best_practices"], false).
Proof.
  refine (parse_phases_round_trip ["security"; "best_practices"]
            ["security"; "  best_practices "] ltac:(discriminate) _ _).
  - repeat constructor.
  - constructor; [exists "", ""; repeat split|].
    constructor; [exists "  ", " "; repeat split|constructor].
Defined.

(** X21: the focus sentences of the system prompt depend only on which
    phases are selected.  Two phase lists with the same members, in
    whatever order and however often repeated, add the same sentences
    (always in the order security, performance, maintainability, best
    practices); and a non-empty list of valid phases adds at least one
    sentence. *)
Theorem focus_sentences_depend_on_membership (phases phases' : list string) :
  (forall p, In p phases <-> In p phases') ->
  Frontend.focus_sentences phases = Frontend.focus_sentences phases' /\
  (phases <> [] -> Forall (fun p => Frontend.is_valid_phase p = true) phases ->
   Text.truthy (Frontend.focus_sentences phases) = true).
Proof.
  intros Hm.
  assert (He : forall x, existsb (String.eqb x) phases = existsb (String.eqb x) phases').
  { intros x. apply eq_true_iff_eq. rewrite !existsb_exists. split.
    - intros (y & Hy & Hxy). exists y. split; [apply Hm, Hy|exact Hxy].
    - intros (y & Hy & Hxy). exists y. split; [apply Hm, Hy|exact Hxy]. }
  split.
  - unfold Frontend.focus_sentences. rewrite !He. reflexivity.
  - intros Hne Hv. destruct phases as [|p ps]; [congruence|].
    inversion Hv as [|? ? Hvp _]; subst.
    unfold Frontend.focus_sentences.
    destruct (valid_phase_cases p Hvp) as [->|[->|[->| ->]]]; simpl existsb;
      repeat match goal with
             | |- context [existsb ?f ?l] => destruct (existsb f l)
             end; reflexivity.
Qed.

(** The theorem at work: order and repeats do not matter. *)
Lemma focus_sentences_depend_on_membership_witness :
  Frontend.focus_sentences ["performance"; "security"]
  = Frontend.focus_sentences ["security"; "performance"; "security"].
Proof.
  refine (proj1 (focus_sentences_depend_on_membership ["performance"; "security"]
                   ["security"; "performance"; "security"] _)).
  intros p. simpl. tauto.
Defined.

(** ** The spinner *)

Section SpinnerProofs.

Import Spinner Terminal.

Lemma frames_app (a b : list Write) : frames (a ++ b) = (frames a ++ frames b)%list.
Proof. apply flat_map_app. Qed.

Lemma call_ok_trans (s s1 s2 : State) (w1 w2 : list Write) :
  call_ok s s1 w1 -> call_ok s1 s2 w2 -> call_ok s s2 (w1 ++ w2).
Proof.
  intros (Hi1 & Hf1 & He1) (Hi2 & Hf2 & He2). unfold call_ok.
  rewrite frames_app, length_app. split; [lia|]. split; [|congruence].
  rewrite seq_app, map_app, <- Hi1, <- Hf1, <- Hf2. reflexivity.
Qed.

Lemma show_status_ok (message : option string) (s : State) :
  call_ok s (fst (show_status message s)) (snd (show_status message s)).
Proof.
  unfold show_status, call_ok. destruct (enabled s) eqn:He;
    cbn [negb fst snd frames flat_map length app spinner_idx enabled seq map].
  - repeat split; auto; lia.
  - rewrite Nat.add_0_r. repeat split; auto.
Qed.

Lemma tick_ok (n : nat) (s : State) : call_ok s (fst (tick n s)) (snd (tick n s)).
Proof.
  revert s. induction n as [|n IH]; intros s; cbn [tick].
  - unfold call_ok. cbn [fst snd frames flat_map length seq map].
    rewrite Nat.add_0_r. repeat split; auto.
  - pose proof (show_status_ok None s) as H1.
    destruct (show_status None s) as [s1 w1]. specialize (IH s1).
    destruct (tick n s1) as [s2 w2]. simpl in *. eapply call_ok_trans; eauto.
Qed.

Lemma call_call_ok (c : Call) (s : State) : call_ok s (fst (call c s)) (snd (call c s)).
Proof.
  destruct c as [message|width|n]; simpl.
  - apply show_status_ok.
  - unfold stop, call_ok. destruct (enabled s) eqn:He;
      cbn [negb fst snd frames flat_map length app spinner_idx enabled seq map];
      rewrite Nat.add_0_r; repeat split; auto.
  - unfold run. destruct (enabled s) eqn:He; cbn [negb].
    + pose proof (tick_ok n (mkSpinner (current_status s) (spinner_idx s) true true)) as H.
      destruct (tick n _) as [s1 w]. unfold call_ok in *.
      cbn [fst snd spinner_idx enabled] in *. rewrite He. exact H.
    + unfold call_ok. cbn [fst snd frames flat_map length]. rewrite Nat.add_0_r.
      repeat split; auto.
Qed.

Lemma calls_call_ok (cs : list Call) (s : State) :
  call_ok s (fst (calls cs s)) (snd (calls cs s)).
Proof.
  revert s. induction cs as [|c cs IH]; intros s; cbn [calls].
  - unfold call_ok. cbn [fst snd frames flat_map length seq map].
    rewrite Nat.add_0_r. repeat split; auto.
  - pose proof (call_call_ok c s) as H1. destruct (call c s) as [s1 w1].
    specialize (IH s1). destruct (calls cs s1) as [s2 w2]. simpl in *.
    eapply call_ok_trans; eauto.
Qed.

Lemma tick_status (n : nat) (s : State) :
  current_status (fst (tick n s)) = current_status s /\
  active (fst (tick n s)) = active s.
Proof.
  revert s. induction n as [|n IH]; intros s; simpl; [auto|].
  unfold show_status. destruct (enabled s); simpl.
  - specialize (IH (mkSpinner (current_status s) (S (spinner_idx s)) (active s) true)).
    destruct (tick n _) as [s2 w2]. simpl in *. exact IH.
  - specialize (IH s). destruct (tick n s) as [s2 w2]. simpl in *. exact IH.
Qed.

End SpinnerProofs.

(** X22: a disabled spinner is silent.  When the spinner is disabled
    (no terminal, or switched off), no sequence of [show_status], [stop]
    and [run] calls writes anything, and none changes the status, the
    frame counter or the switch. *)
Theorem disabled_spinner_is_silent (cs : list Spinner.Call) (s : Spinner.State) :
  Spinner.enabled s = false ->
  snd (Spinner.calls cs s) = [] /\
  Spinner.current_status (fst (Spinner.calls cs s)) = Spinner.current_status s /\
  Spinner.spinner_idx (fst (Spinner.calls cs s)) = Spinner.spinner_idx s /\
  Spinner.enabled (fst (Spinner.calls cs s)) = false.
Proof.
  revert s. induction cs as [|c cs IH]; intros s He; cbn [Spinner.calls]; [auto|].
  assert (H1 : snd (Spinner.call c s) = [] /\
               Spinner.current_status (fst (Spinner.call c s)) = Spinner.current_status s /\
               Spinner.spinner_idx (fst (Spinner.call c s)) = Spinner.spinner_idx s /\
               Spinner.enabled (fst (Spinner.call c s)) = false).
  { destruct c as [m|w|n]; unfold Spinner.call, Spinner.show_status, Spinner.stop,
      Spinner.run; rewrite He; simpl; auto. }
  destruct (Spinner.call c s) as [s1 w1]. simpl in H1.
  destruct H1 as (-> & Hs & Hi & He1). specialize (IH s1 He1).
  destruct (Spinner.calls cs s1) as [s2 w2]. simpl in *.
  destruct IH as (-> & Hs2 & Hi2 & He2). repeat split; congruence.
Qed.

(** The theorem at work on a spinner created without a terminal. *)
Lemma disabled_spinner_is_silent_witness :
  snd (Spinner.calls [Spinner.Run 3; Spinner.ShowStatus (Some "Writing review...");
                      Spinner.Stop None] (Spinner.new None false)) = [] /\
  Spinner.current_status
    (fst (Spinner.calls [Spinner.Run 3; Spinner.ShowStatus (Some "Writing review...");
                         Spinner.Stop None] (Spinner.new None false)))
    = Spinner.current_status (Spinner.new None false) /\
  Spinner.spinner_idx
    (fst (Spinner.calls [Spinner.Run 3; Spinner.ShowStatus (Some "Writing review...");
                         Spinner.Stop None] (Spinner.new None false)))
    = Spinner.spinner_idx (Spinner.new None false) /\
  Spinner.enabled
    (fst (Spinner.calls [Spinner.Run 3; Spinner.ShowStatus (Some "Writing review...");
                         Spinner.Stop None] (Spinner.new None false))) = false.
Proof.
  exact (disabled_spinner_is_silent
           [Spinner.Run 3; Spinner.ShowStatus (Some "Writing review..."); Spinner.Stop None]
           (Spinner.new None false) eq_refl).
Defined.

(** X23: the animation advances by one frame per status line.  Over
    any sequence of calls, the frames drawn are the consecutive ones
    starting at the frame counter, taken modulo the ten frames --
    whether the line comes from an explicit status update or from a
    round of the loop -- and the counter ends up advanced by the number
    of lines drawn. *)
Theorem spinner_frames_are_consecutive (cs : list Spinner.Call) (s : Spinner.State) :
  let ws := snd (Spinner.calls cs s) in
  Terminal.frames ws =
    map (fun j => (j mod 10)%nat) (seq (Spinner.spinner_idx s) (length (Terminal.frames ws)))
  /\
  Spinner.spinner_idx (fst (Spinner.calls cs s))
    = (Spinner.spinner_idx s + length (Terminal.frames ws))%nat.
Proof.
  intros ws. destruct (calls_call_ok cs s) as (Hi & Hf & _). split; [exact Hf|exact Hi].
Qed.

Section SpinnerStatus.

Import Spinner Terminal.

Lemma last_cons_default (m : string) (ms : list string) :
  last (m :: ms) = Some (default m (last ms)).
Proof.
  revert m. induction ms as [|x ms IH]; intros m; [reflexivity|].
  change (last (m :: x :: ms)) with (last (x :: ms)). rewrite IH. reflexivity.
Qed.

Lemma latest_cons (cur m : string) (ms : list string) :
  default cur (last (m :: ms)) = default m (last ms).
Proof. rewrite last_cons_default. reflexivity. Qed.

Lemma call_status (c : Call) (s : State) :
  enabled s = true ->
  current_status (fst (call c s)) = default (current_status s) (last (messages [c])) /\
  enabled (fst (call c s)) = true.
Proof.
  intros He. destruct c as [m|w|n]; unfold call.
  - unfold show_status. rewrite He. cbn [negb fst].
    destruct m as [m|]; [|auto]. unfold messages. cbn [flat_map].
    destruct (Text.truthy m); auto.
  - unfold stop. rewrite He. auto.
  - unfold run. rewrite He. cbn [negb].
    pose proof (tick_status n (mkSpinner (current_status s) (spinner_idx s) true true)) as Ht.
    pose proof (tick_ok n (mkSpinner (current_status s) (spinner_idx s) true true))
      as (_ & _ & Hen).
    destruct (tick n _) as [s1 w]. cbn [fst current_status enabled] in *.
    destruct Ht as [-> _]. auto.
Qed.

Lemma messages_cons (c : Call) (cs : list Call) :
  messages (c :: cs) = (messages [c] ++ messages cs)%list.
Proof. unfold messages. simpl. rewrite app_nil_r. reflexivity. Qed.

Lemma latest_app (cur : string) (a b : list string) :
  default cur (last (a ++ b)) = default (default cur (last a)) (last b).
Proof.
  revert cur. induction a as [|x a IH]; intros cur; [reflexivity|].
  change ((x :: a) ++ b)%list with (x :: (a ++ b))%list.
  rewrite !latest_cons. apply IH.
Qed.

Lemma calls_status (cs : list Call) (s : State) :
  enabled s = true ->
  current_status (fst (calls cs s)) = default (current_status s) (last (messages cs)).
Proof.
  revert s. induction cs as [|c cs IH]; intros s He; cbn [calls]; [reflexivity|].
  destruct (call_status c s He) as [Hs He1].
  destruct (call c s) as [s1 w1]. cbn [fst] in *. specialize (IH s1 He1).
  destruct (calls cs s1) as [s2 w2]. cbn [fst] in *.
  rewrite (messages_cons c cs), latest_app, IH, Hs. reflexivity.
Qed.

End SpinnerStatus.

(** X24: the spinner remembers the last status it was given.  On an
    enabled spinner, after any sequence of calls the current status is
    the last non-empty message passed to [show_status] (the status it
    started with when there was none): rounds of the loop, [stop], and
    calls with an empty or absent message leave it as it is. *)
Theorem spinner_keeps_last_status (cs : list Spinner.Call) (s : Spinner.State) :
  Spinner.enabled s = true ->
  Spinner.current_status (fst (Spinner.calls cs s))
    = default (Spinner.current_status s) (last (Terminal.messages cs)).
Proof. apply calls_status. Qed.

(** The theorem at work: a status, an empty update, three rounds and a
    stop. *)
Lemma spinner_keeps_last_status_witness :
  Spinner.current_status
    (fst (Spinner.calls
            [Spinner.ShowStatus (Some "Calling tool: grep..."); Spinner.ShowStatus (Some "");
             Spinner.Run 3; Spinner.Stop (Some 120%nat)] (Spinner.new (Some true) false)))
  = default (Spinner.current_status (Spinner.new (Some true) false))
      (last (Terminal.messages
               [Spinner.ShowStatus (Some "Calling tool: grep...");
                Spinner.ShowStatus (Some ""); Spinner.Run 3; Spinner.Stop (Some 120%nat)])).
Proof.
  exact (spinner_keeps_last_status
           [Spinner.ShowStatus (Some "Calling tool: grep..."); Spinner.ShowStatus (Some "");
            Spinner.Run 3; Spinner.Stop (Some 120%nat)] (Spinner.new (Some true) false) eq_refl).
Defined.

(** ** Path resolution and file collection *)

Section PathProofs.

Import Paths.

Lemma files_at_In (fs : Files) (r f : string) :
  In f (files_at fs r) <->
  (f = r /\ kind fs r = RegularFile /\ is_lock_file fs r = false) \/
  (exists entries, kind fs r = Directory entries /\ In f entries /\ is_code_file fs f = true).
Proof.
  unfold files_at. destruct (kind fs r) as [| |entries|] eqn:Hk.
  - split; [intros []|]. intros [(_ & H & _)|(es & H & _)]; discriminate.
  - destruct (is_lock_file fs r) eqn:Hl.
    + split; [intros []|]. intros [(_ & _ & H)|(es & H & _)]; discriminate.
    + split.
      * intros [<-|[]]. left. auto.
      * intros [(-> & _)|(es & H & _)]; [left; reflexivity|discriminate].
  - rewrite <- list_elem_of_In, list_elem_of_filter, list_elem_of_In. split.
    + intros [Hc Hin]. right. exists entries. auto.
    + intros [(_ & H & _)|(es & H & Hin & Hc)]; [discriminate|].
      injection H as <-. auto.
  - split; [intros []|]. intros [(_ & H & _)|(es & H & _)]; discriminate.
Qed.

Lemma files_at_no_lock (fs : Files) (r f : string) :
  In f (files_at fs r) -> is_lock_file fs f = false.
Proof.
  rewrite files_at_In. intros [(-> & _ & H)|(es & _ & _ & H)]; [exact H|].
  unfold is_code_file in H. apply andb_true_iff in H as [_ H].
  now apply negb_true_iff in H.
Qed.

Lemma collect_files_cons (fs : Files) (path : string) (rest files : list string) :
  collect_files fs (path :: rest) = inr files ->
  exists r tl, resolve_path fs path = inr r /\ collect_files fs rest = inr tl /\
               files = (files_at fs r ++ tl)%list.
Proof.
  cbn [collect_files]. destruct (resolve_path fs path) as [e|r]; [discriminate|].
  destruct (collect_files fs rest) as [e|tl]; [discriminate|].
  intros H. injection H as <-. eauto.
Qed.

Lemma collect_files_In (fs : Files) (paths files : list string) :
  collect_files fs paths = inr files ->
  forall f, In f files <->
    exists path r, In path paths /\ resolve_path fs path = inr r /\ In f (files_at fs r).
Proof.
  revert files. induction paths as [|path rest IH]; intros files H f.
  - injection H as <-. split; [intros []|]. intros (p & r & [] & _).
  - apply collect_files_cons in H as (r & tl & Hr & Htl & ->).
    rewrite in_app_iff, (IH tl Htl f). split.
    + intros [Hin|(p & r' & Hp & Hr' & Hin)].
      * exists path, r. simpl. auto.
      * exists p, r'. simpl. auto.
    + intros (p & r' & [<-|Hp] & Hr' & Hin).
      * left. congruence.
      * right. eauto.
Qed.

End PathProofs.

(** X25: the directory check of [resolve_path] has no effect on
    ordinary paths.  For a path not written with the [@] shorthand,
    the only rejection is a [..] component; otherwise the result is the
    resolved path, whether or not it lies under the working directory
    and whether or not it is absolute. *)
Theorem resolve_path_ordinary (fs : Paths.Files) (path : string) :
  Text.startswith "@" path = false ->
  Paths.resolve_path fs path =
    if existsb (String.eqb "..") (Paths.parts fs path)
    then inl (Paths.ValueError "Path traversal detected: '..' not allowed in path")
    else inr (Paths.resolve fs path).
Proof.
  intros H. unfold Paths.resolve_path. rewrite H.
  destruct (existsb (String.eqb "..") (Paths.parts fs path)); [reflexivity|].
  destruct (existsb _ _); [reflexivity|]. destruct (Paths.is_absolute fs _); reflexivity.
Qed.

(** The theorem at work on a path outside the working directory. *)
Lemma resolve_path_ordinary_witness :
  Paths.is_relative_to SampleTree.fs "/etc/passwd" "/repo" = false /\
  Paths.resolve_path SampleTree.fs "/etc/passwd" =
    if existsb (String.eqb "..") (Paths.parts SampleTree.fs "/etc/passwd")
    then inl (Paths.ValueError "Path traversal detected: '..' not allowed in path")
    else inr (Paths.resolve SampleTree.fs "/etc/passwd").
Proof.
  split; [reflexivity|].
  exact (resolve_path_ordinary SampleTree.fs "/etc/passwd" eq_refl).
Defined.

(** X26: what a successful [resolve_path] guarantees.  A path it
    returns for has no [..] component; and for the [@] shorthand, the
    name after [@] holds no separator and no [..], and the result lies
    under the working directory or under its [src]. *)
Theorem resolve_path_guarantees (fs : Paths.Files) (path r : string) :
  Paths.resolve_path fs path = inr r ->
  ~ In ".." (Paths.parts fs path) /\
  (Text.startswith "@" path = true ->
   Text.str_in "/" (Paths.tail path) = false /\
   Text.str_in "\" (Paths.tail path) = false /\
   Text.str_in ".." (Paths.tail path) = false /\
   (Paths.is_relative_to fs r (Paths.resolve fs (Paths.cwd fs)) = true \/
    Paths.is_relative_to fs r
      (Paths.resolve fs (Paths.joinpath fs (Paths.cwd fs) "src")) = true)).
Proof.
  unfold Paths.resolve_path.
  destruct (existsb (String.eqb "..") (Paths.parts fs path)) eqn:Hp; [discriminate|].
  intros H. split.
  - intros Hin. assert (existsb (String.eqb "..") (Paths.parts fs path) = true);
      [|congruence].
    apply existsb_exists. exists "..". split; [exact Hin|apply String.eqb_refl].
  - intros Hat. rewrite Hat in H.
    destruct (Text.str_in "/" (Paths.tail path)); [discriminate|].
    destruct (Text.str_in "\" (Paths.tail path)); [discriminate|].
    destruct (Text.str_in ".." (Paths.tail path)); [discriminate|].
    cbn [orb] in H. repeat split.
    match type of H with
    | (if existsb ?f ?l then _ else _) = _ => destruct (existsb f l) eqn:He
    end; [|discriminate].
    injection H as <-. cbn [existsb] in He. rewrite orb_false_r in He.
    apply orb_true_iff in He. exact He.
Qed.

(** The theorem at work on [@agents]. *)
Lemma resolve_path_guarantees_witness :
  ~ In ".." (Paths.parts SampleTree.fs "@agents") /\
  (Text.startswith "@" "@agents" = true ->
   Text.str_in "/" (Paths.tail "@agents") = false /\
   Text.str_in "\" (Paths.tail "@agents") = false /\
   Text.str_in ".." (Paths.tail "@agents") = false /\
   (Paths.is_relative_to SampleTree.fs "/repo/@agents"
      (Paths.resolve SampleTree.fs (Paths.cwd SampleTree.fs)) = true \/
    Paths.is_relative_to SampleTree.fs "/repo/@agents"
      (Paths.resolve SampleTree.fs
         (Paths.joinpath SampleTree.fs (Paths.cwd SampleTree.fs) "src")) = true)).
Proof.
  exact (resolve_path_guarantees SampleTree.fs "@agents" "/repo/@agents" eq_refl).
Defined.

(** X27: what [collect_files] returns.  When no path is rejected, a
    file is in the result exactly when some given path resolves to it
    as a regular file that is not a lock file -- whatever its extension
    -- or resolves to a directory under which it is found as a regular
    file with a code extension (compared in lower case) that is not a
    lock file.  In particular no lock file is ever returned. *)
Theorem collect_files_membership (fs : Paths.Files) (paths files : list string) :
  Paths.collect_files fs paths = inr files ->
  (forall f, In f files <->
     exists path r, In path paths /\ Paths.resolve_path fs path = inr r /\
       ((f = r /\ Paths.kind fs r = Paths.RegularFile /\ Paths.is_lock_file fs r = false) \/
        (exists entries, Paths.kind fs r = Paths.Directory entries /\ In f entries /\
           Paths.is_file fs f = true /\
           In (Text.lower (Paths.suffix fs f)) Paths.CODE_EXTENSIONS /\
           Paths.is_lock_file fs f = false))) /\
  (forall f, In f files -> ~ In (Paths.name fs f) Paths.LOCK_FILES).
Proof.
  intros H. split.
  - intros f. rewrite (collect_files_In fs paths files H f).
    split; intros (p & r & Hp & Hr & Hin); exists p, r; (split; [exact Hp|]);
      (split; [exact Hr|]).
    + apply files_at_In in Hin as [Hfile|(es & Hk & Hin & Hc)]; [left; exact Hfile|].
      right. exists es. unfold Paths.is_code_file in Hc.
      apply andb_true_iff in Hc as [Hc Hl]. apply andb_true_iff in Hc as [Hf Hx].
      apply negb_true_iff in Hl. apply existsb_exists in Hx as (x & Hx & Heq).
      apply String.eqb_eq in Heq. subst x. auto.
    + apply files_at_In. destruct Hin as [Hfile|(es & Hk & Hin & Hf & Hx & Hl)];
        [left; exact Hfile|].
      right. exists es. split; [exact Hk|]. split; [exact Hin|].
      unfold Paths.is_code_file. rewrite Hf, Hl. cbn [andb negb]. rewrite andb_true_r.
      apply existsb_exists. eexists. split; [exact Hx|apply String.eqb_refl].
  - intros f Hin Hlock.
    apply (collect_files_In fs paths files H f) in Hin as (p & r & _ & _ & Hin).
    apply files_at_no_lock in Hin. unfold Paths.is_lock_file in Hin.
    assert (existsb (String.eqb (Paths.name fs f)) Paths.LOCK_FILES = true); [|congruence].
    apply existsb_exists. eexists. split; [exact Hlock|apply String.eqb_refl].
Qed.

(** The theorem at work: a directory, a file without a code extension,
    a lock file and a missing path. *)
Lemma collect_files_membership_witness :
  (forall f, In f ["/repo/src/app.py"; "/repo/src/Main.PY"; "/repo/README.md"] <->
     exists path r, In path ["src"; "README.md"; "uv.lock"; "nothing"] /\
       Paths.resolve_path SampleTree.fs path = inr r /\
       ((f = r /\ Paths.kind SampleTree.fs r = Paths.RegularFile /\
         Paths.is_lock_file SampleTree.fs r = false) \/
        (exists entries, Paths.kind SampleTree.fs r = Paths.Directory entries /\
           In f entries /\ Paths.is_file SampleTree.fs f = true /\
           In (Text.lower (Paths.suffix SampleTree.fs f)) Paths.CODE_EXTENSIONS /\
           Paths.is_lock_file SampleTree.fs f = false))) /\
  (forall f, In f ["/repo/src/app.py"; "/repo/src/Main.PY"; "/repo/README.md"] ->
     ~ In (Paths.name SampleTree.fs f) Paths.LOCK_FILES).
Proof.
  exact (collect_files_membership SampleTree.fs ["src"; "README.md"; "uv.lock"; "nothing"]
           ["/repo/src/app.py"; "/repo/src/Main.PY"; "/repo/README.md"] eq_refl).
Defined.

(** ** The front of the [review] command *)

Section CommandProofs.

Import Paths Command.

Lemma filter_uncommitted_files (fs : Files) (project_root : string)
    (paths collected : list string) (git : Exception + list string) (files : list string) :
  filter_uncommitted fs project_root paths collected git = inr files ->
  files <> [] /\
  exists changed, git = inr changed /\
    forall f, In f files -> exists p, In p changed /\
      ((f = resolve fs (joinpath fs (resolve fs project_root) p) /\
        exists_ fs (joinpath fs (resolve fs project_root) p) = true) \/
       (In f collected /\
        resolve fs f = resolve fs (joinpath fs (resolve fs project_root) p) /\
        exists_ fs f = true)).
Proof.
  unfold filter_uncommitted. destruct git as [e|changed]; [discriminate|].
  destruct changed as [|c changed]; [discriminate|].
  set (all := c :: changed).
  match goal with
  | |- match ?F with [] => _ | _ :: _ => _ end = _ -> _ => set (filtered := F)
  end.
  intros H. assert (Hf : filtered = files /\ files <> []).
  { destruct filtered; [discriminate|]. injection H as <-. split; [reflexivity|discriminate]. }
  destruct Hf as [Hf Hne]. split; [exact Hne|]. exists all. split; [reflexivity|].
  intros f Hin. rewrite <- Hf in Hin. unfold filtered in Hin.
  destruct (_ || _) in Hin.
  - apply in_map_iff in Hin as (p & <- & Hp).
    apply list_elem_of_In, list_elem_of_filter in Hp as [Hex Hp].
    apply list_elem_of_In in Hp. exists p. split; [exact Hp|]. left. auto.
  - apply list_elem_of_In, list_elem_of_filter in Hin as [Hc Hin].
    apply list_elem_of_In in Hin. apply andb_true_iff in Hc as [Hm Hex].
    apply existsb_exists in Hm as (x & Hx & Heq). apply String.eqb_eq in Heq.
    apply in_map_iff in Hx as (p & <- & Hp). exists p. split; [exact Hp|]. right. auto.
Qed.

Lemma head_by_default_truthy (base_ref : option string) :
  exists ref, head_by_default base_ref = Some ref /\ Text.truthy ref = true.
Proof.
  destruct base_ref as [ref|]; simpl; [|eauto].
  destruct (Text.truthy ref) eqn:H; eauto.
Qed.

Lemma review_front_nonempty (fs : Files) (project_root : string)
    (git : Exception + list string) (inv : Invocation)
    (files : list string) (base extra : option string) :
  review_front fs project_root git inv = Starts files base extra -> files <> [].
Proof.
  unfold review_front.
  destruct (Frontend.check_extra_instructions _); [discriminate|].
  destruct (uncommitted inv); destruct (Command.paths inv) as [|p ps]; cbn [andb];
    try discriminate;
    match goal with
    | |- context [collect_files fs ?l] =>
        destruct (collect_files fs l) as [e|collected]; [discriminate|]
    end.
  1, 2: destruct (filter_uncommitted _ _ _ _ _) as [code|filtered]; [discriminate|];
    destruct filtered; [discriminate|]; intros H; injection H as <- _ _; discriminate.
  destruct collected; [discriminate|]. intros H. injection H as <- _ _. discriminate.
Qed.

End CommandProofs.

(** X28: what holds whenever the command reaches the batch.  The list
    of files is never empty.  Without [--uncommitted] it is what
    [collect_files] gave for the paths and the base reference is the
    one passed.  With [--uncommitted], git answered, the base reference
    is a non-empty string ([HEAD] unless one was given), and every file
    is tied to a path git reported: it is the resolved location of one
    that exists, or it exists itself and resolves to the location of
    one. *)
Theorem review_reaches_batch
    (fs : Paths.Files) (project_root : string) (git : Exception + list string)
    (inv : Command.Invocation) (files : list string) (base extra : option string) :
  Command.review_front fs project_root git inv = Command.Starts files base extra ->
  files <> [] /\
  (Command.uncommitted inv = false ->
     base = Command.base_ref inv /\
     Paths.collect_files fs (Command.paths inv) = inr files) /\
  (Command.uncommitted inv = true ->
     (exists ref, base = Some ref /\ Text.truthy ref = true) /\
     exists changed, git = inr changed /\
       forall f, In f files -> exists p, In p changed /\
         ((f = Paths.resolve fs (Paths.joinpath fs (Paths.resolve fs project_root) p) /\
           Paths.exists_ fs (Paths.joinpath fs (Paths.resolve fs project_root) p) = true) \/
          (Paths.resolve fs f
             = Paths.resolve fs (Paths.joinpath fs (Paths.resolve fs project_root) p) /\
           Paths.exists_ fs f = true))).
Proof.
  intros H. split; [exact (review_front_nonempty _ _ _ _ _ _ _ H)|].
  unfold Command.review_front in H.
  destruct (Frontend.check_extra_instructions _) as [|o w]; [discriminate|].
  destruct (Command.uncommitted inv) eqn:Hu.
  - split; [discriminate|]. intros _.
    assert (Hstart : exists ps collected filtered,
               Command.filter_uncommitted fs project_root ps collected git = inr filtered /\
               Command.Starts filtered (Command.head_by_default (Command.base_ref inv)) o
                 = Command.Starts files base extra).
    { destruct (Command.paths inv) as [|p ps]; cbn [andb] in H;
        match type of H with
        | context [Paths.collect_files fs ?l] =>
            destruct (Paths.collect_files fs l) as [e|collected]; [discriminate|]
        end;
        destruct (Command.filter_uncommitted _ _ _ _ _) as [code|filtered] eqn:Hf;
        try discriminate; destruct filtered as [|f0 filtered]; try discriminate; eauto. }
    destruct Hstart as (ps & collected & filtered & Hf & Heq).
    injection Heq as <- <- _. split; [apply head_by_default_truthy|].
    apply filter_uncommitted_files in Hf as (_ & changed & -> & Hall).
    exists changed. split; [reflexivity|]. intros f Hin.
    destruct (Hall f Hin) as (p0 & Hp & [Hcase|(_ & Hcase)]); exists p0; auto.
  - split; [|discriminate]. intros _. cbn [andb] in H.
    destruct (Command.paths inv) as [|p ps]; [discriminate|].
    destruct (Paths.collect_files fs (p :: ps)) as [e|collected]; [discriminate|].
    destruct collected; [discriminate|]. injection H as <- <- _. auto.
Qed.

(** The theorem at work: uncommitted changes under [src]. *)
Lemma review_reaches_batch_witness :
  let inv := Command.mkInvocation ["src"] None None true in
  let project_root := "/repo" in
  let git : Exception + list string := inr SampleTree.changed in
  let files := ["/repo/src/app.py"] in
  let base := Some "HEAD" in
  files <> [] /\
  (Command.uncommitted inv = false ->
     base = Command.base_ref inv /\
     Paths.collect_files SampleTree.fs (Command.paths inv) = inr files) /\
  (Command.uncommitted inv = true ->
     (exists ref, base = Some ref /\ Text.truthy ref = true) /\
     exists changed, git = inr changed /\
       forall f, In f files -> exists p, In p changed /\
         ((f = Paths.resolve SampleTree.fs
                 (Paths.joinpath SampleTree.fs
                    (Paths.resolve SampleTree.fs project_root) p) /\
           Paths.exists_ SampleTree.fs
             (Paths.joinpath SampleTree.fs
                (Paths.resolve SampleTree.fs project_root) p) = true) \/
          (Paths.resolve SampleTree.fs f
             = Paths.resolve SampleTree.fs
                 (Paths.joinpath SampleTree.fs
                    (Paths.resolve SampleTree.fs project_root) p) /\
           Paths.exists_ SampleTree.fs f = true))).
Proof.
  exact (review_reaches_batch SampleTree.fs "/repo" (inr SampleTree.changed)
           (Command.mkInvocation ["src"] None None true)
           ["/repo/src/app.py"] (Some "HEAD") None eq_refl).
Defined.

(** X29: [--uncommitted] without paths reviews what git reports, not
    what [collect_files] finds.  The files are the resolved locations
    of the uncommitted paths that still exist, in git's order; the
    collected files play no part, so neither the lock-file exclusion
    nor the extension filter applies.  When none exists the command
    exits with status 0. *)
Theorem uncommitted_without_paths_reviews_git_files
    (fs : Paths.Files) (project_root : string) (changed collected : list string)
    (inv : Command.Invocation) (extra : option string) (warned : bool) :
  Command.uncommitted inv = true ->
  Command.paths inv = [] ->
  Frontend.check_extra_instructions (Command.extra_instructions inv)
    = Frontend.Kept extra warned ->
  Paths.collect_files fs [project_root] = inr collected ->
  Command.review_front fs project_root (inr changed) inv =
    match map (fun p => Paths.resolve fs
                          (Paths.joinpath fs (Paths.resolve fs project_root) p))
              (filter (fun p => Paths.exists_ fs
                          (Paths.joinpath fs (Paths.resolve fs project_root) p) = true)
                      changed) with
    | [] => Command.Exits 0
    | files => Command.Starts files (Command.head_by_default (Command.base_ref inv)) extra
    end.
Proof.
  intros Hu Hp Hc Hcol. unfold Command.review_front. rewrite Hc, Hu, Hp. cbn [andb].
  rewrite Hcol. unfold Command.filter_uncommitted.
  destruct changed as [|c changed]; [reflexivity|].
  rewrite bool_decide_true by reflexivity. cbn [orb].
  destruct (map _ _); reflexivity.
Qed.

(** The theorem at work: an uncommitted lock file is reviewed, a
    deleted file is not. *)
Lemma uncommitted_without_paths_reviews_git_files_witness :
  Paths.collect_files SampleTree.fs ["/repo"]
    = inr ["/repo/src/app.py"; "/repo/src/Main.PY"] /\
  Command.review_front SampleTree.fs "/repo" (inr SampleTree.changed)
    SampleTree.all_uncommitted
  = Command.Starts ["/repo/uv.lock"; "/repo/src/app.py"] (Some "HEAD") None.
Proof.
  split; [reflexivity|].
  exact (uncommitted_without_paths_reviews_git_files SampleTree.fs "/repo"
           SampleTree.changed ["/repo/src/app.py"; "/repo/src/Main.PY"]
           SampleTree.all_uncommitted None false eq_refl eq_refl eq_refl eq_refl).
Defined.

(** X30: a batch the command starts always gets a slot.  When the
    command reaches the batch and the configured maximum is at least
    one, the semaphore is created with at least one slot and at most
    one per file, and every task starts out waiting for it. *)
Theorem started_batch_has_a_slot
    (fs : Paths.Files) (project_root : string) (git : Exception + list string)
    (inv : Command.Invocation) (files : list string) (base extra : option string)
    (settings : Review.Settings) (no_cache : bool) (envs : nat -> Review.JobEnv) :
  Command.review_front fs project_root git inv = Command.Starts files base extra ->
  1 <= Review.max_concurrent_reviews settings ->
  exists limit,
    1 <= limit <= Z.of_nat (length files) /\
    Dispatcher.review settings no_cache files envs []
      = Some (Dispatcher.mkState limit (replicate (length files) Dispatcher.Pending) None).
Proof.
  intros H Hmax. apply review_front_nonempty in H.
  assert (Hn : 1 <= Z.of_nat (length files)) by (destruct files; [congruence|simpl; lia]).
  exists (Dispatcher.concurrency_limit (Review.max_concurrent_reviews settings)
            (length files)).
  assert (Hl : 1 <= Dispatcher.concurrency_limit (Review.max_concurrent_reviews settings)
                      (length files) <= Z.of_nat (length files)).
  { unfold Dispatcher.concurrency_limit. cbv zeta.
    destruct (Z.leb_spec (Z.of_nat (length files)) 5) as [H5|H5]; [lia|].
    assert (3 <= Z.of_nat (length files) / 2) by (apply Z.div_le_lower_bound; lia).
    assert (Z.of_nat (length files) / 2 <= Z.of_nat (length files))
      by (apply Z.div_le_upper_bound; lia).
    lia. }
  split; [exact Hl|].
  unfold Dispatcher.review, Dispatcher.start.
  replace (_ <? 0) with false by (symmetry; apply Z.ltb_ge; lia). reflexivity.
Qed.

(** The theorem at work on the sample tree with a maximum of two. *)
Lemma started_batch_has_a_slot_witness :
  exists limit,
    1 <= limit <= Z.of_nat (length ["/repo/uv.lock"; "/repo/src/app.py"]) /\
    Dispatcher.review (Review.mkSettings true 2) false
      ["/repo/uv.lock"; "/repo/src/app.py"] SampleBatch.envs []
      = Some (Dispatcher.mkState limit
                (replicate (length ["/repo/uv.lock"; "/repo/src/app.py"])
                   Dispatcher.Pending) None).
Proof.
  apply (started_batch_has_a_slot SampleTree.fs "/repo" (inr SampleTree.changed)
           SampleTree.all_uncommitted ["/repo/uv.lock"; "/repo/src/app.py"]
           (Some "HEAD") None (Review.mkSettings true 2) false SampleBatch.envs eq_refl).
  simpl. lia.
Defined.
